(** * Intact: the vdt template parser and the misstime unmount / component runtime

    A shallow embedding of

    - [packages/vdt/src/compiler/parser.ts] (class [Parser]),
    - [packages/misstime/src/core/unmount.ts],
    - [packages/misstime/src/components/component.ts],

    together with the properties of the natural-language specification that
    concern them.

    Conventions.

    - JavaScript numbers that hold indices, lines, columns and character codes
      are [Z]; [NaN] (the result of [charCodeAt] out of range) is [None].
    - The parser's mutable cursor ([this.index], [this.line], [this.column])
      is threaded explicitly; a thrown exception is an [Outcome].
    - Every [while] loop of the parser carries a fuel argument; running out of
      fuel is the distinguished outcome [OutOfFuel], never a result.
    - Functions of the repository that are imported by these files but whose
      source is not part of the development ([utils/helpers], [utils/validate],
      [utils/component], [events/delegation], ...) are parameters, collected
      in the records [Env] (parser) and [Collab] (runtime), or calls recorded
      in the trace of the runtime. *)

From Stdlib Require Import ZArith List String Ascii Bool Lia.
From stdpp Require Import base option gmap strings.
Import ListNotations.

Set Warnings "-register-all".

Local Open Scope string_scope.
Local Open Scope list_scope.
Local Open Scope Z_scope.

(* ================================================================== *)
(** * The AST ([packages/vdt/src/utils/types], as used by the parser)   *)
(* ================================================================== *)

Module AST.

Record SourceLocation := mkLoc { line : Z; column : Z }.

(** [ASTTypes]: the tags that the parser writes into a node's [type]. *)
Inductive ASTTypes :=
| JS | JSHoist
| JSXCommonElement | JSXComponent | JSXVdt | JSXBlock
| JSXComment | JSXText
| JSXAttribute | JSXDirectiveIf
| JSXString | JSXStrings
| JSXExpression | JSXUnescapeText
| JSXNone.

Definition ASTTypes_eqb (a b : ASTTypes) : bool :=
  match a, b with
  | JS, JS | JSHoist, JSHoist
  | JSXCommonElement, JSXCommonElement | JSXComponent, JSXComponent
  | JSXVdt, JSXVdt | JSXBlock, JSXBlock
  | JSXComment, JSXComment | JSXText, JSXText
  | JSXAttribute, JSXAttribute | JSXDirectiveIf, JSXDirectiveIf
  | JSXString, JSXString | JSXStrings, JSXStrings
  | JSXExpression, JSXExpression | JSXUnescapeText, JSXUnescapeText
  | JSXNone, JSXNone => true
  | _, _ => false
  end.

(** One constructor per shape of object literal that the parser builds.  The
    [directives] object of an element, keyed by directive name, is an
    association list in insertion order.  The [next] field of a directive-if
    node is the only field that the parser assigns after the node is built. *)
Inductive ASTNode :=
| ASTJS (value : list string) (spaces : Z) (loc : SourceLocation)
| ASTHoist (value : string) (loc : SourceLocation)
| ASTElement (type : ASTTypes) (value : string)
    (attributes : list ASTNode) (directives : list (string * ASTNode))
    (children : list ASTNode) (keyed : bool) (loc : SourceLocation)
| ASTComment (value : string) (loc : SourceLocation)
| ASTText (value : string) (loc : SourceLocation)
| ASTAttribute (name : string) (value : ASTNode) (loc : SourceLocation)
| ASTDirectiveIf (name : string) (value : ASTNode) (next : option ASTNode)
    (loc : SourceLocation)
| ASTString (value : string) (loc : SourceLocation)
| ASTStrings (value : list ASTNode) (loc : SourceLocation)
| ASTExpression (type : ASTTypes) (value : list ASTNode) (loc : SourceLocation)
| ASTNone (loc : SourceLocation).

Definition nodeType (n : ASTNode) : ASTTypes :=
  match n with
  | ASTJS _ _ _ => JS
  | ASTHoist _ _ => JSHoist
  | ASTElement t _ _ _ _ _ _ => t
  | ASTComment _ _ => JSXComment
  | ASTText _ _ => JSXText
  | ASTAttribute _ _ _ => JSXAttribute
  | ASTDirectiveIf _ _ _ _ => JSXDirectiveIf
  | ASTString _ _ => JSXString
  | ASTStrings _ _ => JSXStrings
  | ASTExpression t _ _ => t
  | ASTNone _ => JSXNone
  end.

Definition nodeLoc (n : ASTNode) : SourceLocation :=
  match n with
  | ASTJS _ _ l | ASTHoist _ l | ASTElement _ _ _ _ _ _ l | ASTComment _ l
  | ASTText _ l | ASTAttribute _ _ l | ASTDirectiveIf _ _ _ l | ASTString _ l
  | ASTStrings _ l | ASTExpression _ _ l | ASTNone l => l
  end.

Definition nodeDirectives (n : ASTNode) : list (string * ASTNode) :=
  match n with
  | ASTElement _ _ _ d _ _ _ => d
  | _ => []
  end.

(** [obj[key]] on a [directives] object. *)
Fixpoint lookupDirective (key : string) (d : list (string * ASTNode)) : option ASTNode :=
  match d with
  | [] => None
  | (k, v) :: d' => if String.eqb k key then Some v else lookupDirective key d'
  end.

(** [obj[key] = v]: an existing key keeps its place, a new key is appended. *)
Fixpoint assignDirective (key : string) (v : ASTNode) (d : list (string * ASTNode))
  : list (string * ASTNode) :=
  match d with
  | [] => [(key, v)]
  | (k, w) :: d' =>
      if String.eqb k key then (k, v) :: d' else (k, w) :: assignDirective key v d'
  end.

Definition hasDirective (key : string) (n : ASTNode) : bool :=
  match lookupDirective key (nodeDirectives n) with Some _ => true | None => false end.

(** Modelled from the spec: [isElementNode] of [utils/helpers] is not part of
    the sources.  It is the type guard for [ASTElement]; the spec's data model
    lists the element kinds as element, component, block and vdt directive. *)
Definition isElementNode (n : ASTNode) : bool :=
  match n with
  | ASTElement (JSXCommonElement | JSXComponent | JSXVdt | JSXBlock) _ _ _ _ _ _ => true
  | _ => false
  end.

End AST.

Import AST.

(* ================================================================== *)
(** * The parser ([packages/vdt/src/compiler/parser.ts])                *)
(* ================================================================== *)

Module Parser.

(** ** Exceptions, outcomes and the cursor monad *)

(** [throwError(msg, loc, source)] raises a located parse error; a
    [TypeError] is what the JavaScript engine raises on a property access
    through [null]. *)
Inductive Exn :=
| ParseError (msg : string) (loc : SourceLocation)
| TypeError (msg : string).

(** [this.index], [this.line], [this.column]. *)
Record Cursor := mkCursor { index : Z; line : Z; column : Z }.

Inductive Outcome (A : Type) :=
| Ok (a : A) (s : Cursor)
| Throw (e : Exn)
| OutOfFuel.
Arguments Ok {A} a s.
Arguments Throw {A} e.
Arguments OutOfFuel {A}.

Definition M (A : Type) := Cursor -> Outcome A.

Definition ret {A} (a : A) : M A := fun s => Ok a s.

Definition bind {A B} (m : M A) (k : A -> M B) : M B :=
  fun s => match m s with
           | Ok a s' => k a s'
           | Throw e => Throw e
           | OutOfFuel => OutOfFuel
           end.

Definition throw {A} (e : Exn) : M A := fun _ => Throw e.
Definition get : M Cursor := fun s => Ok s s.

Notation "'let*' x ':=' m 'in' k" := (bind m (fun x => k))
  (at level 10, x pattern, m at level 100, k at level 200).
Notation "m1 ';;' m2" := (bind m1 (fun _ => m2))
  (at level 100, m2 at level 200, right associativity).

(** ** What the parser imports *)

(** The double quote, written by code so that no string literal holds one. *)
Definition dquote : string := String (ascii_of_nat 34) "".
Definition newline : string := String (ascii_of_nat 10) "".
Definition backslash : string := String (ascii_of_nat 92) "".

(** The imports of [parser.ts] from [utils/helpers] and [utils/validate], the
    option object and the build mode.  A character code is [option Z], [None]
    being [NaN].  A validator returns [Some e] when it throws [e]. *)
Record Env := mkEnv {
  delimiters : string * string;
  NODE_ENV : string;
  trimRight : string -> string;
  isWhiteSpace : option Z -> bool;
  isWhiteSpaceExceptLinebreak : option Z -> bool;
  isJSIdentifierPart : option Z -> bool;
  isJSXIdentifierPart : option Z -> bool;
  selfClosingTags : string -> bool;
  textTags : string -> bool;
  directivesMap : string -> bool;
  Directives_If : string;
  Directives_ElseIf : string;
  Directives_Else : string;
  Directives_Raw : string;
  validateDirectiveValue :
    string -> ASTTypes -> string -> ASTTypes -> string -> SourceLocation -> option Exn;
  validateModel : string -> ASTTypes -> list ASTNode -> string -> option Exn;
  validateAttributeForBlock :
    string -> string -> ASTNode -> SourceLocation -> string -> option Exn;
}.

(** Running a validator: it returns normally or throws. *)
Definition validate (r : option Exn) : M unit :=
  match r with
  | None => ret tt
  | Some e => throw e
  end.

(** ** Strings of the source, as JavaScript reads them *)

(** [str.slice(a, b)] on integers. *)
Definition jsSlice (str : string) (a b : Z) : string :=
  let n := Z.of_nat (String.length str) in
  let from := if a <? 0 then Z.max (n + a) 0 else Z.min a n in
  let to := if b <? 0 then Z.max (n + b) 0 else Z.min b n in
  if from <? to then substring (Z.to_nat from) (Z.to_nat (to - from)) str else "".

(** [str.charAt(i)]: the empty string out of range. *)
Definition jsCharAt (str : string) (i : Z) : string :=
  if (0 <=? i) && (i <? Z.of_nat (String.length str))
  then substring (Z.to_nat i) 1 str else "".

(** [str.charCodeAt(i)]: [NaN] out of range. *)
Definition jsCharCodeAt (str : string) (i : Z) : option Z :=
  if 0 <=? i then
    match String.get (Z.to_nat i) str with
    | Some c => Some (Z.of_nat (nat_of_ascii c))
    | None => None
    end
  else None.

Definition strLen (str : string) : Z := Z.of_nat (String.length str).

(** A number used as a condition: [0] and [NaN] are falsy. *)
Definition truthyCode (c : option Z) : bool :=
  match c with
  | Some n => negb (n =? 0)
  | None => false
  end.

Definition codeIs (c : option Z) (n : Z) : bool :=
  match c with
  | Some m => m =? n
  | None => false
  end.

(** ** Scanner primitives *)

Section Scanner.

Variable env : Env.
(** [this.source]. *)
Variable source : string.

(** [this.length]. *)
Definition srcLength : Z := strLen source.

Definition getLocation (s : Cursor) : SourceLocation := mkLoc (line s) (column s).

Definition getValueTo (start idx : Z) : string := jsSlice source start idx.
Definition getValue (start : Z) (s : Cursor) : string := getValueTo start (index s).

Definition charAt (i : Z) : string := jsCharAt source i.
Definition char (s : Cursor) : string := charAt (index s).
Definition charCodeAt (i : Z) : option Z := jsCharCodeAt source i.
Definition charCode (s : Cursor) : option Z := charCodeAt (index s).

Definition isExpectAt (expect : string) (i : Z) : bool :=
  String.eqb (jsSlice source i (i + strLen expect)) expect.
Definition isExpect (expect : string) (s : Cursor) : bool := isExpectAt expect (index s).

Definition isJSImport (s : Cursor) : bool := isExpect "import " s.

(** [updateIndex(n)] returns the old index. *)
Definition updateIndex (n : Z) : M Z :=
  fun s => Ok (index s) (mkCursor (index s + n) (line s) (column s + n)).

Definition updateLine : M unit :=
  fun s => Ok tt (mkCursor (index s) (line s + 1) 0).

(** [this.error(msg, loc)]: the location defaults to the cursor's. *)
Definition error {A} (msg : string) (loc : option SourceLocation) : M A :=
  fun s => Throw (ParseError msg (default (getLocation s) loc)).

(** [this.expect(str, msg, loc)]; [msg || ...] takes the default for an absent
    or empty message. *)
Definition expect (str : string) (msg : option string) (loc : option SourceLocation)
  : M unit :=
  fun s =>
    if isExpect str s then (updateIndex (strLen str) ;; ret tt) s
    else
      let m := match msg with
               | Some m => if String.eqb m "" then "Expect string " +:+ str else m
               | None => "Expect string " +:+ str
               end in
      error m loc s.

Fixpoint skipWhitespace (fuel : nat) : M unit :=
  match fuel with
  | O => fun _ => OutOfFuel
  | S fuel' => fun s =>
      if index s <? srcLength then
        let code := charCode s in
        if negb (isWhiteSpace env code) then Ok tt s
        else
          ((if codeIs code 10 then updateLine else ret tt) ;;
           updateIndex 1 ;;
           skipWhitespace fuel') s
      else Ok tt s
  end.

(** The [while] loop of a [//] comment. *)
Fixpoint skipLineComment (fuel : nat) : M unit :=
  match fuel with
  | O => fun _ => OutOfFuel
  | S fuel' => fun s =>
      if index s <? srcLength then
        if codeIs (charCode s) 10 then Ok tt s
        else (updateIndex 1 ;; skipLineComment fuel') s
      else Ok tt s
  end.

(** The [while] loop of a block comment. *)
Fixpoint skipBlockComment (fuel : nat) : M unit :=
  match fuel with
  | O => fun _ => OutOfFuel
  | S fuel' => fun s =>
      if index s <? srcLength then
        if isExpect "*/" s then (updateIndex 2 ;; ret tt) s
        else
          ((if codeIs (charCode s) 10 then updateLine else ret tt) ;;
           updateIndex 1 ;;
           skipBlockComment fuel') s
      else Ok tt s
  end.

Fixpoint skipJSComment (fuel : nat) : M unit :=
  match fuel with
  | O => fun _ => OutOfFuel
  | S fuel' => fun s =>
      let start := index s in
      ((if String.eqb (char s) "/" then
          let ch := charAt (index s + 1) in
          if String.eqb ch "/" then updateIndex 2 ;; skipLineComment fuel'
          else if String.eqb ch "*" then updateIndex 2 ;; skipBlockComment fuel'
          else ret tt
        else ret tt) ;;
       let* s' := get in
       if negb (start =? index s') then skipJSComment fuel' else ret tt) s
  end.

Fixpoint skipWhitespaceAndJSComment (fuel : nat) : M unit :=
  match fuel with
  | O => fun _ => OutOfFuel
  | S fuel' => fun s =>
      let start := index s in
      (skipWhitespace fuel' ;;
       skipJSComment fuel' ;;
       let* s' := get in
       if negb (start =? index s') then skipWhitespaceAndJSComment fuel' else ret tt) s
  end.

(** *** [getLastCharCode]: the last significant character before the cursor *)

(** [while (start >= 0) { if (!isWhiteSpaceExceptLinebreak(code)) break; start-- }] *)
Fixpoint backOverSpaces (fuel : nat) (start : Z) : option Z :=
  match fuel with
  | O => None
  | S fuel' =>
      if 0 <=? start then
        if negb (isWhiteSpaceExceptLinebreak env (charCodeAt start)) then Some start
        else backOverSpaces fuel' (start - 1)
      else Some start
  end.

(** The search, backwards, for the opening of a block comment. *)
Fixpoint backToCommentStart (fuel : nat) (start : Z) : option Z :=
  match fuel with
  | O => None
  | S fuel' =>
      if 0 <=? start then
        if String.eqb (charAt start) "*" && String.eqb (charAt (start - 1)) "/"
        then Some (start - 2)
        else backToCommentStart fuel' (start - 1)
      else Some start
  end.

(** The second inner loop runs its body at most once (it ends in [break]). *)
Definition backOverComment (fuel : nat) (start : Z) : option Z :=
  if 0 <=? start then
    if String.eqb (charAt start) "/" && String.eqb (charAt (start - 1)) "*"
    then backToCommentStart fuel (start - 2)
    else Some start
  else Some start.

Fixpoint lastSignificant (fuel : nat) (start : Z) : option Z :=
  match fuel with
  | O => None
  | S fuel' =>
      match backOverSpaces fuel' start with
      | None => None
      | Some start1 =>
          match backOverComment fuel' start1 with
          | None => None
          | Some start2 =>
              if negb (start2 =? start) then lastSignificant fuel' start2
              else Some start2
          end
      end
  end.

Definition getLastCharCode (fuel : nat) : M (option Z) :=
  fun s => match lastSignificant fuel (index s - 1) with
           | Some start => Ok (charCodeAt start) s
           | None => OutOfFuel
           end.

(** *** [getFirstSpaceColumn] *)

(** The [do ... while (true)] loop; [_start] is assigned before every exit, so
    its initial value is never read. *)
Fixpoint firstSpaceStart (fuel : nat) (start : Z) (hasSet : bool) (_start : Z)
  : option Z :=
  match fuel with
  | O => None
  | S fuel' =>
      let ch := charAt start in
      if String.eqb ch newline || (start =? 0) then
        Some (if negb hasSet then start else _start)
      else if String.eqb ch " " then
        if negb hasSet then firstSpaceStart fuel' (start - 1) true start
        else firstSpaceStart fuel' (start - 1) hasSet _start
      else firstSpaceStart fuel' (start - 1) false _start
  end.

Definition getFirstSpaceColumn (fuel : nat) : M Z :=
  fun s => match firstSpaceStart fuel (index s - 1) false 0 with
           | Some _start => Ok (column s - (index s - _start)) s
           | None => OutOfFuel
           end.

(** *** [tagNameRegexp = /^<\w+:?\s*[\{\w\/>]/] *)

Definition asciiCode (c : ascii) : Z := Z.of_nat (nat_of_ascii c).

Definition isWordChar (c : ascii) : bool :=
  let n := asciiCode c in
  ((48 <=? n) && (n <=? 57)) || ((65 <=? n) && (n <=? 90))
  || ((97 <=? n) && (n <=? 122)) || (n =? 95).

Definition isRegexSpace (c : ascii) : bool :=
  let n := asciiCode c in
  ((9 <=? n) && (n <=? 13)) || (n =? 32) || (n =? 160).

(** [[\{\w\/>]] *)
Definition isTagNameEnd (c : ascii) : bool :=
  let n := asciiCode c in
  (n =? 123) || isWordChar c || (n =? 47) || (n =? 62).

(** [\s*[\{\w\/>]] *)
Fixpoint matchSpacesThenEnd (str : string) : bool :=
  match str with
  | EmptyString => false
  | String c rest => isTagNameEnd c || (isRegexSpace c && matchSpacesThenEnd rest)
  end.

(** [:?\s*[\{\w\/>]] *)
Definition matchColonOpt (str : string) : bool :=
  matchSpacesThenEnd str
  || match str with
     | String c rest => (asciiCode c =? 58) && matchSpacesThenEnd rest
     | EmptyString => false
     end.

(** [\w+] followed by the rest, at every length of the run. *)
Fixpoint matchWordPlus (str : string) : bool :=
  match str with
  | EmptyString => false
  | String c rest => isWordChar c && (matchColonOpt rest || matchWordPlus rest)
  end.

Definition tagNameRegexp_test (str : string) : bool :=
  match str with
  | String c rest => (asciiCode c =? 60) && matchWordPlus rest
  | EmptyString => false
  end.

Definition isTagStartAt (i : Z) : bool :=
  String.eqb (charAt i) "<"
  && (isExpectAt "<!--" i || tagNameRegexp_test (jsSlice source i srcLength)).
Definition isTagStart (s : Cursor) : bool := isTagStartAt (index s).

(** *** Literals, text runs and comments *)

(** [scanString]: the loop returns the string read and whether the closing
    quote was met ([quote = '']). *)
Fixpoint scanStringLoop (fuel : nat) (quote : string) (str : string) : M (string * bool) :=
  match fuel with
  | O => fun _ => OutOfFuel
  | S fuel' => fun s =>
      if index s <? srcLength then
        let ch := char s in
        ((if codeIs (jsCharCodeAt ch 0) 10 then updateLine else ret tt) ;;
         updateIndex 1 ;;
         if String.eqb ch quote then ret (str, true)
         else if String.eqb ch backslash then
           let* old := updateIndex 1 in
           scanStringLoop fuel' quote (str +:+ charAt old)
         else scanStringLoop fuel' quote (str +:+ ch)) s
      else Ok (str, String.eqb quote "") s
  end.

Definition scanString (fuel : nat) : M ASTNode :=
  fun s =>
    let loc := getLocation s in
    let quote := char s in
    (updateIndex 1 ;;
     let* (str, closed) := scanStringLoop fuel quote "" in
     (if negb closed then error "Unclosed quote" (Some loc) else ret tt) ;;
     ret (ASTString str loc)) s.

(** An entry of [stopChars]: a literal or a predicate on the cursor. *)
Inductive StopChar :=
| StopString (str : string)
| StopFunction (f : Cursor -> bool).

Definition stopsAt (stop : StopChar) (s : Cursor) : bool :=
  match stop with
  | StopString str => isExpect str s
  | StopFunction f => f s
  end.

Fixpoint scanJSXTextLoop (fuel : nat) (stopChars : list StopChar) : M unit :=
  match fuel with
  | O => fun _ => OutOfFuel
  | S fuel' => fun s =>
      if index s <? srcLength then
        let charCode := charCode s in
        if isWhiteSpace env charCode then
          ((if codeIs charCode 10 then updateLine else ret tt) ;;
           updateIndex 1 ;;
           scanJSXTextLoop fuel' stopChars) s
        else if existsb (fun stop => stopsAt stop s) stopChars then Ok tt s
        else (updateIndex 1 ;; scanJSXTextLoop fuel' stopChars) s
      else Ok tt s
  end.

Definition scanJSXText (fuel : nat) (stopChars : list StopChar) : M ASTNode :=
  fun s =>
    let start := index s in
    let loc := getLocation s in
    (scanJSXTextLoop fuel stopChars ;;
     let* s' := get in
     ret (ASTText (getValue start s') loc)) s.

Fixpoint parseJSXCommentLoop (fuel : nat) : M unit :=
  match fuel with
  | O => fun _ => OutOfFuel
  | S fuel' => fun s =>
      if index s <? srcLength then
        if isExpect "-->" s then Ok tt s
        else
          ((if codeIs (charCode s) 10 then updateLine else ret tt) ;;
           updateIndex 1 ;;
           parseJSXCommentLoop fuel') s
      else Ok tt s
  end.

Definition parseJSXComment (fuel : nat) : M ASTNode :=
  expect "!--" None None ;;
  let* s := get in
  let start := index s in
  let loc := getLocation s in
  parseJSXCommentLoop fuel ;;
  let* s' := get in
  let value := getValue start s' in
  expect "-->" None None ;;
  ret (ASTComment value loc).

(** [while (index < length) { if (!isJSXIdentifierPart(charCode())) break; updateIndex() }] *)
Fixpoint skipJSXIdentifier (fuel : nat) : M unit :=
  match fuel with
  | O => fun _ => OutOfFuel
  | S fuel' => fun s =>
      if index s <? srcLength then
        if negb (isJSXIdentifierPart env (charCode s)) then Ok tt s
        else (updateIndex 1 ;; skipJSXIdentifier fuel') s
      else Ok tt s
  end.

Definition parseJSXAttributeName (fuel : nat) : M string :=
  fun s =>
    ((if negb (String.eqb (NODE_ENV env) "production") then
        if negb (isJSXIdentifierPart env (charCode s))
        then error ("Unexpected identifier " +:+ char s) None
        else ret tt
      else ret tt) ;;
     let start := index s in
     skipJSXIdentifier fuel ;;
     let* s' := get in
     ret (getValue start s')) s.

Definition parseJSXClosingTag (fuel : nat) (endTag : string) (loc : SourceLocation)
  : M unit :=
  expect "</" (Some ("Unclosed tag: " +:+ endTag)) (Some loc) ;;
  skipJSXIdentifier fuel ;;
  skipWhitespace fuel ;;
  expect ">" None None.

(** The lookahead loop of [skipWhitespaceBetweenTags]: does it end on a place
    before which white space is insignificant? *)
Fixpoint lookaheadBetweenTags (fuel : nat) (endTag : string) (skipBeforeDelimiter : bool)
  (start : Z) : option bool :=
  match fuel with
  | O => None
  | S fuel' =>
      if start <? srcLength then
        if isWhiteSpace env (charCodeAt start)
        then lookaheadBetweenTags fuel' endTag skipBeforeDelimiter (start + 1)
        else Some (isExpectAt endTag start
                   || isTagStartAt start
                   || (skipBeforeDelimiter && isExpectAt (fst (delimiters env)) start))
      else Some false
  end.

Definition skipWhitespaceBetweenTags (fuel : nat) (endTag : string)
  (skipBeforeDelimiter : bool) : M unit :=
  fun s =>
    match lookaheadBetweenTags fuel endTag skipBeforeDelimiter (index s) with
    | None => OutOfFuel
    | Some true => skipWhitespace fuel s
    | Some false => Ok tt s
    end.

(** *** [trimRightForValue] *)

(** The inner [for] loop: the index of the last character of [code] that is
    not white space, [-1] when there is none. *)
Fixpoint lastNonWhiteSpace (n : nat) (code : string) : Z :=
  match n with
  | O => -1
  | S n' =>
      let j := Z.of_nat n' in
      if negb (isWhiteSpace env (jsCharCodeAt code j)) then j
      else lastNonWhiteSpace n' code
  end.

(** The outer loop, on the lines in reverse order ([value.pop()] drops the
    line under inspection, which is the last one). *)
Fixpoint trimRightReversed (rvalue : list string) : list string :=
  match rvalue with
  | [] => []
  | code :: rest =>
      let lastIndex := strLen code - 1 in
      let j := lastNonWhiteSpace (String.length code) code in
      if j =? -1 then trimRightReversed rest
      else if negb (j =? lastIndex) then jsSlice code 0 (j + 1) :: rest
      else code :: rest
  end.

Definition trimRightForValue (value : list string) : list string :=
  rev (trimRightReversed (rev value)).

(** *** Script fragments *)

(** The [do ... while] after the module string of an import. *)
Fixpoint scanJSImportTail (fuel : nat) : M unit :=
  match fuel with
  | O => fun _ => OutOfFuel
  | S fuel' => fun s =>
      let start := index s in
      (skipWhitespaceAndJSComment fuel' ;;
       let* s1 := get in
       (if String.eqb (char s1) ";" then updateIndex 1 ;; ret tt else ret tt) ;;
       let* s2 := get in
       if negb (start =? index s2) then scanJSImportTail fuel' else ret tt) s
  end.

Fixpoint scanJSImportLoop (fuel : nat) : M unit :=
  match fuel with
  | O => fun _ => OutOfFuel
  | S fuel' => fun s =>
      if index s <? srcLength then
        let ch := char s in
        if String.eqb ch "'" || String.eqb ch dquote then
          (scanString fuel' ;; scanJSImportTail fuel') s
        else (updateIndex 1 ;; scanJSImportLoop fuel') s
      else Ok tt s
  end.

Definition scanJSImport (fuel : nat) : M ASTNode :=
  fun s =>
    let start := index s in
    let loc := getLocation s in
    (updateIndex 7 ;;
     scanJSImportLoop fuel ;;
     let* s' := get in
     ret (ASTHoist (getValue start s') loc)) s.

(** The test of [scanJS] for a string, template or regular-expression
    literal at the cursor. *)
Definition startsLiteral (fuel : nat) : M bool :=
  fun s =>
    let ch := char s in
    if String.eqb ch "'" || String.eqb ch dquote || String.eqb ch "`" then Ok true s
    else if String.eqb ch "/" then
      let tmp := charAt (index s + 1) in
      if negb (String.eqb tmp "") && negb (String.eqb tmp "*") && negb (String.eqb tmp "/")
      then
        if index s =? 0 then Ok true s
        else
          let tmp := charAt (index s - 1) in
          if negb (String.eqb tmp "") && negb (String.eqb tmp "<") then
            (let* tmp := getLastCharCode fuel in
             ret (truthyCode tmp && negb (isJSIdentifierPart env tmp)
                  && negb (codeIs tmp 41))) s
          else Ok false s
      else Ok false s
    else Ok false s.

(** The local variables of [scanJS] that its loop assigns; [count] is
    [braces.count], shared with [parse]. *)
Record ScanJSState := mkScanJS {
  value : list string;
  start : Z;
  spacesRemain : Z;
  newLine : bool;
  leadSpaces : Z;
  shouldTrimRight : bool;
  count : Z;
}.

Fixpoint scanJSLoop (fuel : nat) (isRoot : bool) (spaces : Z) (v : ScanJSState)
  : M ScanJSState :=
  match fuel with
  | O => fun _ => OutOfFuel
  | S fuel' => fun s0 =>
      if index s0 <? srcLength then
        (skipJSComment fuel' ;;
         let* literal := startsLiteral fuel' in
         let* s := get in
         let ch := char s in
         if literal then scanString fuel' ;; scanJSLoop fuel' isRoot spaces v
         else if isTagStart s then ret v
         else if isRoot && isJSImport s then ret v
         else if String.eqb ch newline then
           updateLine ;;
           updateIndex 1 ;;
           scanJSLoop fuel' isRoot spaces
             (mkScanJS (value v ++ [getValue (start v) s]) (index s + 1) spaces true 0
                (shouldTrimRight v) (count v))
         else if newLine v && String.eqb ch " " then
           updateIndex 1 ;;
           scanJSLoop fuel' isRoot spaces
             (if negb (spacesRemain v =? 0)
              then mkScanJS (value v) (start v + 1) (spacesRemain v - 1) (newLine v)
                     (leadSpaces v) (shouldTrimRight v) (count v)
              else mkScanJS (value v) (start v) (spacesRemain v) (newLine v)
                     (leadSpaces v + 1) (shouldTrimRight v) (count v))
         else if String.eqb ch "{" then
           updateIndex 1 ;;
           scanJSLoop fuel' isRoot spaces
             (mkScanJS (value v) (start v) (spacesRemain v) false (leadSpaces v)
                (shouldTrimRight v) (count v + 1))
         else if (0 <? count v) && String.eqb ch "}" then
           updateIndex 1 ;;
           scanJSLoop fuel' isRoot spaces
             (mkScanJS (value v) (start v) (spacesRemain v) false (leadSpaces v)
                (shouldTrimRight v) (count v - 1))
         else if isExpect (snd (delimiters env)) s then
           ret (mkScanJS (value v) (start v) (spacesRemain v) (newLine v) (leadSpaces v)
                  true (count v - 1))
         else
           updateIndex 1 ;;
           scanJSLoop fuel' isRoot spaces
             (mkScanJS (value v) (start v) (spacesRemain v) false (leadSpaces v)
                (shouldTrimRight v) (count v))) s0
      else Ok v s0
  end.

(** [scanJS(braces, isRoot, spaces)] returns the node and the new
    [braces.count]. *)
Definition scanJS (fuel : nat) (braces : Z) (isRoot : bool) (spaces : Z)
  : M (ASTNode * Z) :=
  fun s =>
    let loc := getLocation s in
    (let* v := scanJSLoop fuel isRoot spaces
                 (mkScanJS [] (index s) spaces true 0 false braces) in
     let* s' := get in
     let lines := value v ++ [getValue (start v) s'] in
     let lines := if shouldTrimRight v then trimRightForValue lines else lines in
     ret (ASTJS lines (leadSpaces v) loc, count v)) s.

End Scanner.

(** ** Conditional directives of a child list *)

(** [directiveIf], the alias that [parseJSXChildrenValue] keeps of the last
    directive node of the open chain.  That node is owned by [children]: it
    belongs to the element at position [head] of [children], or to the
    element reached from it by following [next] [depth] times.  The alias is
    this position, and an assignment through the alias rewrites the node
    where it is, inside [children]. *)
Record DirRef := mkDirRef { head : nat; depth : nat }.

Section Directives.

Variable env : Env.

(** The directive of an element through which a chain passes: the node that
    [parseJSXChildrenValue] stores in [directiveIf] for it, in the order of
    its tests ([if], then [else-if], then [else]). *)
Definition chainKey (d : list (string * ASTNode)) : option string :=
  match lookupDirective (Directives_If env) d with
  | Some _ => Some (Directives_If env)
  | None =>
      match lookupDirective (Directives_ElseIf env) d with
      | Some _ => Some (Directives_ElseIf env)
      | None =>
          match lookupDirective (Directives_Else env) d with
          | Some _ => Some (Directives_Else env)
          | None => None
          end
      end
  end.

Definition nodeNext (n : ASTNode) : option ASTNode :=
  match n with
  | ASTDirectiveIf _ _ next _ => next
  | _ => None
  end.

Definition nodeName (n : ASTNode) : string :=
  match n with
  | ASTDirectiveIf name _ _ _ | ASTAttribute name _ _ => name
  | _ => ""
  end.

(** [node.next = next]. *)
Definition withNext (next : option ASTNode) (n : ASTNode) : ASTNode :=
  match n with
  | ASTDirectiveIf name value _ loc => ASTDirectiveIf name value next loc
  | _ => n
  end.

Fixpoint alterDirective (key : string) (f : ASTNode -> ASTNode)
  (d : list (string * ASTNode)) : list (string * ASTNode) :=
  match d with
  | [] => []
  | (k, v) :: d' =>
      if String.eqb k key then (k, f v) :: d' else (k, v) :: alterDirective key f d'
  end.

(** The element [elem] with [f] applied to the [next] field of its chain
    directive. *)
Definition alterChainNext (f : option ASTNode -> option ASTNode) (elem : ASTNode)
  : ASTNode :=
  match elem with
  | ASTElement t v a d c k l =>
      match chainKey d with
      | Some key => ASTElement t v a (alterDirective key (fun n => withNext (f (nodeNext n)) n) d) c k l
      | None => elem
      end
  | _ => elem
  end.

(** The [next] field of the chain directive of [elem]. *)
Definition chainNext (elem : ASTNode) : option ASTNode :=
  match chainKey (nodeDirectives elem) with
  | Some key =>
      match lookupDirective key (nodeDirectives elem) with
      | Some n => nodeNext n
      | None => None
      end
  | None => None
  end.

(** [directiveIf.next = child] for the alias [depth] links below [elem]. *)
Fixpoint setNextAt (depth : nat) (child : ASTNode) (elem : ASTNode) : ASTNode :=
  match depth with
  | O => alterChainNext (fun _ => Some child) elem
  | S depth' => alterChainNext (option_map (setNextAt depth' child)) elem
  end.

Fixpoint alterAt {A} (i : nat) (f : A -> A) (l : list A) : list A :=
  match l, i with
  | [], _ => []
  | x :: l', O => f x :: l'
  | x :: l', S i' => x :: alterAt i' f l'
  end.

(** [directiveIf.next = child], on the owner of the node. *)
Definition setNext (r : DirRef) (child : ASTNode) (children : list ASTNode)
  : list ASTNode :=
  alterAt (head r) (setNextAt (depth r) child) children.

(** The body of the loop of [parseJSXChildrenValue] after [parseJSXChild]:
    the new [children] and [directiveIf], or the exception thrown.  In a
    production build the check is compiled out and the assignment through a
    null [directiveIf] raises a [TypeError]. *)
Definition linkChild (child : ASTNode) (children : list ASTNode)
  (directiveIf : option DirRef) : Exn + (list ASTNode * option DirRef) :=
  if isElementNode child then
    let directives := nodeDirectives child in
    match lookupDirective (Directives_If env) directives with
    | Some tmp =>
        inr (children ++ [child], Some (mkDirRef (length children) 0))
    | None =>
        let chained :=
          match lookupDirective (Directives_ElseIf env) directives with
          | Some tmp => Some (tmp, false)
          | None =>
              match lookupDirective (Directives_Else env) directives with
              | Some tmp => Some (tmp, true)
              | None => None
              end
          end in
        match chained with
        | Some (tmp, isElse) =>
            match directiveIf with
            | None =>
                if negb (String.eqb (NODE_ENV env) "production") then
                  inl (ParseError
                         ("'" +:+ nodeName tmp +:+ "' must be lead with 'v-if' or 'v-else-if'")
                         (nodeLoc child))
                else inl (TypeError "Cannot set properties of null (setting 'next')")
            | Some r =>
                inr (setNext r child children,
                     if isElse then None else Some (mkDirRef (head r) (S (depth r))))
            end
        | None => inr (children ++ [child], directiveIf)
        end
    end
  else inr (children ++ [child], directiveIf).

End Directives.

(** ** The recursive descent *)

(** What [parseJSXAttribute] returns. *)
Record Attrs := mkAttrs {
  attributes : list ASTNode;
  directives : list (string * ASTNode);
  keyed : bool;
  hasVRaw : bool;
}.

Definition exprValue (n : ASTNode) : list ASTNode :=
  match n with
  | ASTExpression _ v _ => v
  | _ => []
  end.

Section Descent.

Variable env : Env.
Variable source : string.

(** The two entry points of the recursion, at the fuel below. *)
Variable parse_rec : bool -> Z -> M (list ASTNode).
Variable scanJSX_rec : M ASTNode.

Local Abbreviation isExpect := (isExpect source).
Local Abbreviation char := (char source).
Local Abbreviation charCode := (charCode source).
Local Abbreviation expect := (expect source).

(** The statements of [parseJSXExpression] from the opening delimiter up to
    the closing [expect]: they read the expression's [type] and [value]. *)
Definition expressionBody (fuel : nat) : M (ASTTypes * list ASTNode) :=
  expect (fst (delimiters env)) None None ;;
  skipWhitespaceAndJSComment env source fuel ;;
  let* spaceColumn := getFirstSpaceColumn source fuel in
  let* s1 := get in
  let* type :=
    (if isExpect "=" s1 then
       expect "=" None None ;;
       skipWhitespace env source fuel ;;
       ret JSXUnescapeText
     else ret JSXExpression) in
  let* s2 := get in
  let* value :=
    (if isExpect (snd (delimiters env)) s2 then ret []
     else parse_rec false spaceColumn) in
  ret (type, value).

Definition parseJSXExpression (fuel : nat) : M ASTNode :=
  fun s =>
    let loc := getLocation s in
    (let* (type, value) := expressionBody fuel in
     expect (snd (delimiters env)) (Some "Unclosed delimiter") (Some loc) ;;
     ret (ASTExpression type value loc)) s.

Definition parseJSXAttributeValue (fuel : nat) : M ASTNode :=
  fun s =>
    if isExpect (fst (delimiters env)) s then parseJSXExpression fuel s
    else
      let quote := char s in
      ((if negb (String.eqb quote "'") && negb (String.eqb quote dquote)
           && negb (String.eqb quote "`")
        then error "String value of attribute must start with a quote." None
        else ret tt) ;;
       scanString source fuel) s.

(** One named attribute, from its name on: the rest of the loop body of
    [parseJSXAttribute]. *)
Definition parseNamedAttribute (fuel : nat) (tag : string) (type : ASTTypes) (a : Attrs)
  : M Attrs :=
  fun s =>
    let loc := getLocation s in
    (let* name := parseJSXAttributeName env source fuel in
     let keyed' := if negb (keyed a) && String.eqb name "key" then true else keyed a in
     let* s1 := get in
     let* value :=
       (if String.eqb (char s1) "=" then updateIndex 1 ;; parseJSXAttributeValue fuel
        else let* s2 := get in ret (ASTNone (getLocation s2))) in
     (if negb (String.eqb (NODE_ENV env) "produdction") then
        (if directivesMap env name then
           validate (validateDirectiveValue env name (nodeType value) tag type source
                       (nodeLoc value))
         else ret tt) ;;
        (if ASTTypes_eqb type JSXBlock then
           validate (validateAttributeForBlock env tag name value (nodeLoc value) source)
         else ret tt)
      else ret tt) ;;
     if String.eqb name (Directives_If env) || String.eqb name (Directives_ElseIf env)
        || String.eqb name (Directives_Else env)
     then
       ret (mkAttrs (attributes a)
              (assignDirective name (ASTDirectiveIf name value None loc) (directives a))
              keyed' (hasVRaw a))
     else
       let attr := ASTAttribute name value loc in
       if directivesMap env name then
         ret (mkAttrs (attributes a) (assignDirective name attr (directives a)) keyed'
                (if String.eqb name (Directives_Raw env) then true else hasVRaw a))
       else
         ret (mkAttrs (attributes a ++ [attr]) (directives a) keyed' (hasVRaw a))) s.

Fixpoint parseJSXAttributeLoop (fuel : nat) (tag : string) (type : ASTTypes) (a : Attrs)
  : M Attrs :=
  match fuel with
  | O => fun _ => OutOfFuel
  | S fuel' => fun s0 =>
      if index s0 <? srcLength source then
        (skipWhitespace env source fuel' ;;
         let* s := get in
         if String.eqb (char s) "/" || String.eqb (char s) ">" then ret a
         else if isExpect (fst (delimiters env)) s then
           let* expression := parseJSXExpression fuel' in
           parseJSXAttributeLoop fuel' tag type
             (if negb (Z.of_nat (length (exprValue expression)) =? 0)
              then mkAttrs (attributes a ++ [expression]) (directives a) (keyed a) (hasVRaw a)
              else a)
         else
           let* a' := parseNamedAttribute fuel' tag type a in
           parseJSXAttributeLoop fuel' tag type a') s0
      else Ok a s0
  end.

Definition parseJSXAttribute (fuel : nat) (tag : string) (type : ASTTypes) : M Attrs :=
  parseJSXAttributeLoop fuel tag type (mkAttrs [] [] false false).

Definition parseJSXChild (fuel : nat) (endTag : string) (isTextTag : bool) : M ASTNode :=
  fun s =>
    if isExpect (fst (delimiters env)) s then
      (let* child := parseJSXExpression fuel in
       skipWhitespaceBetweenTags env source fuel endTag false ;;
       ret child) s
    else if isTextTag then
      scanJSXText env source fuel [StopString endTag; StopString (fst (delimiters env))] s
    else if isTagStart source s then
      (let* child := scanJSX_rec in
       skipWhitespaceBetweenTags env source fuel endTag true ;;
       ret child) s
    else
      scanJSXText env source fuel
        [StopFunction (fun s' => isExpect endTag s' || isTagStart source s');
         StopString (fst (delimiters env))] s.

(** The loop of [parseJSXChildrenValue] for [v-raw] content. *)
Fixpoint rawChildrenLoop (fuel : nat) (endTag : string) (children : list ASTNode)
  : M (list ASTNode) :=
  match fuel with
  | O => fun _ => OutOfFuel
  | S fuel' => fun s =>
      if index s <? srcLength source then
        if isExpect endTag s then Ok children s
        else
          (let* text := scanJSXText env source fuel' [StopString endTag] in
           rawChildrenLoop fuel' endTag (children ++ [text])) s
      else Ok children s
  end.

(** The loop of [parseJSXChildrenValue] over the children, for any parser
    [parseChild] of one child. *)
Fixpoint childrenLoop (parseChild : M ASTNode) (fuel : nat) (endTag : string)
  (children : list ASTNode) (directiveIf : option DirRef) : M (list ASTNode) :=
  match fuel with
  | O => fun _ => OutOfFuel
  | S fuel' => fun s =>
      if index s <? srcLength source then
        if isExpect endTag s then Ok children s
        else
          match parseChild s with
          | Ok child s1 =>
              match linkChild env child children directiveIf with
              | inl e => Throw e
              | inr (children', directiveIf') =>
                  childrenLoop parseChild fuel' endTag children' directiveIf' s1
              end
          | Throw e => Throw e
          | OutOfFuel => OutOfFuel
          end
      else Ok children s
  end.

Definition endTagOf (tag : string) (type : ASTTypes) : string :=
  match type with
  | JSXBlock => "</b:" +:+ tag +:+ ">"
  | JSXVdt => "</t:" +:+ tag +:+ ">"
  | _ => "</" +:+ tag +:+ ">"
  end.

Definition parseJSXChildrenValue (fuel : nat) (tag : string) (type : ASTTypes)
  (hasVRaw isTextTag : bool) (loc : SourceLocation) : M (list ASTNode) :=
  let endTag := endTagOf tag type in
  let* children :=
    (if hasVRaw then rawChildrenLoop fuel endTag []
     else
       skipWhitespaceBetweenTags env source fuel endTag true ;;
       childrenLoop (parseJSXChild fuel endTag isTextTag) fuel endTag [] None) in
  parseJSXClosingTag env source fuel endTag loc ;;
  ret children.

(** [parseJSXChildren] returns the children; the [attributes] array that it
    may push onto is returned with them. *)
Definition parseJSXChildren (fuel : nat) (tag : string) (type : ASTTypes)
  (attributes : list ASTNode) (hasVRaw : bool) (loc : SourceLocation)
  : M (list ASTNode * list ASTNode) :=
  fun s =>
    if ASTTypes_eqb type JSXCommonElement && selfClosingTags env tag then
      ((if String.eqb (char s) "/" then updateIndex 1 ;; ret tt else ret tt) ;;
       expect ">" None None ;;
       ret ([], attributes)) s
    else if String.eqb (char s) "/" then
      (updateIndex 1 ;;
       expect ">" None None ;;
       ret ([], attributes)) s
    else
      (expect ">" None None ;;
       if textTags env tag then
         let* s1 := get in
         let attrLoc := getLocation s1 in
         let* children := parseJSXChildrenValue fuel tag type hasVRaw true loc in
         ret ([],
              if negb (Z.of_nat (length children) =? 0) then
                attributes ++
                  [ASTAttribute (if String.eqb tag "textarea" then "value" else "innerHTML")
                     (ASTStrings children attrLoc) loc]
              else attributes)
       else
         let* children := parseJSXChildrenValue fuel tag type hasVRaw false loc in
         ret (children, attributes)) s.

Definition fromCharCode (c : option Z) : string :=
  match c with
  | Some n => String (ascii_of_nat (Z.to_nat n)) ""
  | None => String (ascii_of_nat 0) ""
  end.

Definition parseJSXElement (fuel : nat) : M ASTNode :=
  fun s =>
    let flag := charCode s in
    let loc := getLocation s in
    let start := index s in
    ((let* (type, start) :=
        (if match flag with Some f => (65 <=? f) && (f <=? 90) | None => false end then
           ret (JSXComponent, start)
         else if codeIs (charCodeAt source (index s + 1)) 58 then
           let* type :=
             (if codeIs flag 116 then ret JSXVdt
              else if codeIs flag 98 then ret JSXBlock
              else error ("Unknown directive " +:+ fromCharCode flag +:+ ":") None) in
           updateIndex 2 ;;
           ret (type, start + 2)
         else ret (JSXCommonElement, start)) in
      skipJSXIdentifier env source fuel ;;
      let* s1 := get in
      let value := getValue source start s1 in
      let* a := parseJSXAttribute fuel value type in
      let* (children, attributes) :=
        parseJSXChildren fuel value type (attributes a) (hasVRaw a) loc in
      (if negb (String.eqb (NODE_ENV env) "production")
       then validate (validateModel env value type attributes source)
       else ret tt) ;;
      ret (ASTElement type value attributes (directives a) children (keyed a) loc))) s.

Definition scanJSXBody (fuel : nat) : M ASTNode :=
  expect "<" None None ;;
  let* s := get in
  if isExpect "!--" s then parseJSXComment source fuel
  else parseJSXElement fuel.

(** [advance(braces, isRoot, spaces)] returns the node and the new
    [braces.count]. *)
Definition advance (fuel : nat) (braces : Z) (isRoot : bool) (spaces : Z)
  : M (ASTNode * Z) :=
  fun s =>
    let ch := char s in
    if isRoot && isJSImport source s then
      (let* n := scanJSImport env source fuel in ret (n, braces)) s
    else if negb (String.eqb ch "<") then scanJS env source fuel braces isRoot spaces s
    else (let* n := scanJSXBody fuel in ret (n, braces)) s.

Fixpoint parseLoop (fuel : nat) (isRoot : bool) (spaces : Z) (nodes : list ASTNode)
  (braces : Z) : M (list ASTNode) :=
  match fuel with
  | O => fun _ => OutOfFuel
  | S fuel' => fun s =>
      if (index s <? srcLength source) && (0 <=? braces) then
        (let* (node, braces') := advance fuel' braces isRoot spaces in
         parseLoop fuel' isRoot spaces (nodes ++ [node]) braces') s
      else Ok nodes s
  end.

Definition parseBody (fuel : nat) (isRoot : bool) (spaces : Z) : M (list ASTNode) :=
  parseLoop fuel isRoot spaces [] 0.

End Descent.

(** ** Tying the recursion *)

Section Knot.

Variable env : Env.
Variable source : string.

Fixpoint parse (fuel : nat) (isRoot : bool) (spaces : Z) : M (list ASTNode) :=
  match fuel with
  | O => fun _ => OutOfFuel
  | S fuel' => parseBody env source (parse fuel') (scanJSX fuel') fuel' isRoot spaces
  end
with scanJSX (fuel : nat) : M ASTNode :=
  match fuel with
  | O => fun _ => OutOfFuel
  | S fuel' => scanJSXBody env source (parse fuel') (scanJSX fuel') fuel'
  end.

End Knot.

(** [new Parser(source, options).ast]: the options are part of [env]. *)
Definition Parser (env : Env) (source : string) (fuel : nat) : Outcome (list ASTNode) :=
  parse env (trimRight env source) fuel true 0 (mkCursor 0 1 1).

(** ** A concrete environment *)

(** Modelled from the spec: the tables and character classes of
    [utils/helpers] and the validators of [utils/validate] are not part of
    the sources.  The environment below is the one used to run the parser on
    concrete inputs: the delimiters [{] and [}], the directive names of the
    spec's scenarios ([v-if], [v-else-if], [v-else], [v-raw]), the usual
    white-space and identifier classes, the void and verbatim-content tags,
    and validators that accept everything. *)
Module Sample.

Definition inRange (lo hi : Z) (c : option Z) : bool :=
  match c with
  | Some n => (lo <=? n) && (n <=? hi)
  | None => false
  end.

Definition isWhiteSpace (c : option Z) : bool :=
  inRange 9 13 c || codeIs c 32 || codeIs c 160.

Definition isWhiteSpaceExceptLinebreak (c : option Z) : bool :=
  negb (codeIs c 10) && negb (codeIs c 13) && isWhiteSpace c.

Definition isJSIdentifierPart (c : option Z) : bool :=
  codeIs c 95 || codeIs c 36 || inRange 65 90 c || inRange 97 122 c || inRange 48 57 c.

Definition isJSXIdentifierPart (c : option Z) : bool :=
  codeIs c 58 || codeIs c 45 || codeIs c 46 || isJSIdentifierPart c.

Definition member (l : list string) (x : string) : bool :=
  existsb (String.eqb x) l.

Definition selfClosingTags : string -> bool :=
  member ["area"; "base"; "br"; "col"; "embed"; "hr"; "img"; "input"; "link";
          "meta"; "param"; "source"; "track"; "wbr"].

Definition textTags : string -> bool := member ["style"; "script"; "textarea"].

Definition directivesMap : string -> bool :=
  member ["v-if"; "v-else-if"; "v-else"; "v-for"; "v-for-value"; "v-for-key";
          "v-model"; "v-raw"].

Fixpoint trimRightReversed (rev_chars : list ascii) : list ascii :=
  match rev_chars with
  | c :: rest =>
      if isWhiteSpace (Some (asciiCode c)) then trimRightReversed rest else rev_chars
  | [] => []
  end.

Definition trimRight (str : string) : string :=
  string_of_list_ascii (rev (trimRightReversed (rev (list_ascii_of_string str)))).

Definition env (mode : string) : Env :=
  {| delimiters := ("{", "}");
     NODE_ENV := mode;
     Parser.trimRight := trimRight;
     Parser.isWhiteSpace := isWhiteSpace;
     Parser.isWhiteSpaceExceptLinebreak := isWhiteSpaceExceptLinebreak;
     Parser.isJSIdentifierPart := isJSIdentifierPart;
     Parser.isJSXIdentifierPart := isJSXIdentifierPart;
     Parser.selfClosingTags := selfClosingTags;
     Parser.textTags := textTags;
     Parser.directivesMap := directivesMap;
     Directives_If := "v-if";
     Directives_ElseIf := "v-else-if";
     Directives_Else := "v-else";
     Directives_Raw := "v-raw";
     validateDirectiveValue := fun _ _ _ _ _ _ => None;
     validateModel := fun _ _ _ _ => None;
     validateAttributeForBlock := fun _ _ _ _ _ => None |}.

Definition development : Env := env "development".
Definition production : Env := env "production".

End Sample.

End Parser.

(* ================================================================== *)
(** * The runtime ([packages/misstime/src])                            *)
(* ================================================================== *)

Module Misstime.

(** ** [utils/types.ts] *)

Module Types.
Definition Text : Z := 1.
Definition CommonElement : Z := Z.shiftl 1 1.
Definition ComponentClass : Z := Z.shiftl 1 2.
Definition ComponentFunction : Z := Z.shiftl 1 3.
Definition HtmlComment : Z := Z.shiftl 1 4.
Definition InputElement : Z := Z.shiftl 1 5.
Definition SelectElement : Z := Z.shiftl 1 6.
Definition TextareaElement : Z := Z.shiftl 1 7.
Definition SvgElement : Z := Z.shiftl 1 8.
Definition UnescapeText : Z := Z.shiftl 1 9.
Definition Void : Z := Z.shiftl 1 10.
Definition Fragment : Z := Z.shiftl 1 11.
Definition InUse : Z := Z.shiftl 1 12.
Definition Normalized : Z := Z.shiftl 1 13.
Definition PrefixedKey : Z := Z.shiftl 1 14.
Definition Component : Z := Z.lor ComponentClass ComponentFunction.
Definition FormElement : Z := Z.lor (Z.lor InputElement SelectElement) TextareaElement.
Definition TextElement : Z := Z.lor (Z.lor Text HtmlComment) Void.
Definition Element : Z := Z.lor (Z.lor CommonElement FormElement) SvgElement.
Definition HtmlElement : Z := Z.lor Element TextElement.
End Types.

Module ChildrenTypes.
Definition UnknownChildren : Z := 0.
Definition HasInvalidChildren : Z := 1.
Definition HasVNodeChildren : Z := Z.shiftl 1 1.
Definition HasNonKeyedChildren : Z := Z.shiftl 1 2.
Definition HasKeyedChildren : Z := Z.shiftl 1 3.
Definition HasTextChildren : Z := Z.shiftl 1 4.
Definition MultipleChildren : Z := Z.lor HasNonKeyedChildren HasKeyedChildren.
End ChildrenTypes.

(** A number used as a condition. *)
Definition truthy (n : Z) : bool := negb (n =? 0).

(** ** Values, DOM nodes, virtual nodes and component instances *)

(** A property value, as far as the runtime modelled here looks at it. *)
Inductive Value :=
| VUndefined
| VNull
| VBool (b : bool)
| VNumber (n : Z)
| VString (s : string)
| VFunction (id : nat).

(** A DOM node, by identity. *)
Definition Dom := nat.

(** [Ref<T>]: a callback or a ref object, by identity. *)
Inductive Ref :=
| RefCallback (id : nat)
| RefObject (id : nat).

(** What [init] returns, for a component class that defines it. *)
Inductive InitReturn :=
| InitPlain
| InitThenable (promise : nat).

(** The optional lifecycle methods of a component class: which of them the
    class defines.  Their bodies are the user's; a call is recorded in the
    trace. *)
Record Hooks := mkHooks {
  init : option InitReturn;
  has_mounted : bool;
  has_beforeUnmount : bool;
  has_unmounted : bool;
}.

(** [VNode] with the fields that [unmount.ts] reads; [children] is
    [NormalizedChildren | ComponentClass].  A [Component] is an instance of a
    component class with the fields that [component.ts] assigns. *)
Inductive VNode :=
| mkVNode (dom : option Dom) (type : Z) (childrenType : Z)
    (props : option (list (string * Value))) (children : Children)
    (ref : option Ref)
with Children :=
| ChNull
| ChString (s : string)
| ChNumber (n : Z)
| ChVNode (v : VNode)
| ChArray (l : list VNode)
| ChComponent (c : Component)
with Component :=
| mkComponent (cid : nat) (props : gmap string Value) (_lastInput : option VNode)
    (_inited _rendered _mounted _unmounted : bool) (hooks : Hooks).

Definition dom (v : VNode) : option Dom := let 'mkVNode d _ _ _ _ _ := v in d.
Definition type (v : VNode) : Z := let 'mkVNode _ t _ _ _ _ := v in t.
Definition childrenType (v : VNode) : Z := let 'mkVNode _ _ t _ _ _ := v in t.
Definition vprops (v : VNode) : option (list (string * Value)) :=
  let 'mkVNode _ _ _ p _ _ := v in p.
Definition children (v : VNode) : Children := let 'mkVNode _ _ _ _ c _ := v in c.
Definition ref (v : VNode) : option Ref := let 'mkVNode _ _ _ _ _ r := v in r.

Definition cid (c : Component) : nat := let 'mkComponent i _ _ _ _ _ _ _ := c in i.
Definition props (c : Component) : gmap string Value :=
  let 'mkComponent _ p _ _ _ _ _ _ := c in p.
Definition _lastInput (c : Component) : option VNode :=
  let 'mkComponent _ _ l _ _ _ _ _ := c in l.
Definition _inited (c : Component) : bool := let 'mkComponent _ _ _ b _ _ _ _ := c in b.
Definition _rendered (c : Component) : bool := let 'mkComponent _ _ _ _ b _ _ _ := c in b.
Definition _mounted (c : Component) : bool := let 'mkComponent _ _ _ _ _ b _ _ := c in b.
Definition _unmounted (c : Component) : bool := let 'mkComponent _ _ _ _ _ _ b _ := c in b.
Definition hooks (c : Component) : Hooks := let 'mkComponent _ _ _ _ _ _ _ h := c in h.

Definition with_props (p : gmap string Value) (c : Component) : Component :=
  let 'mkComponent i _ l a b m u h := c in mkComponent i p l a b m u h.

(** ** Effects *)

(** The calls that leave the modelled files, in the order they are made:
    calls of functions whose source is not part of the development, of the
    user's lifecycle methods, and writes to the DOM. *)
Inductive Event :=
| CallUnmountRef (r : option Ref)
| CallUnmountDelegatedEvent (prop : string) (d : option Dom)
| CallRemoveVNodeDom (vNode : VNode) (parentDom : Dom)
| SetTextContent (d : Dom) (text : string)
| CallHook (c : nat) (name : string)
| CallOff (c : nat)
| CallSetProps (c : nat) (data : list (string * Value))
| CallForceUpdate (c : nat) (callback : option nat)
| CallCallback (callback : nat)
| CallMountProps (c : nat) (data : list (string * Value))
| CallComponentInited (c : nat) (triggerReceiveEvents : option nat)
| CallThen (promise : nat)
| ConsoleError (msg : string) (err : Value).

Inductive Exn :=
| TypeError (msg : string).

(** A computation of the runtime: the calls it made, and the value it
    returned or the exception it threw. *)
Record Res (A : Type) := mkRes { trace : list Event; outcome : Exn + A }.
Arguments mkRes {A} trace outcome.
Arguments trace {A} r.
Arguments outcome {A} r.

Definition ret {A} (a : A) : Res A := mkRes [] (inr a).
Definition throw {A} (e : Exn) : Res A := mkRes [] (inl e).
Definition emit (e : Event) : Res unit := mkRes [e] (inr tt).

Definition bind {A B} (m : Res A) (k : A -> Res B) : Res B :=
  match outcome m with
  | inl e => mkRes (trace m) (inl e)
  | inr a => mkRes (trace m ++ trace (k a)) (outcome (k a))
  end.

Local Notation "'let*' x ':=' m 'in' k" := (bind m (fun x => k))
  (at level 10, x pattern, m at level 100, k at level 200).
Local Notation "m1 ';;' m2" := (bind m1 (fun _ => m2))
  (at level 100, m2 at level 200, right associativity).

(** ** What the modelled files import *)

(** A callback passed by the caller, by identity. *)
Definition Callback := nat.

(** The imports of [unmount.ts] and [component.ts] whose source is not part
    of the development, and the build mode: [delegatedEvents] of
    [events/delegation]; [set] of [utils/helpers]; [setProps], [forceUpdate],
    [mountProps] and [componentInited] of [utils/component].  [mountProps]
    returns the function [triggerReceiveEvents], by identity. *)
Record Collab := mkCollab {
  NODE_ENV : string;
  delegatedEvents : string -> bool;
  helpers_set : gmap string Value -> string -> Value -> gmap string Value;
  setProps : Component -> list (string * Value) -> Res Component;
  utils_forceUpdate : Component -> option Callback -> Res Component;
  mountProps : Component -> list (string * Value) -> Res (Component * option nat);
  componentInited : Component -> option nat -> Res Component;
}.

(** ** [core/unmount.ts] *)

Section Unmount.

Variable collab : Collab.

(** The [for ... in] loop over [props]. *)
Fixpoint unmountDelegatedEvents (props : list (string * Value)) (d : option Dom)
  : Res unit :=
  match props with
  | [] => ret tt
  | (prop, _) :: rest =>
      (if delegatedEvents collab prop then emit (CallUnmountDelegatedEvent prop d)
       else ret tt) ;;
      unmountDelegatedEvents rest d
  end.

(** [children] used as a condition. *)
Definition truthyChildren (c : Children) : bool :=
  match c with
  | ChNull => false
  | ChString s => negb (String.eqb s "")
  | ChNumber n => negb (n =? 0)
  | ChVNode _ | ChArray _ | ChComponent _ => true
  end.

(** [unmount(vNode)] and the method [$unmount] of a component instance.  The
    instance is mutated in place by [$unmount]; here the virtual node is
    returned with the instance as it is afterwards.  A [children] value that
    does not have the shape announced by the flags is treated as the
    JavaScript code treats it: reading [length] or [type] of [null] throws,
    any other value has no such field and nothing happens. *)
Fixpoint unmount (vNode : VNode) : Res VNode :=
  match vNode with
  | mkVNode dom type childrenType props children ref =>
      if truthy (Z.land type Types.Element) then
        emit (CallUnmountRef ref) ;;
        (match props with
         | Some props => unmountDelegatedEvents props dom
         | None => ret tt
         end) ;;
        if truthy (Z.land childrenType ChildrenTypes.MultipleChildren) then
          match children with
          | ChArray l =>
              let* l' :=
                ((fix unmountAll (l : list VNode) : Res (list VNode) :=
                    match l with
                    | [] => ret []
                    | v :: rest =>
                        let* v' := unmount v in
                        let* rest' := unmountAll rest in
                        ret (v' :: rest')
                    end) l) in
              ret (mkVNode dom type childrenType props (ChArray l') ref)
          | ChNull => throw (TypeError "Cannot read properties of null (reading 'length')")
          | _ => ret vNode
          end
        else if childrenType =? ChildrenTypes.HasVNodeChildren then
          match children with
          | ChVNode v =>
              let* v' := unmount v in
              ret (mkVNode dom type childrenType props (ChVNode v') ref)
          | ChNull => throw (TypeError "Cannot read properties of null (reading 'type')")
          | _ => ret vNode
          end
        else ret vNode
      else if truthyChildren children then
        if truthy (Z.land type Types.ComponentClass) then
          match children with
          | ChComponent c =>
              let* c' := _unmount c in
              emit (CallUnmountRef ref) ;;
              ret (mkVNode dom type childrenType props (ChComponent c') ref)
          | _ => throw (TypeError "children.$unmount is not a function")
          end
        else ret vNode
      else ret vNode
  end
with _unmount (this : Component) : Res Component :=
  match this with
  | mkComponent cid props lastInput inited rendered mounted unmounted hooks =>
      (if has_beforeUnmount hooks then emit (CallHook cid "beforeUnmount") else ret tt) ;;
      let* lastInput' :=
        (match lastInput with
         | Some v => unmount v
         | None => throw (TypeError "Cannot read properties of null (reading 'type')")
         end) in
      emit (CallOff cid) ;;
      (if has_unmounted hooks then emit (CallHook cid "unmounted") else ret tt) ;;
      ret (mkComponent cid props (Some lastInput') inited rendered mounted true hooks)
  end.

Fixpoint unmountAllChildren (children : list VNode) : Res (list VNode) :=
  match children with
  | [] => ret []
  | v :: rest =>
      let* v' := unmount v in
      let* rest' := unmountAllChildren rest in
      ret (v' :: rest')
  end.

(** [remove(vNode, parentDom)]. *)
Definition remove (vNode : VNode) (parentDom : Dom) : Res VNode :=
  let* vNode' := unmount vNode in
  emit (CallRemoveVNodeDom vNode' parentDom) ;;
  ret vNode'.

Definition clearDom (d : Dom) : Res unit := emit (SetTextContent d "").

(** [removeAllChildren(children, dom, vNode)]. *)
Definition removeAllChildren (children : list VNode) (d : Dom) (vNode : VNode)
  : Res (list VNode) :=
  let* children' := unmountAllChildren children in
  (if truthy (Z.land (type vNode) Types.Fragment)
   then emit (CallRemoveVNodeDom vNode d)
   else clearDom d) ;;
  ret children'.

End Unmount.

(** ** [components/component.ts] *)

(** The optional argument [options] of [set]. *)
Record SetOptions := mkSetOptions { silent : bool }.

(** The two call shapes of [set]: a key with a value, or an object of
    key/value pairs (in the order of its keys). *)
Inductive SetArgs :=
| SetKey (key : string) (value : Value) (options : option SetOptions)
| SetData (data : list (string * Value)) (options : option SetOptions).

(** The handlers that the constructor passes to [then]. *)
Record Pending := mkPending {
  promise : nat;
  onFulfilled : Component -> Res Component;
  onRejected : Value -> Component -> Res Component;
}.

Section ComponentClass.

Variable collab : Collab.

(** [constructor(props, mountedQueue)], from a fresh instance whose [props]
    hold the defaults.  When [init] returns a thenable the constructor
    returns after registering the two handlers; they run when the promise
    settles, on the instance as it is then. *)
Definition constructor (this : Component) (props : option (list (string * Value)))
  : Res (Component * option Pending) :=
  let* (this, triggerReceiveEvents) :=
    (match props with
     | Some props => mountProps collab this props
     | None => ret (this, None)
     end) in
  match init (hooks this) with
  | Some r =>
      emit (CallHook (cid this) "init") ;;
      match r with
      | InitThenable p =>
          emit (CallThen p) ;;
          ret (this,
               Some (mkPending p
                       (fun this => componentInited collab this triggerReceiveEvents)
                       (fun err this =>
                          (if negb (String.eqb (NODE_ENV collab) "production")
                           then emit (ConsoleError "Unhandled promise rejection in init: " err)
                           else ret tt) ;;
                          componentInited collab this triggerReceiveEvents)))
      | InitPlain =>
          let* this := componentInited collab this triggerReceiveEvents in
          ret (this, None)
      end
  | None =>
      let* this := componentInited collab this triggerReceiveEvents in
      ret (this, None)
  end.

(** The key/value pairs that a call of [set] writes, and its options. *)
Definition setData (args : SetArgs) : list (string * Value) :=
  match args with
  | SetKey key value _ => [(key, value)]
  | SetData data _ => data
  end.

Definition setOptions (args : SetArgs) : option SetOptions :=
  match args with
  | SetKey _ _ options | SetData _ options => options
  end.

(** The loop of the silent branch of [set]. *)
Fixpoint setSilently (data : list (string * Value)) (props : gmap string Value)
  : gmap string Value :=
  match data with
  | [] => props
  | (propName, value) :: rest => setSilently rest (helpers_set collab props propName value)
  end.

Definition set (this : Component) (args : SetArgs) : Res Component :=
  let key := setData args in
  match setOptions args with
  | Some options =>
      if silent options then ret (with_props (setSilently key (props this)) this)
      else setProps collab this key
  | None => setProps collab this key
  end.



End ComponentClass.

End Misstime.

(* ================================================================== *)
(** * Properties of the parser                                         *)
(* ================================================================== *)

Import Parser.

(** ** The cursor monad *)

Lemma bind_Ok {A B} (m : M A) (k : A -> M B) (s s' : Cursor) (b : B) :
  Parser.bind m k s = Ok b s' ->
  exists a s1, m s = Ok a s1 /\ k a s1 = Ok b s'.
Proof.
  unfold Parser.bind. destruct (m s) as [a s1| |]; try discriminate.
  intros H. exists a, s1. split; [reflexivity | exact H].
Qed.

Lemma bind_Ok_eq {A B} (m : M A) (k : A -> M B) (s s1 : Cursor) (a : A) :
  m s = Ok a s1 -> Parser.bind m k s = k a s1.
Proof. unfold Parser.bind. intros ->. reflexivity. Qed.

Lemma bind_Throw_eq {A B} (m : M A) (k : A -> M B) (s : Cursor) (e : Parser.Exn) :
  m s = Throw e -> Parser.bind m k s = Throw e.
Proof. unfold Parser.bind. intros ->. reflexivity. Qed.

Lemma ret_Ok {A} (a b : A) (s s' : Cursor) : Parser.ret a s = Ok b s' -> a = b /\ s = s'.
Proof. unfold Parser.ret. intros H. inversion H. split; reflexivity. Qed.

Lemma get_Ok (s s1 s' : Cursor) : get s = Ok s1 s' -> s1 = s /\ s' = s.
Proof. unfold get. intros H. inversion H. split; reflexivity. Qed.

(** Inversion of a successful run, one monadic step at a time. *)
Ltac inv_ok H :=
  match type of H with
  | Parser.bind _ _ _ = Ok _ _ =>
      let a := fresh "a" in
      let s := fresh "s" in
      let H1 := fresh "Hm" in
      apply bind_Ok in H; destruct H as (a & s & H1 & H)
  | Parser.ret _ _ = Ok _ _ =>
      apply ret_Ok in H; destruct H as [H ?]; try (injection H as H ?); subst
  | get _ = Ok _ _ =>
      apply get_Ok in H; destruct H; subst
  end.

Ltac inv_step :=
  match goal with
  | H : Parser.bind _ _ _ = Ok _ _ |- _ => inv_ok H
  | H : Parser.ret _ _ = Ok _ _ |- _ => inv_ok H
  | H : get _ = Ok _ _ |- _ => inv_ok H
  | H : (let (_, _) := ?p in _) _ = Ok _ _ |- _ => is_var p; destruct p
  end.

(** ** Directive objects *)

Lemma lookup_assignDirective (key k : string) (v : ASTNode) (d : list (string * ASTNode)) :
  lookupDirective k (assignDirective key v d)
  = if String.eqb key k then Some v else lookupDirective k d.
Proof.
  induction d as [|[k0 w] d IH]; simpl.
  - destruct (String.eqb key k); reflexivity.
  - destruct (String.eqb k0 key) eqn:E0; simpl.
    + apply String.eqb_eq in E0. subst k0.
      destruct (String.eqb key k); reflexivity.
    + destruct (String.eqb k0 k) eqn:E1.
      * apply String.eqb_eq in E1. subst k0. rewrite String.eqb_sym, E0. reflexivity.
      * exact IH.
Qed.

(** ** [parseJSXAttribute]: the [keyed] flag *)

(** An attribute node with the name [key]. *)
Definition attributeNamed (key : string) (n : ASTNode) : bool :=
  match n with
  | ASTAttribute name _ _ => String.eqb name key
  | _ => false
  end.

(** The names that [parseJSXAttribute] has recorded contain [key]: as an
    attribute node of [attributes], or as a key of [directives]. *)
Definition recordsName (key : string) (a : Attrs) : bool :=
  existsb (attributeNamed key) (attributes a)
  || match lookupDirective key (directives a) with Some _ => true | None => false end.

Section KeyedFlag.

Variable env : Env.
Variable source : string.
Variable parse_rec : bool -> Z -> M (list ASTNode).
Variable scanJSX_rec : M ASTNode.

Lemma parseJSXExpression_shape (fuel : nat) (s s' : Cursor) (n : ASTNode) :
  parseJSXExpression env source parse_rec fuel s = Ok n s' ->
  exists t v l, n = ASTExpression t v l.
Proof.
  unfold parseJSXExpression. intros H.
  inv_ok H. destruct a as [t v]. inv_ok H. inv_ok H.
  eauto.
Qed.

Lemma recordsName_push (key : string) (a : Attrs) (n : ASTNode) :
  recordsName key (mkAttrs (attributes a ++ [n]) (directives a) (keyed a) (hasVRaw a))
  = recordsName key a || attributeNamed key n.
Proof.
  unfold recordsName. simpl. rewrite existsb_app. simpl.
  rewrite orb_false_r.
  destruct (existsb _ _), (lookupDirective _ _), (attributeNamed key n); reflexivity.
Qed.

Lemma is_Some_lookup_assign (key name : string) (v : ASTNode) (d : list (string * ASTNode)) :
  match lookupDirective key (assignDirective name v d) with Some _ => true | None => false end
  = String.eqb name key
    || match lookupDirective key d with Some _ => true | None => false end.
Proof.
  rewrite lookup_assignDirective.
  destruct (String.eqb name key); reflexivity.
Qed.

(** One named attribute keeps the flag in step with the recorded names. *)
Lemma parseNamedAttribute_keyed (fuel : nat) (tag : string) (type : ASTTypes)
  (a a' : Attrs) (s s' : Cursor) :
  parseNamedAttribute env source parse_rec fuel tag type a s = Ok a' s' ->
  keyed a = recordsName "key" a ->
  keyed a' = recordsName "key" a'.
Proof.
  unfold parseNamedAttribute. intros H Hinv.
  inv_ok H. rename a0 into name.
  inv_ok H. inv_ok Hm0.
  inv_ok H. rename a0 into value.
  inv_ok H.
  assert (Hk : (if negb (keyed a) && String.eqb name "key" then true else keyed a)
               = keyed a || String.eqb name "key").
  { destruct (keyed a), (String.eqb name "key"); reflexivity. }
  rewrite Hk in H. clear Hk.
  destruct (String.eqb name (Directives_If env) || String.eqb name (Directives_ElseIf env)
            || String.eqb name (Directives_Else env)).
  - inv_ok H. unfold recordsName in *. simpl.
    rewrite is_Some_lookup_assign, Hinv.
    destruct (existsb _ _), (lookupDirective _ _), (String.eqb name "key"); reflexivity.
  - destruct (directivesMap env name).
    + inv_ok H. unfold recordsName in *. simpl.
      rewrite is_Some_lookup_assign, Hinv.
      destruct (existsb _ _), (lookupDirective _ _), (String.eqb name "key"); reflexivity.
    + inv_ok H.
      change (keyed a || String.eqb name "key"
              = recordsName "key"
                  (mkAttrs (attributes a ++ [ASTAttribute name value (getLocation s)])
                     (directives a) (keyed a || String.eqb name "key") (hasVRaw a))).
      unfold recordsName in *. simpl. rewrite existsb_app. simpl.
      rewrite Hinv.
      destruct (existsb _ _), (lookupDirective _ _), (String.eqb name "key"); reflexivity.
Qed.

Lemma parseJSXAttributeLoop_keyed (fuel : nat) (tag : string) (type : ASTTypes) :
  forall (a a' : Attrs) (s s' : Cursor),
    parseJSXAttributeLoop env source parse_rec fuel tag type a s = Ok a' s' ->
    keyed a = recordsName "key" a ->
    keyed a' = recordsName "key" a'.
Proof.
  induction fuel as [|fuel IH]; intros a a' s s' H Hinv; simpl in H.
  - discriminate.
  - destruct (index s <? srcLength source).
    + inv_ok H. inv_ok H. inv_ok Hm0.
      destruct (String.eqb (char source s0) "/" || String.eqb (char source s0) ">").
      * inv_ok H. exact Hinv.
      * destruct (isExpect source (fst (delimiters env)) s0).
        -- inv_ok H. rename a1 into expression.
           destruct (parseJSXExpression_shape _ _ _ _ Hm0) as (t & v & l & ->).
           apply IH in H; [exact H|].
           destruct (negb (Z.of_nat (length (exprValue (ASTExpression t v l))) =? 0)).
           ++ rewrite recordsName_push. simpl. rewrite orb_false_r. exact Hinv.
           ++ exact Hinv.
        -- inv_ok H.
           apply IH in H; [exact H|].
           eapply parseNamedAttribute_keyed; eauto.
    + inversion H. subst. exact Hinv.
Qed.

End KeyedFlag.

(** C9. The flag [keyed] returned by [parseJSXAttribute] is true exactly when
    the name [key] is among the attribute names read for the element: the
    name of an attribute node of the returned [attributes] (or, if the table
    of directives routed that name there, a key of [directives]). *)
Theorem parseJSXAttribute_keyed_iff (env : Env) (source : string)
  (parse_rec : bool -> Z -> M (list ASTNode)) (fuel : nat) (tag : string)
  (type : ASTTypes) (s s' : Cursor) (a : Attrs) :
  parseJSXAttribute env source parse_rec fuel tag type s = Ok a s' ->
  keyed a = true <-> recordsName "key" a = true.
Proof.
  unfold parseJSXAttribute. intros H.
  apply parseJSXAttributeLoop_keyed in H.
  - rewrite H. reflexivity.
  - reflexivity.
Qed.

(** The attributes of [<div key={a} class='x'>], read from the end of the
    tag name. *)
Lemma parseJSXAttribute_keyed_witness :
  exists a s',
    parseJSXAttribute Sample.development "<div key={a} class='x'>"
      (parse Sample.development "<div key={a} class='x'>" 30) 30
      "div" JSXCommonElement (mkCursor 4 1 5) = Ok a s'
    /\ keyed a = true
    /\ (keyed a = true <-> recordsName "key" a = true).
Proof.
  eexists. eexists. split; [vm_compute; reflexivity|].
  split; [reflexivity|].
  eapply (parseJSXAttribute_keyed_iff Sample.development "<div key={a} class='x'>"
            (parse Sample.development "<div key={a} class='x'>" 30) 30
            "div" JSXCommonElement (mkCursor 4 1 5)).
  vm_compute. reflexivity.
Defined.

(** ** The child list and its chains of conditional directives *)

(** How the loop of [parseJSXChildrenValue] treats a child, by the tests it
    makes: an element with an [if] directive, an element with an [else-if]
    directive and no [if], an element with an [else] directive and neither
    of the others, and every other node. *)
Inductive Kind := IfElement | ElseIfElement | ElseElement | Plain.

Section ChildList.

Variable env : Env.

Definition classify (n : ASTNode) : Kind :=
  if isElementNode n then
    if hasDirective (Directives_If env) n then IfElement
    else if hasDirective (Directives_ElseIf env) n then ElseIfElement
    else if hasDirective (Directives_Else env) n then ElseElement
    else Plain
  else Plain.

(** The directive node of a chained element that the error message names. *)
Definition chainedDirective (n : ASTNode) : option ASTNode :=
  match lookupDirective (Directives_ElseIf env) (nodeDirectives n) with
  | Some tmp => Some tmp
  | None => lookupDirective (Directives_Else env) (nodeDirectives n)
  end.

Definition orphanMessage (n : ASTNode) : string :=
  "'" +:+ match chainedDirective n with Some tmp => nodeName tmp | None => "" end
      +:+ "' must be lead with 'v-if' or 'v-else-if'".

(** The loop body on a list of children already parsed. *)
Fixpoint linkAll (cs : list ASTNode) (children : list ASTNode) (d : option DirRef)
  : Parser.Exn + (list ASTNode * option DirRef) :=
  match cs with
  | [] => inr (children, d)
  | c :: cs' =>
      match linkChild env c children d with
      | inl e => inl e
      | inr (children', d') => linkAll cs' children' d'
      end
  end.

(** The first child of [cs] that carries [else-if] or [else] (and no [if])
    while no chain is open.  A chain is opened by an [if], kept open by an
    [else-if] and closed by an [else]; other children leave it as it is. *)
Fixpoint firstOrphan (open : bool) (cs : list ASTNode) : option ASTNode :=
  match cs with
  | [] => None
  | c :: cs' =>
      match classify c with
      | IfElement => firstOrphan true cs'
      | ElseIfElement => if open then firstOrphan true cs' else Some c
      | ElseElement => if open then firstOrphan false cs' else Some c
      | Plain => firstOrphan open cs'
      end
  end.

(** An element without the links that the child list adds to it. *)
Definition detach (n : ASTNode) : ASTNode := alterChainNext env (fun _ => None) n.

(** The first [n] elements of the chain that starts at [elem], each without
    its own link: [elem], then the element its chain directive points to
    with [next], and so on. *)
Fixpoint chainTake (n : nat) (elem : ASTNode) : list ASTNode :=
  match n with
  | O => []
  | S n' =>
      detach elem ::
      match chainNext env elem with
      | Some nx => chainTake n' nx
      | None => []
      end
  end.

(** The chain directive of an element is a directive-if node, as the type of
    [directives] says. *)
Definition linkable (n : ASTNode) : bool :=
  match chainKey env (nodeDirectives n) with
  | Some key =>
      match lookupDirective key (nodeDirectives n) with
      | Some (ASTDirectiveIf _ _ _ _) => true
      | _ => false
      end
  | None => false
  end.

(** The head [h] with the elements of [rest] linked behind it. *)
Fixpoint buildChain (rest : list ASTNode) (h : ASTNode) : ASTNode :=
  match rest with
  | [] => h
  | e :: rest' => alterChainNext env (fun _ => Some (buildChain rest' e)) h
  end.

(** *** [linkChild], case by case *)

Lemma linkChild_If (c : ASTNode) (children : list ASTNode) (d : option DirRef) :
  classify c = IfElement ->
  linkChild env c children d
  = inr (children ++ [c], Some (mkDirRef (length children) 0)).
Proof.
  unfold classify, linkChild, hasDirective.
  destruct (isElementNode c); [|discriminate].
  destruct (lookupDirective (Directives_If env) (nodeDirectives c)); [reflexivity|].
  destruct (lookupDirective (Directives_ElseIf env) (nodeDirectives c)); [discriminate|].
  destruct (lookupDirective (Directives_Else env) (nodeDirectives c)); discriminate.
Qed.

Lemma linkChild_Plain (c : ASTNode) (children : list ASTNode) (d : option DirRef) :
  classify c = Plain ->
  linkChild env c children d = inr (children ++ [c], d).
Proof.
  unfold classify, linkChild, hasDirective.
  destruct (isElementNode c); [|reflexivity].
  destruct (lookupDirective (Directives_If env) (nodeDirectives c)); [discriminate|].
  destruct (lookupDirective (Directives_ElseIf env) (nodeDirectives c)); [discriminate|].
  destruct (lookupDirective (Directives_Else env) (nodeDirectives c)); [discriminate|].
  reflexivity.
Qed.

Lemma linkChild_ElseIf (c : ASTNode) (children : list ASTNode) (r : DirRef) :
  classify c = ElseIfElement ->
  linkChild env c children (Some r)
  = inr (setNext env r c children, Some (mkDirRef (head r) (S (depth r)))).
Proof.
  unfold classify, linkChild, hasDirective.
  destruct (isElementNode c); [|discriminate].
  destruct (lookupDirective (Directives_If env) (nodeDirectives c)); [discriminate|].
  destruct (lookupDirective (Directives_ElseIf env) (nodeDirectives c)); [reflexivity|].
  destruct (lookupDirective (Directives_Else env) (nodeDirectives c)); discriminate.
Qed.

Lemma linkChild_Else (c : ASTNode) (children : list ASTNode) (r : DirRef) :
  classify c = ElseElement ->
  linkChild env c children (Some r) = inr (setNext env r c children, None).
Proof.
  unfold classify, linkChild, hasDirective.
  destruct (isElementNode c); [|discriminate].
  destruct (lookupDirective (Directives_If env) (nodeDirectives c)); [discriminate|].
  destruct (lookupDirective (Directives_ElseIf env) (nodeDirectives c)); [discriminate|].
  destruct (lookupDirective (Directives_Else env) (nodeDirectives c)); [reflexivity|].
  discriminate.
Qed.

(** Without an open chain a chained element is refused: with a located
    parse error, unless the build is a production build. *)
Lemma linkChild_orphan (c : ASTNode) (children : list ASTNode) :
  classify c = ElseIfElement \/ classify c = ElseElement ->
  linkChild env c children None
  = inl (if negb (String.eqb (NODE_ENV env) "production")
         then ParseError (orphanMessage c) (nodeLoc c)
         else Parser.TypeError "Cannot set properties of null (setting 'next')").
Proof.
  unfold classify, linkChild, hasDirective, orphanMessage, chainedDirective.
  destruct (isElementNode c); [|intros [?|?]; discriminate].
  destruct (lookupDirective (Directives_If env) (nodeDirectives c));
    [intros [?|?]; discriminate|].
  destruct (lookupDirective (Directives_ElseIf env) (nodeDirectives c)).
  - intros _. destruct (negb _); reflexivity.
  - destruct (lookupDirective (Directives_Else env) (nodeDirectives c)).
    + intros _. destruct (negb _); reflexivity.
    + intros [?|?]; discriminate.
Qed.

Lemma linkAll_app (cs1 cs2 : list ASTNode) :
  forall children d,
    linkAll (cs1 ++ cs2) children d
    = match linkAll cs1 children d with
      | inl e => inl e
      | inr (children', d') => linkAll cs2 children' d'
      end.
Proof.
  induction cs1 as [|c cs1 IH]; intros children d; simpl.
  - reflexivity.
  - destruct (linkChild env c children d) as [e|[children' d']]; [reflexivity|].
    apply IH.
Qed.

End ChildList.

(** *** Rewriting the link of an element *)

Section Chains.

Variable env : Env.

Lemma lookup_alterDirective (key k : string) (f : ASTNode -> ASTNode)
  (d : list (string * ASTNode)) :
  lookupDirective k (alterDirective key f d)
  = if String.eqb key k then option_map f (lookupDirective k d) else lookupDirective k d.
Proof.
  induction d as [|[k0 v] d IH]; simpl.
  - destruct (String.eqb key k); reflexivity.
  - destruct (String.eqb k0 key) eqn:E0; simpl.
    + apply String.eqb_eq in E0. subst k0.
      destruct (String.eqb key k); reflexivity.
    + destruct (String.eqb k0 k) eqn:E1.
      * apply String.eqb_eq in E1. subst k0. rewrite String.eqb_sym, E0. reflexivity.
      * exact IH.
Qed.

Lemma chainKey_alterDirective (key : string) (f : ASTNode -> ASTNode)
  (d : list (string * ASTNode)) :
  chainKey env (alterDirective key f d) = chainKey env d.
Proof.
  unfold chainKey. rewrite !lookup_alterDirective.
  destruct (String.eqb key (Directives_If env)),
    (lookupDirective (Directives_If env) d),
    (String.eqb key (Directives_ElseIf env)),
    (lookupDirective (Directives_ElseIf env) d),
    (String.eqb key (Directives_Else env)),
    (lookupDirective (Directives_Else env) d); reflexivity.
Qed.

Lemma alterDirective_ext (key : string) (f g : ASTNode -> ASTNode)
  (d : list (string * ASTNode)) :
  (forall n, f n = g n) -> alterDirective key f d = alterDirective key g d.
Proof.
  intros Hfg. induction d as [|[k v] d IH]; simpl; [reflexivity|].
  destruct (String.eqb k key); [rewrite Hfg | rewrite IH]; reflexivity.
Qed.

Lemma alterDirective_compose (key : string) (f g : ASTNode -> ASTNode)
  (d : list (string * ASTNode)) :
  alterDirective key g (alterDirective key f d) = alterDirective key (fun n => g (f n)) d.
Proof.
  induction d as [|[k v] d IH]; simpl; [reflexivity|].
  destruct (String.eqb k key) eqn:E; simpl; rewrite E; [reflexivity|].
  rewrite IH. reflexivity.
Qed.

Lemma withNext_withNext (x y : option ASTNode) (n : ASTNode) :
  withNext y (withNext x n) = withNext y n.
Proof. destruct n; reflexivity. Qed.

Lemma nodeNext_withNext (f g : option ASTNode -> option ASTNode) (n : ASTNode) :
  withNext (g (nodeNext (withNext (f (nodeNext n)) n))) (withNext (f (nodeNext n)) n)
  = withNext (g (f (nodeNext n))) n.
Proof. destruct n; reflexivity. Qed.

Lemma alterChainNext_compose (f g : option ASTNode -> option ASTNode) (elem : ASTNode) :
  alterChainNext env g (alterChainNext env f elem)
  = alterChainNext env (fun x => g (f x)) elem.
Proof.
  destruct elem as [| |t v a d c k l| | | | | | | |]; try reflexivity.
  unfold alterChainNext at 2 3.
  destruct (chainKey env d) as [key|] eqn:Ekey.
  - unfold alterChainNext. rewrite chainKey_alterDirective, Ekey.
    rewrite alterDirective_compose. f_equal.
    apply alterDirective_ext. intros n. apply nodeNext_withNext.
  - unfold alterChainNext. rewrite Ekey. reflexivity.
Qed.

Lemma detach_alterChainNext (f : option ASTNode -> option ASTNode) (elem : ASTNode) :
  detach env (alterChainNext env f elem) = detach env elem.
Proof. unfold detach. rewrite alterChainNext_compose. reflexivity. Qed.

Lemma nodeDirectives_alterChainNext (f : option ASTNode -> option ASTNode)
  (elem : ASTNode) :
  nodeDirectives (alterChainNext env f elem)
  = match chainKey env (nodeDirectives elem) with
    | Some key =>
        alterDirective key (fun n => withNext (f (nodeNext n)) n) (nodeDirectives elem)
    | None => nodeDirectives elem
    end.
Proof.
  destruct elem as [| |t v a d c k l| | | | | | | |]; simpl; try reflexivity.
  destruct (chainKey env d); reflexivity.
Qed.

(** The link after a rewrite that maps over it. *)
Lemma chainNext_alter_map (g : ASTNode -> ASTNode) (elem : ASTNode) :
  chainNext env (alterChainNext env (option_map g) elem)
  = option_map g (chainNext env elem).
Proof.
  unfold chainNext. rewrite nodeDirectives_alterChainNext.
  destruct (chainKey env (nodeDirectives elem)) as [key|] eqn:Ekey.
  - rewrite chainKey_alterDirective, Ekey, lookup_alterDirective, String.eqb_refl.
    destruct (lookupDirective key (nodeDirectives elem)) as [n|]; [|reflexivity].
    destruct n; reflexivity.
  - rewrite Ekey. reflexivity.
Qed.

(** The link after an assignment. *)
Lemma chainNext_alter_set (child elem : ASTNode) :
  linkable env elem = true ->
  chainNext env (alterChainNext env (fun _ => Some child) elem) = Some child.
Proof.
  unfold linkable, chainNext. rewrite nodeDirectives_alterChainNext.
  destruct (chainKey env (nodeDirectives elem)) as [key|] eqn:Ekey; [|discriminate].
  rewrite chainKey_alterDirective, Ekey, lookup_alterDirective, String.eqb_refl.
  destruct (lookupDirective key (nodeDirectives elem)) as [n|]; [|discriminate].
  destruct n; try discriminate. reflexivity.
Qed.

Lemma chainTake_setNextAt (k : nat) (child : ASTNode) :
  forall elem, chainTake env (S k) (setNextAt env k child elem) = chainTake env (S k) elem.
Proof.
  induction k as [|k IH]; intros elem.
  - simpl. rewrite detach_alterChainNext.
    destruct (chainNext env _), (chainNext env elem); reflexivity.
  - change (setNextAt env (S k) child elem)
      with (alterChainNext env (option_map (setNextAt env k child)) elem).
    change (chainTake env (S (S k)) ?e)
      with (detach env e :: match chainNext env e with
                            | Some nx => chainTake env (S k) nx
                            | None => []
                            end).
    rewrite detach_alterChainNext, chainNext_alter_map.
    destruct (chainNext env elem) as [nx|]; simpl option_map; cbv iota; [|reflexivity].
    rewrite IH. reflexivity.
Qed.

Lemma chainTake_firstn (n : nat) :
  forall m elem, (n <= m)%nat -> firstn n (chainTake env m elem) = chainTake env n elem.
Proof.
  induction n as [|n IH]; intros m elem Hle; [reflexivity|].
  destruct m as [|m]; [lia|].
  simpl. f_equal.
  destruct (chainNext env elem) as [nx|].
  - apply IH. lia.
  - destruct n; reflexivity.
Qed.

(** Linking at depth [k] leaves the first [k + 1] elements of the chain as
    they are. *)
Lemma chainTake_setNextAt_le (n k : nat) (child elem : ASTNode) :
  (n <= S k)%nat ->
  chainTake env n (setNextAt env k child elem) = chainTake env n elem.
Proof.
  intros Hle.
  rewrite <- (chainTake_firstn n (S k)) by exact Hle.
  rewrite chainTake_setNextAt.
  apply chainTake_firstn. exact Hle.
Qed.

(** Linking behind the last element of a chain extends it. *)
Lemma setNextAt_buildChain (e : ASTNode) :
  forall mid h,
    setNextAt env (length mid) e (buildChain env mid h) = buildChain env (mid ++ [e]) h.
Proof.
  induction mid as [|m mid IH]; intros h.
  - reflexivity.
  - simpl length. simpl buildChain.
    change (setNextAt env (S (length mid)) e ?x)
      with (alterChainNext env (option_map (setNextAt env (length mid) e)) x).
    rewrite alterChainNext_compose. simpl option_map.
    rewrite IH. reflexivity.
Qed.

Lemma In_removelast {A} (x : A) (l : list A) : In x (removelast l) -> In x l.
Proof.
  induction l as [|a l IH]; simpl; [tauto|].
  destruct l as [|b l]; [simpl; tauto|].
  intros [->|H]; [left; reflexivity | right; apply IH, H].
Qed.

(** The chain built from a head and the elements behind it visits them in
    order. *)
Lemma chainTake_buildChain (rest : list ASTNode) :
  forall h,
    (forall x, In x (removelast (h :: rest)) -> linkable env x = true) ->
    chainTake env (S (length rest)) (buildChain env rest h) = map (detach env) (h :: rest).
Proof.
  induction rest as [|e rest IH]; intros h Hl.
  - simpl. destruct (chainNext env h); reflexivity.
  - simpl length. simpl buildChain.
    change (chainTake env (S (S (length rest))) ?x)
      with (detach env x :: match chainNext env x with
                            | Some nx => chainTake env (S (length rest)) nx
                            | None => []
                            end).
    rewrite detach_alterChainNext, chainNext_alter_set.
    + rewrite IH; [reflexivity|].
      intros x Hx. apply Hl.
      change (removelast (h :: e :: rest)) with (h :: removelast (e :: rest)).
      right. exact Hx.
    + apply Hl.
      change (removelast (h :: e :: rest)) with (h :: removelast (e :: rest)).
      left. reflexivity.
Qed.

Lemma alterAt_app {A} (f : A -> A) (l1 : list A) :
  forall j l2, alterAt (length l1 + j) f (l1 ++ l2) = l1 ++ alterAt j f l2.
Proof.
  induction l1 as [|a l1 IH]; intros j l2; simpl.
  - reflexivity.
  - rewrite IH. reflexivity.
Qed.

Lemma alterAt_length {A} (f : A -> A) (l1 : list A) (x : A) (l2 : list A) :
  alterAt (length l1) f (l1 ++ x :: l2) = l1 ++ f x :: l2.
Proof.
  rewrite <- (Nat.add_0_r (length l1)). rewrite alterAt_app. reflexivity.
Qed.

Lemma length_alterAt {A} (f : A -> A) (l : list A) :
  forall i, length (alterAt i f l) = length l.
Proof.
  induction l as [|a l IH]; intros [|i]; simpl; try reflexivity.
  rewrite IH. reflexivity.
Qed.

End Chains.

(** *** A chain segment, and what follows it *)

Section Segments.

Variable env : Env.

(** The [else-if] elements behind a head extend its chain one by one. *)
Lemma linkAll_elseIfs (h : ASTNode) (c1 : list ASTNode) (es : list ASTNode) :
  forall mid,
    Forall (fun e => classify env e = ElseIfElement) es ->
    linkAll env es (c1 ++ [buildChain env mid h])
      (Some (mkDirRef (length c1) (length mid)))
    = inr (c1 ++ [buildChain env (mid ++ es) h],
           Some (mkDirRef (length c1) (length (mid ++ es)))).
Proof.
  induction es as [|e es IH]; intros mid Hes.
  - simpl. rewrite app_nil_r. reflexivity.
  - inversion Hes as [|? ? He Hes']; subst.
    simpl. rewrite linkChild_ElseIf by exact He.
    unfold setNext. cbn [Parser.head Parser.depth].
    rewrite alterAt_length.
    rewrite setNextAt_buildChain.
    replace (S (length mid)) with (length (mid ++ [e]))
      by (rewrite length_app; simpl; lia).
    rewrite IH by exact Hes'.
    rewrite <- app_assoc. reflexivity.
Qed.

(** A segment is an element with [if], then elements with [else-if], then
    at most one element with [else]. *)
Definition closes (tail : list ASTNode) : Prop :=
  tail = [] \/ exists e, tail = [e] /\ classify env e = ElseElement.

(** The whole segment adds one entry to [children]: its head, with the
    other elements linked behind it. *)
Lemma linkAll_segment (h : ASTNode) (es tail : list ASTNode) (c1 : list ASTNode)
  (d1 : option DirRef) :
  classify env h = IfElement ->
  Forall (fun e => classify env e = ElseIfElement) es ->
  closes tail ->
  linkAll env (h :: es ++ tail) c1 d1
  = inr (c1 ++ [buildChain env (es ++ tail) h],
         match tail with
         | [] => Some (mkDirRef (length c1) (length es))
         | _ => None
         end).
Proof.
  intros Hh Hes Htail. simpl.
  rewrite linkChild_If by exact Hh.
  rewrite linkAll_app.
  pose proof (linkAll_elseIfs h c1 es [] Hes) as Hmid.
  simpl in Hmid. rewrite Hmid. clear Hmid.
  destruct Htail as [->|(e & -> & He)].
  - simpl. rewrite app_nil_r. reflexivity.
  - simpl. rewrite linkChild_Else by exact He.
    unfold setNext. cbn [Parser.head Parser.depth].
    rewrite alterAt_length.
    rewrite setNextAt_buildChain. reflexivity.
Qed.

(** What follows a segment leaves the entries before it, its head entry and
    the first [n] elements of its chain as they are, and adds at most one
    entry per child. *)
Lemma linkAll_keeps_chain (n : nat) (target : list ASTNode) (before : list ASTNode) :
  forall post head after d children' d',
    chainTake env n head = target ->
    (forall r, d = Some r ->
               (length before <= Parser.head r)%nat
               /\ (Parser.head r = length before -> (n <= S (depth r))%nat)) ->
    linkAll env post (before ++ head :: after) d = inr (children', d') ->
    exists head' after',
      children' = before ++ head' :: after'
      /\ chainTake env n head' = target
      /\ (length after' <= length after + length post)%nat.
Proof.
  induction post as [|c post IH]; intros head after d children' d' Hchain Hd H.
  - simpl in H. injection H as <- <-. exists head, after.
    split; [reflexivity|]. split; [exact Hchain|]. simpl. lia.
  - simpl in H.
    assert (Hpush : forall d0,
               (forall r, d0 = Some r ->
                          (length before <= Parser.head r)%nat
                          /\ (Parser.head r = length before -> (n <= S (depth r))%nat)) ->
               linkAll env post ((before ++ head :: after) ++ [c]) d0 = inr (children', d') ->
               exists head' after',
                 children' = before ++ head' :: after'
                 /\ chainTake env n head' = target
                 /\ (length after' <= length after + length (c :: post))%nat).
    { intros d0 Hd0 H0.
      rewrite <- app_assoc in H0. simpl in H0.
      destruct (IH head (after ++ [c]) d0 children' d' Hchain Hd0 H0)
        as (head' & after' & E & Hc & Hlen).
      exists head', after'. split; [exact E|]. split; [exact Hc|].
      rewrite length_app in Hlen. simpl in *. lia. }
    assert (Hlink : forall r d0,
               d = Some r ->
               (d0 = None \/ d0 = Some (mkDirRef (Parser.head r) (S (depth r)))) ->
               linkAll env post (setNext env r c (before ++ head :: after)) d0
               = inr (children', d') ->
               exists head' after',
                 children' = before ++ head' :: after'
                 /\ chainTake env n head' = target
                 /\ (length after' <= length after + length (c :: post))%nat).
    { intros r d0 Er Hd0 H0.
      destruct (Hd r Er) as [Hle Hdepth].
      unfold setNext in H0.
      replace (Parser.head r) with (length before + (Parser.head r - length before))%nat
        in H0 by lia.
      rewrite alterAt_app in H0.
      assert (Hd0' : forall r0, d0 = Some r0 ->
                 (length before <= Parser.head r0)%nat
                 /\ (Parser.head r0 = length before -> (n <= S (depth r0))%nat)).
      { intros r0 E0. destruct Hd0 as [->| ->]; [discriminate|].
        inversion E0; subst r0. simpl. split; [exact Hle|].
        intros E. specialize (Hdepth E). lia. }
      destruct (Parser.head r - length before)%nat as [|j] eqn:Ej.
      - simpl alterAt in H0.
        assert (Hc : chainTake env n (setNextAt env (depth r) c head) = target).
        { rewrite chainTake_setNextAt_le; [exact Hchain|]. apply Hdepth. lia. }
        destruct (IH _ after d0 children' d' Hc Hd0' H0)
          as (head' & after' & E & Hc' & Hlen).
        exists head', after'. split; [exact E|]. split; [exact Hc'|]. simpl. lia.
      - simpl alterAt in H0.
        destruct (IH head _ d0 children' d' Hchain Hd0' H0)
          as (head' & after' & E & Hc' & Hlen).
        exists head', after'. split; [exact E|]. split; [exact Hc'|].
        rewrite length_alterAt in Hlen. simpl. lia. }
    destruct (classify env c) eqn:Ec.
    + rewrite linkChild_If in H by exact Ec.
      apply (Hpush _) in H; [exact H|].
      intros r Er. inversion Er; subst r. simpl.
      rewrite length_app. simpl. split; lia.
    + destruct d as [r|].
      * rewrite linkChild_ElseIf in H by exact Ec.
        eapply Hlink; [reflexivity | right; reflexivity | exact H].
      * rewrite linkChild_orphan in H by (left; exact Ec). discriminate.
    + destruct d as [r|].
      * rewrite linkChild_Else in H by exact Ec.
        eapply Hlink; [reflexivity | left; reflexivity | exact H].
      * rewrite linkChild_orphan in H by (right; exact Ec). discriminate.
    + rewrite linkChild_Plain in H by exact Ec.
      apply (Hpush _) in H; [exact H|]. exact Hd.
Qed.

(** In a build that is not a production build, the first orphan of a child
    list is refused with a parse error at its location. *)
Lemma linkAll_firstOrphan (c : ASTNode) :
  String.eqb (NODE_ENV env) "production" = false ->
  forall cs children d,
    firstOrphan env (match d with Some _ => true | None => false end) cs = Some c ->
    linkAll env cs children d = inl (ParseError (orphanMessage env c) (nodeLoc c)).
Proof.
  intros Hdev. induction cs as [|c0 cs IH]; intros children d H; simpl in H.
  - discriminate.
  - simpl. destruct (classify env c0) eqn:Ec.
    + rewrite linkChild_If by exact Ec. apply IH. exact H.
    + destruct d as [r|].
      * rewrite linkChild_ElseIf by exact Ec. apply IH. exact H.
      * rewrite linkChild_orphan by (left; exact Ec). rewrite Hdev. simpl.
        inversion H; subst. reflexivity.
    + destruct d as [r|].
      * rewrite linkChild_Else by exact Ec. apply IH. exact H.
      * rewrite linkChild_orphan by (right; exact Ec). rewrite Hdev. simpl.
        inversion H; subst. reflexivity.
    + rewrite linkChild_Plain by exact Ec. apply IH. exact H.
Qed.

End Segments.

(** *** The loop of [parseJSXChildrenValue] *)

Section ChildLoop.

Variable env : Env.
Variable source : string.
Variable parseChild : M ASTNode.
Variable endTag : string.

(** [siblings s cs s']: from the cursor [s], the loop reads the children
    [cs] one after the other, each with one call of [parseChild], and is at
    [s'] afterwards. *)
Inductive siblings : Cursor -> list ASTNode -> Cursor -> Prop :=
| siblings_nil (s : Cursor) : siblings s [] s
| siblings_cons (s s1 s2 : Cursor) (child : ASTNode) (rest : list ASTNode) :
    index s < srcLength source ->
    isExpect source endTag s = false ->
    parseChild s = Ok child s1 ->
    siblings s1 rest s2 ->
    siblings s (child :: rest) s2.

(** The loop stops at [s]: the input is exhausted, or the closing tag is
    next. *)
Definition loopEnds (s : Cursor) : Prop :=
  srcLength source <= index s \/ isExpect source endTag s = true.

Lemma childrenLoop_Ok (s s' : Cursor) (cs : list ASTNode) :
  siblings s cs s' ->
  loopEnds s' ->
  forall fuel children d result s'',
    childrenLoop env source parseChild fuel endTag children d s = Ok result s'' ->
    exists d', linkAll env cs children d = inr (result, d').
Proof.
  intros Hsib Hend.
  induction Hsib as [s|s s1 s2 child rest Hlt Hne Hchild Hsib IH];
    intros fuel children d result s'' H.
  - destruct fuel as [|fuel]; [discriminate|]. simpl in H.
    exists d. simpl.
    destruct (index s <? srcLength source) eqn:E.
    + destruct Hend as [Hge|Hexp]; [apply Z.ltb_lt in E; lia|].
      rewrite Hexp in H. inversion H. reflexivity.
    + inversion H. reflexivity.
  - destruct fuel as [|fuel]; [discriminate|]. simpl in H.
    apply Z.ltb_lt in Hlt. rewrite Hlt, Hne, Hchild in H.
    simpl. destruct (linkChild env child children d) as [e|[children' d']];
      [discriminate|].
    eapply IH; [exact Hend | exact H].
Qed.

Lemma childrenLoop_Throw (s s' : Cursor) (cs : list ASTNode) :
  siblings s cs s' ->
  forall fuel children d e,
    linkAll env cs children d = inl e ->
    (length cs <= fuel)%nat ->
    childrenLoop env source parseChild fuel endTag children d s = Throw e.
Proof.
  intros Hsib.
  induction Hsib as [s|s s1 s2 child rest Hlt Hne Hchild Hsib IH];
    intros fuel children d e H Hfuel.
  - simpl in H. discriminate.
  - destruct fuel as [|fuel]; [simpl in Hfuel; lia|]. simpl.
    apply Z.ltb_lt in Hlt. rewrite Hlt, Hne, Hchild.
    simpl in H. destruct (linkChild env child children d) as [e'|[children' d']].
    + inversion H. reflexivity.
    + apply IH; [exact H | simpl in Hfuel; lia].
Qed.

End ChildLoop.

(** The children that the loop reads, computed: [readSiblings] calls
    [parseChild] as the loop does, without linking. *)
Fixpoint readSiblings (source : string) (parseChild : M ASTNode) (endTag : string)
  (fuel : nat) (s : Cursor) : option (list ASTNode * Cursor) :=
  match fuel with
  | O => None
  | S fuel' =>
      if (index s <? srcLength source) && negb (isExpect source endTag s) then
        match parseChild s with
        | Ok child s1 =>
            match readSiblings source parseChild endTag fuel' s1 with
            | Some (rest, s2) => Some (child :: rest, s2)
            | None => None
            end
        | _ => None
        end
      else Some ([], s)
  end.

Lemma readSiblings_sound (source : string) (parseChild : M ASTNode) (endTag : string)
  (fuel : nat) :
  forall s cs s',
    readSiblings source parseChild endTag fuel s = Some (cs, s') ->
    siblings source parseChild endTag s cs s' /\ loopEnds source endTag s'.
Proof.
  induction fuel as [|fuel IH]; intros s cs s' H; simpl in H; [discriminate|].
  destruct (index s <? srcLength source) eqn:Elt; simpl in H.
  - destruct (isExpect source endTag s) eqn:Eexp; simpl in H.
    + injection H as <- <-. split; [constructor | right; exact Eexp].
    + destruct (parseChild s) as [child s1| |] eqn:Echild; try discriminate.
      destruct (readSiblings source parseChild endTag fuel s1) as [[rest s2]|] eqn:Erest;
        [|discriminate].
      injection H as <- <-.
      destruct (IH _ _ _ Erest) as [Hsib Hend].
      split; [|exact Hend].
      econstructor; eauto. apply Z.ltb_lt. exact Elt.
  - injection H as <- <-. split; [constructor|].
    left. apply Z.ltb_ge. exact Elt.
Qed.

(** A segment of the child list, for any parser of the nested nodes, when
    the chain directives of its elements are directive-if nodes. *)
Lemma parseJSXChildrenValue_links_linkable
  (env : Env) (source : string) (parse_rec : bool -> Z -> M (list ASTNode))
  (scanJSX_rec : M ASTNode) (fuel : nat) (tag : string) (type : ASTTypes)
  (isTextTag : bool) (loc : SourceLocation) (s0 s s' s'' : Cursor)
  (pre es tail post : list ASTNode) (h : ASTNode) (children : list ASTNode) :
  skipWhitespaceBetweenTags env source fuel (endTagOf tag type) true s0 = Ok tt s ->
  siblings source
    (parseJSXChild env source parse_rec scanJSX_rec fuel (endTagOf tag type) isTextTag)
    (endTagOf tag type) s (pre ++ h :: es ++ tail ++ post) s' ->
  loopEnds source (endTagOf tag type) s' ->
  parseJSXChildrenValue env source parse_rec scanJSX_rec fuel tag type false isTextTag
    loc s0 = Ok children s'' ->
  classify env h = IfElement ->
  Forall (fun e => classify env e = ElseIfElement) es ->
  closes env tail ->
  Forall (fun e => linkable env e = true) (h :: es) ->
  exists before d head after,
    linkAll env pre [] None = inr (before, d)
    /\ children = before ++ head :: after
    /\ (length after <= length post)%nat
    /\ chainTake env (length (h :: es ++ tail)) head
       = map (detach env) (h :: es ++ tail).
Proof.
  intros Hskip Hsib Hend Hparse Hh Hes Htail Hlinkable.
  unfold parseJSXChildrenValue in Hparse. cbv zeta in Hparse.
  inv_ok Hparse. inv_ok Hparse. inv_ok Hparse.
  cbv iota in Hm. inv_ok Hm.
  rewrite Hskip in Hm1. injection Hm1 as _ <-.
  destruct (childrenLoop_Ok env source _ _ _ _ _ Hsib Hend _ _ _ _ _ Hm) as [d' Hlink].
  rewrite linkAll_app in Hlink.
  destruct (linkAll env pre [] None) as [e|[before d]]; [discriminate|].
  replace (h :: es ++ tail ++ post) with ((h :: es ++ tail) ++ post) in Hlink
    by (simpl; rewrite <- app_assoc; reflexivity).
  rewrite linkAll_app in Hlink.
  rewrite linkAll_segment in Hlink by assumption.
  assert (Htake : chainTake env (length (h :: es ++ tail)) (buildChain env (es ++ tail) h)
                  = map (detach env) (h :: es ++ tail)).
  { simpl length. apply chainTake_buildChain.
    intros x Hx. rewrite Stdlib.Lists.List.Forall_forall in Hlinkable. apply Hlinkable.
    destruct Htail as [->|(e & -> & _)].
    - rewrite app_nil_r in Hx. apply In_removelast. exact Hx.
    - change (h :: es ++ [e]) with ((h :: es) ++ [e]) in Hx.
      rewrite removelast_last in Hx. exact Hx. }
  edestruct (linkAll_keeps_chain env (length (h :: es ++ tail))
               (map (detach env) (h :: es ++ tail)) before post
               (buildChain env (es ++ tail) h) []
               (match tail with
                | [] => Some (mkDirRef (length before) (length es))
                | _ => None
                end) children d' Htake)
    as (head & after & E & Hc & Hlen); [ | exact Hlink | ].
  - intros r Er. destruct tail as [|e tail]; [|discriminate].
    injection Er as <-. simpl. rewrite app_nil_r. split; lia.
  - exists before, d, head, after.
    split; [reflexivity|]. split; [exact E|]. split; [simpl in Hlen; lia | exact Hc].
Qed.

(** *** The directives that the parser builds *)

(** In a [directives] object the entry of a conditional directive, if there
    is one, is a directive-if node: the type of [directives]. *)
Definition typedAt (key : string) (d : list (string * ASTNode)) : bool :=
  match lookupDirective key d with
  | Some (ASTDirectiveIf _ _ _ _) | None => true
  | Some _ => false
  end.

Definition typedDirectives (env : Env) (d : list (string * ASTNode)) : bool :=
  typedAt (Directives_If env) d && typedAt (Directives_ElseIf env) d
  && typedAt (Directives_Else env) d.

Definition nodeTyped (env : Env) (n : ASTNode) : bool :=
  typedDirectives env (nodeDirectives n).

Lemma typedAt_assign_directiveIf (key name : string) (value : ASTNode)
  (loc : SourceLocation) (d : list (string * ASTNode)) :
  typedAt key d = true ->
  typedAt key (assignDirective name (ASTDirectiveIf name value None loc) d) = true.
Proof.
  unfold typedAt. rewrite lookup_assignDirective.
  destruct (String.eqb name key); [reflexivity | tauto].
Qed.

Lemma typedAt_assign_other (key name : string) (v : ASTNode)
  (d : list (string * ASTNode)) :
  String.eqb name key = false ->
  typedAt key (assignDirective name v d) = typedAt key d.
Proof.
  unfold typedAt. rewrite lookup_assignDirective. intros ->. reflexivity.
Qed.

Lemma nodeTyped_linkable (env : Env) (n : ASTNode) :
  nodeTyped env n = true ->
  classify env n <> Plain ->
  linkable env n = true.
Proof.
  unfold nodeTyped, typedDirectives, typedAt, classify, linkable, chainKey, hasDirective.
  destruct (isElementNode n); [|congruence].
  destruct (lookupDirective (Directives_If env) (nodeDirectives n)) as [n1|] eqn:E1.
  - rewrite E1. destruct n1; simpl; congruence.
  - destruct (lookupDirective (Directives_ElseIf env) (nodeDirectives n)) as [n2|] eqn:E2.
    + rewrite E2. destruct n2; simpl; congruence.
    + destruct (lookupDirective (Directives_Else env) (nodeDirectives n)) as [n3|] eqn:E3.
      * rewrite E3. destruct n3; simpl; congruence.
      * congruence.
Qed.

Section TypedDirectives.

Variable env : Env.
Variable source : string.
Variable parse_rec : bool -> Z -> M (list ASTNode).
Variable scanJSX_rec : M ASTNode.

Lemma parseNamedAttribute_typed (fuel : nat) (tag : string) (type : ASTTypes)
  (a a' : Attrs) (s s' : Cursor) :
  parseNamedAttribute env source parse_rec fuel tag type a s = Ok a' s' ->
  typedDirectives env (directives a) = true ->
  typedDirectives env (directives a') = true.
Proof.
  unfold parseNamedAttribute, typedDirectives. intros H Hinv.
  apply andb_true_iff in Hinv. destruct Hinv as [Hinv H3].
  apply andb_true_iff in Hinv. destruct Hinv as [H1 H2].
  inv_ok H. rename a0 into name.
  inv_ok H. inv_ok Hm0.
  inv_ok H. rename a0 into value.
  inv_ok H.
  destruct (String.eqb name (Directives_If env) || String.eqb name (Directives_ElseIf env)
            || String.eqb name (Directives_Else env)) eqn:Econd.
  - inv_ok H. simpl.
    rewrite !typedAt_assign_directiveIf by assumption. reflexivity.
  - apply orb_false_iff in Econd. destruct Econd as [Econd E3].
    apply orb_false_iff in Econd. destruct Econd as [E1 E2].
    destruct (directivesMap env name).
    + inv_ok H. simpl.
      rewrite !typedAt_assign_other by assumption.
      rewrite H1, H2, H3. reflexivity.
    + inv_ok H. simpl. rewrite H1, H2, H3. reflexivity.
Qed.

Lemma parseJSXAttributeLoop_typed (fuel : nat) (tag : string) (type : ASTTypes) :
  forall (a a' : Attrs) (s s' : Cursor),
    parseJSXAttributeLoop env source parse_rec fuel tag type a s = Ok a' s' ->
    typedDirectives env (directives a) = true ->
    typedDirectives env (directives a') = true.
Proof.
  induction fuel as [|fuel IH]; intros a a' s s' H Hinv; simpl in H.
  - discriminate.
  - destruct (index s <? srcLength source).
    + inv_ok H. inv_ok H. inv_ok Hm0.
      destruct (String.eqb (char source s0) "/" || String.eqb (char source s0) ">").
      * inv_ok H. exact Hinv.
      * destruct (isExpect source (fst (delimiters env)) s0).
        -- inv_ok H. apply IH in H; [exact H|].
           destruct (negb (Z.of_nat (length (exprValue a1)) =? 0)); exact Hinv.
        -- inv_ok H. apply IH in H; [exact H|].
           eapply parseNamedAttribute_typed; eauto.
    + inversion H. subst. exact Hinv.
Qed.

Lemma parseJSXElement_typed (fuel : nat) (s s' : Cursor) (n : ASTNode) :
  parseJSXElement env source parse_rec scanJSX_rec fuel s = Ok n s' ->
  nodeTyped env n = true.
Proof.
  unfold parseJSXElement. intros H.
  repeat inv_step.
  unfold nodeTyped. simpl.
  match goal with
  | Ha : parseJSXAttribute _ _ _ _ _ _ _ = Ok _ _ |- _ =>
      unfold parseJSXAttribute in Ha;
      eapply parseJSXAttributeLoop_typed; [exact Ha | reflexivity]
  end.
Qed.

Lemma scanJSXBody_typed (fuel : nat) (s s' : Cursor) (n : ASTNode) :
  scanJSXBody env source parse_rec scanJSX_rec fuel s = Ok n s' ->
  nodeTyped env n = true.
Proof.
  unfold scanJSXBody. intros H.
  inv_ok H. inv_ok H. inv_ok Hm0.
  destruct (isExpect source "!--" s0).
  - unfold parseJSXComment in H. repeat inv_step. reflexivity.
  - eapply parseJSXElement_typed; exact H.
Qed.

Hypothesis scanJSX_rec_typed :
  forall s n s', scanJSX_rec s = Ok n s' -> nodeTyped env n = true.

Lemma parseJSXChild_typed (fuel : nat) (endTag : string) (isTextTag : bool)
  (s s' : Cursor) (child : ASTNode) :
  parseJSXChild env source parse_rec scanJSX_rec fuel endTag isTextTag s = Ok child s' ->
  nodeTyped env child = true.
Proof.
  unfold parseJSXChild. intros H.
  destruct (isExpect source (fst (delimiters env)) s).
  - inv_ok H. inv_ok H. inv_ok H.
    destruct (parseJSXExpression_shape _ _ _ _ _ _ _ Hm) as (t & v & l & ->).
    reflexivity.
  - destruct isTextTag.
    + unfold scanJSXText in H. repeat inv_step. reflexivity.
    + destruct (isTagStart source s).
      * inv_ok H. inv_ok H. inv_ok H. eapply scanJSX_rec_typed. exact Hm.
      * unfold scanJSXText in H. repeat inv_step. reflexivity.
Qed.

Lemma siblings_typed (fuel : nat) (endTag : string) (isTextTag : bool)
  (s s' : Cursor) (cs : list ASTNode) :
  siblings source
    (parseJSXChild env source parse_rec scanJSX_rec fuel endTag isTextTag) endTag s cs s' ->
  Forall (fun c => nodeTyped env c = true) cs.
Proof.
  induction 1 as [|s s1 s2 child rest _ _ Hchild _ IH]; constructor.
  - eapply parseJSXChild_typed. exact Hchild.
  - exact IH.
Qed.

End TypedDirectives.

Lemma scanJSX_typed (env : Env) (source : string) (fuel : nat) (s : Cursor)
  (n : ASTNode) (s' : Cursor) :
  scanJSX env source fuel s = Ok n s' -> nodeTyped env n = true.
Proof.
  destruct fuel as [|fuel]; simpl; [discriminate|].
  apply scanJSXBody_typed.
Qed.

(** C1. In the child list read by [parseJSXChildrenValue], a segment made of
    an element with [if], elements with [else-if] and at most one element
    with [else] leaves exactly one entry in the returned list, whatever
    stands before and after it: its head.  Following [next] from the head
    visits the elements of the segment in document order. *)
Theorem parseJSXChildrenValue_links_chain
  (env : Env) (source : string) (fuel_rec fuel : nat) (tag : string) (type : ASTTypes)
  (isTextTag : bool) (loc : SourceLocation) (s0 s s' s'' : Cursor)
  (pre es tail post : list ASTNode) (h : ASTNode) (children : list ASTNode) :
  skipWhitespaceBetweenTags env source fuel (endTagOf tag type) true s0 = Ok tt s ->
  siblings source
    (parseJSXChild env source (parse env source fuel_rec) (scanJSX env source fuel_rec)
       fuel (endTagOf tag type) isTextTag)
    (endTagOf tag type) s (pre ++ h :: es ++ tail ++ post) s' ->
  loopEnds source (endTagOf tag type) s' ->
  parseJSXChildrenValue env source (parse env source fuel_rec)
    (scanJSX env source fuel_rec) fuel tag type false isTextTag loc s0
  = Ok children s'' ->
  classify env h = IfElement ->
  Forall (fun e => classify env e = ElseIfElement) es ->
  closes env tail ->
  exists before d head after,
    linkAll env pre [] None = inr (before, d)
    /\ children = before ++ head :: after
    /\ (length after <= length post)%nat
    /\ chainTake env (length (h :: es ++ tail)) head
       = map (detach env) (h :: es ++ tail).
Proof.
  intros Hskip Hsib Hend Hparse Hh Hes Htail.
  eapply parseJSXChildrenValue_links_linkable; eauto.
  pose proof (siblings_typed env source _ _ (scanJSX_typed env source fuel_rec)
                _ _ _ _ _ _ Hsib) as Htyped.
  apply List.Forall_app in Htyped. destruct Htyped as [_ Htyped].
  inversion Htyped as [|? ? Hth Htrest]; subst.
  apply List.Forall_app in Htrest. destruct Htrest as [Htes _].
  constructor.
  - apply nodeTyped_linkable; [exact Hth | congruence].
  - rewrite Stdlib.Lists.List.Forall_forall in *. intros e He.
    apply nodeTyped_linkable; [apply Htes; exact He|].
    rewrite (Hes e He). discriminate.
Qed.

(** C2, as the code has it.  Outside a production build, the first child of
    a child list that carries [else-if] or [else] (and no [if]) while no
    chain is open makes [parseJSXChildrenValue] fail with a parse error at
    the location of that child. *)
Theorem parseJSXChildrenValue_orphan_error
  (env : Env) (source : string) (parse_rec : bool -> Z -> M (list ASTNode))
  (scanJSX_rec : M ASTNode) (fuel : nat) (tag : string) (type : ASTTypes)
  (isTextTag : bool) (loc : SourceLocation) (s0 s s' : Cursor)
  (cs : list ASTNode) (c : ASTNode) :
  String.eqb (NODE_ENV env) "production" = false ->
  skipWhitespaceBetweenTags env source fuel (endTagOf tag type) true s0 = Ok tt s ->
  siblings source
    (parseJSXChild env source parse_rec scanJSX_rec fuel (endTagOf tag type) isTextTag)
    (endTagOf tag type) s cs s' ->
  firstOrphan env false cs = Some c ->
  (length cs <= fuel)%nat ->
  parseJSXChildrenValue env source parse_rec scanJSX_rec fuel tag type false isTextTag
    loc s0 = Throw (ParseError (orphanMessage env c) (nodeLoc c)).
Proof.
  intros Hdev Hskip Hsib Horphan Hfuel.
  unfold parseJSXChildrenValue. cbv zeta iota.
  apply bind_Throw_eq.
  rewrite (bind_Ok_eq _ _ _ _ _ Hskip).
  eapply childrenLoop_Throw; [exact Hsib | | exact Hfuel].
  apply (linkAll_firstOrphan env c Hdev cs [] None). exact Horphan.
Qed.

(** *** The two theorems on a concrete child list *)

(** The children of [<p>] in the source below: a chain of three elements
    followed by an element without directive. *)
Definition chainSource : string :=
  "<p><div v-if={a}>A</div> <span v-else-if={b}>C</span><div v-else>B</div><i></i></p>".

Definition chainChild : M ASTNode :=
  parseJSXChild Sample.development chainSource
    (parse Sample.development chainSource 100) (scanJSX Sample.development chainSource 100)
    100 "</p>" false.

(** The cursor after [<p>]. *)
Definition chainStart : Cursor := mkCursor 3 1 4.

Definition chainRun : option (list ASTNode * Cursor) :=
  Eval vm_compute in readSiblings chainSource chainChild "</p>" 10 chainStart.

Definition chainSiblings : list ASTNode :=
  match chainRun with Some (cs, _) => cs | None => [] end.

Definition chainEnd : Cursor :=
  match chainRun with Some (_, s) => s | None => chainStart end.

Definition chainNth (i : nat) : ASTNode := nth i chainSiblings (ASTNone (mkLoc 0 0)).

Definition chainParsed : Outcome (list ASTNode) :=
  Eval vm_compute in
    parseJSXChildrenValue Sample.development chainSource
      (parse Sample.development chainSource 100) (scanJSX Sample.development chainSource 100)
      100 "p" JSXCommonElement false false (mkLoc 1 2) chainStart.

Definition chainChildren : list ASTNode :=
  match chainParsed with Ok children _ => children | _ => [] end.

Definition chainParsedEnd : Cursor :=
  match chainParsed with Ok _ s => s | _ => chainStart end.

Lemma chainRun_siblings :
  siblings chainSource chainChild "</p>" chainStart chainSiblings chainEnd
  /\ loopEnds chainSource "</p>" chainEnd.
Proof.
  apply (readSiblings_sound chainSource chainChild "</p>" 10).
  vm_compute. reflexivity.
Qed.

Lemma parseJSXChildrenValue_links_chain_witness :
  exists before d head after,
    linkAll Sample.development [] [] None = inr (before, d)
    /\ chainChildren = before ++ head :: after
    /\ (length after <= 1)%nat
    /\ chainTake Sample.development 3 head
       = map (detach Sample.development) [chainNth 0; chainNth 1; chainNth 2].
Proof.
  apply (parseJSXChildrenValue_links_chain Sample.development chainSource
           100 100 "p" JSXCommonElement false (mkLoc 1 2)
           chainStart chainStart chainEnd chainParsedEnd
           [] [chainNth 1] [chainNth 2] [chainNth 3] (chainNth 0) chainChildren).
  - vm_compute. reflexivity.
  - exact (proj1 chainRun_siblings).
  - exact (proj2 chainRun_siblings).
  - vm_compute. reflexivity.
  - vm_compute. reflexivity.
  - repeat constructor.
  - right. exists (chainNth 2). split; [reflexivity | vm_compute; reflexivity].
Defined.

(** A child list that opens with an [else] element. *)
Definition orphanSource : string := "<p><div v-else>B</div></p>".

Definition orphanChild : M ASTNode :=
  parseJSXChild Sample.development orphanSource
    (parse Sample.development orphanSource 100) (scanJSX Sample.development orphanSource 100)
    100 "</p>" false.

Definition orphanRun : option (list ASTNode * Cursor) :=
  Eval vm_compute in readSiblings orphanSource orphanChild "</p>" 10 chainStart.

Definition orphanSiblings : list ASTNode :=
  match orphanRun with Some (cs, _) => cs | None => [] end.

Definition orphanEnd : Cursor :=
  match orphanRun with Some (_, s) => s | None => chainStart end.

Lemma orphanRun_siblings :
  siblings orphanSource orphanChild "</p>" chainStart orphanSiblings orphanEnd.
Proof.
  apply (readSiblings_sound orphanSource orphanChild "</p>" 10).
  vm_compute. reflexivity.
Qed.

Lemma parseJSXChildrenValue_orphan_error_witness :
  parseJSXChildrenValue Sample.development orphanSource
    (parse Sample.development orphanSource 100) (scanJSX Sample.development orphanSource 100)
    100 "p" JSXCommonElement false false (mkLoc 1 2) chainStart
  = Throw (ParseError "'v-else' must be lead with 'v-if' or 'v-else-if'" (mkLoc 1 5)).
Proof.
  apply (parseJSXChildrenValue_orphan_error Sample.development orphanSource
           (parse Sample.development orphanSource 100)
           (scanJSX Sample.development orphanSource 100)
           100 "p" JSXCommonElement false (mkLoc 1 2)
           chainStart chainStart orphanEnd orphanSiblings
           (nth 0 orphanSiblings (ASTNone (mkLoc 0 0)))).
  - reflexivity.
  - vm_compute. reflexivity.
  - exact orphanRun_siblings.
  - vm_compute. reflexivity.
  - vm_compute. lia.
Defined.

(** C2 as stated fails.  In a production build the check is compiled out and
    the orphan makes the parser fail with a [TypeError], which carries no
    location; and in every build an [else] element is accepted behind an
    element without directive when an [if] element stands further before. *)
Lemma orphan_not_always_a_parse_error :
  Parser Sample.production "<p><div v-else>B</div></p>" 100
  = Throw (Parser.TypeError "Cannot set properties of null (setting 'next')")
  /\ (exists ast s,
        Parser Sample.development "<p><i v-if={a}></i><b></b><i v-else></i></p>" 100
        = Ok ast s).
Proof.
  split.
  - vm_compute. reflexivity.
  - eexists. eexists. vm_compute. reflexivity.
Qed.

(** ** Where [parse] stops *)

Section ParseExit.

Variable env : Env.
Variable source : string.
Variable parse_rec : bool -> Z -> M (list ASTNode).
Variable scanJSX_rec : M ASTNode.

(** [scanJS] makes [braces.count] negative only where the closing delimiter
    stands. *)
Lemma scanJSLoop_count (fuel : nat) (isRoot : bool) (spaces : Z) :
  forall v s v' s',
    scanJSLoop env source fuel isRoot spaces v s = Ok v' s' ->
    0 <= count v ->
    0 <= count v' \/ isExpect source (snd (delimiters env)) s' = true.
Proof.
  induction fuel as [|fuel IH]; intros v s v' s' H Hv; simpl in H; [discriminate|].
  destruct (index s <? srcLength source).
  - inv_ok H. inv_ok H. rename a0 into literal. inv_ok H. inv_ok Hm1.
    destruct literal.
    { inv_ok H. eapply IH; eauto. }
    destruct (isTagStart source s1). { inv_ok H. left. exact Hv. }
    destruct (isRoot && isJSImport source s1). { inv_ok H. left. exact Hv. }
    destruct (String.eqb (char source s1) newline).
    { inv_ok H. inv_ok H. eapply IH; eauto. }
    destruct (newLine v && String.eqb (char source s1) " ").
    { inv_ok H. eapply IH; eauto.
      destruct (negb (spacesRemain v =? 0)); exact Hv. }
    destruct (String.eqb (char source s1) "{").
    { inv_ok H. eapply IH; eauto. simpl. lia. }
    destruct ((0 <? count v) && String.eqb (char source s1) "}") eqn:Eclose.
    { inv_ok H. eapply IH; eauto. simpl.
      apply andb_true_iff in Eclose. destruct Eclose as [Hpos _].
      apply Z.ltb_lt in Hpos. lia. }
    destruct (isExpect source (snd (delimiters env)) s1) eqn:Edelim.
    { inv_ok H. right. exact Edelim. }
    inv_ok H. eapply IH; eauto.
  - injection H as <- <-. left. exact Hv.
Qed.

Lemma advance_count (fuel : nat) (braces : Z) (isRoot : bool) (spaces : Z)
  (s s' : Cursor) (node : ASTNode) (braces' : Z) :
  advance env source parse_rec scanJSX_rec fuel braces isRoot spaces s
  = Ok (node, braces') s' ->
  0 <= braces ->
  0 <= braces' \/ isExpect source (snd (delimiters env)) s' = true.
Proof.
  unfold advance. intros H Hb.
  destruct (isRoot && isJSImport source s).
  - inv_ok H. inv_ok H. left. exact Hb.
  - destruct (negb (String.eqb (char source s) "<")).
    + unfold scanJS in H. inv_ok H. inv_ok H. inv_ok Hm0. inv_ok H.
      eapply scanJSLoop_count in Hm; [exact Hm | exact Hb].
    + inv_ok H. inv_ok H. left. exact Hb.
Qed.

(** When [parse] returns, the input is exhausted or the closing delimiter is
    next. *)
Lemma parseLoop_exit (fuel : nat) (isRoot : bool) (spaces : Z) :
  forall nodes braces s result s',
    parseLoop env source parse_rec scanJSX_rec fuel isRoot spaces nodes braces s
    = Ok result s' ->
    (0 <= braces \/ isExpect source (snd (delimiters env)) s = true) ->
    srcLength source <= index s' \/ isExpect source (snd (delimiters env)) s' = true.
Proof.
  induction fuel as [|fuel IH]; intros nodes braces s result s' H Hb; simpl in H;
    [discriminate|].
  destruct ((index s <? srcLength source) && (0 <=? braces)) eqn:Eguard.
  - apply andb_true_iff in Eguard. destruct Eguard as [_ Hpos].
    apply Z.leb_le in Hpos.
    inv_ok H. destruct a as [node braces'].
    eapply IH; [exact H|].
    eapply advance_count; eauto.
  - injection H as <- <-.
    apply andb_false_iff in Eguard. destruct Eguard as [Hlen|Hneg].
    + left. apply Z.ltb_ge. exact Hlen.
    + destruct Hb as [Hb|Hb]; [|right; exact Hb].
      apply Z.leb_gt in Hneg. lia.
Qed.

End ParseExit.

Lemma parse_exit (env : Env) (source : string) (fuel : nat) (isRoot : bool)
  (spaces : Z) (s s' : Cursor) (result : list ASTNode) :
  parse env source fuel isRoot spaces s = Ok result s' ->
  srcLength source <= index s' \/ isExpect source (snd (delimiters env)) s' = true.
Proof.
  destruct fuel as [|fuel]; simpl; [discriminate|].
  unfold parseBody. intros H.
  eapply parseLoop_exit; [exact H | left; lia].
Qed.

(** Nothing is expected successfully at the end of the input. *)
Lemma isExpect_at_end (source : string) (expect : string) (s : Cursor) :
  expect <> "" ->
  srcLength source <= index s ->
  isExpect source expect s = false.
Proof.
  intros Hne Hend. unfold isExpect, isExpectAt, jsSlice.
  unfold srcLength, strLen in Hend.
  assert (Hlen : 0 <= strLen expect) by (unfold strLen; lia).
  set (n := Z.of_nat (String.length source)) in *.
  assert (Hn : 0 <= n) by (unfold n; lia).
  destruct (index s <? 0) eqn:E1; [apply Z.ltb_lt in E1; lia|].
  destruct (index s + strLen expect <? 0) eqn:E2; [apply Z.ltb_lt in E2; lia|].
  replace (Z.min (index s) n) with n by lia.
  replace (Z.min (index s + strLen expect) n) with n by lia.
  rewrite Z.ltb_irrefl.
  destruct expect; [congruence | reflexivity].
Qed.

(** C8, as the code has it.  When the body of an expression is read without
    another error, the closing delimiter is missing exactly when the input
    is exhausted, and [parseJSXExpression] then raises [Unclosed delimiter]
    at the location of the opening delimiter. *)
Theorem parseJSXExpression_unclosed_delimiter
  (env : Env) (source : string) (fuel_rec fuel : nat) (s s1 : Cursor)
  (type : ASTTypes) (value : list ASTNode) :
  snd (delimiters env) <> "" ->
  expressionBody env source (parse env source fuel_rec) fuel s = Ok (type, value) s1 ->
  (isExpect source (snd (delimiters env)) s1 = false <-> srcLength source <= index s1)
  /\ (srcLength source <= index s1 ->
      parseJSXExpression env source (parse env source fuel_rec) fuel s
      = Throw (ParseError "Unclosed delimiter" (getLocation s))).
Proof.
  intros Hne Hbody. split; [split|].
  - intros Hno. unfold expressionBody in Hbody.
    repeat inv_step.
    match goal with
    | H : (if isExpect source (snd (delimiters env)) ?x then _ else _) _ = Ok _ _ |- _ =>
        destruct (isExpect source (snd (delimiters env)) x) eqn:Eclosed;
        [ inv_ok H; congruence
        | apply parse_exit in H; destruct H as [Hend|Hexp]; [exact Hend | congruence] ]
    end.
  - apply isExpect_at_end. exact Hne.
  - intros Hend. unfold parseJSXExpression.
    rewrite (bind_Ok_eq _ _ _ _ _ Hbody).
    apply bind_Throw_eq. unfold expect.
    rewrite (isExpect_at_end source _ s1 Hne Hend). reflexivity.
Qed.

(** The expression of [<div>{ a + 1], from its opening delimiter. *)
Lemma parseJSXExpression_unclosed_delimiter_witness :
  parseJSXExpression Sample.development "<div>{ a + 1"
    (parse Sample.development "<div>{ a + 1" 30) 30 (mkCursor 5 1 6)
  = Throw (ParseError "Unclosed delimiter" (mkLoc 1 6)).
Proof.
  refine (proj2 (parseJSXExpression_unclosed_delimiter Sample.development
                   "<div>{ a + 1" 30 30 (mkCursor 5 1 6) (mkCursor 12 1 13)
                   JSXExpression [ASTJS ["a + 1"] 0 (mkLoc 1 8)] _ _) _).
  - discriminate.
  - vm_compute. reflexivity.
  - vm_compute. discriminate.
Defined.

(** C8 as stated fails: an expression that is never closed may fail earlier,
    inside its body, with another error at another place.  An unclosed
    quote is reported at the quote, and an unfinished tag at the end of the
    input. *)
Lemma unclosed_expression_other_errors :
  parseJSXExpression Sample.development "<div>{ 'abc"
    (parse Sample.development "<div>{ 'abc" 30) 30 (mkCursor 5 1 6)
  = Throw (ParseError "Unclosed quote" (mkLoc 1 8))
  /\ parseJSXExpression Sample.development "<div>{<div"
       (parse Sample.development "<div>{<div" 30) 30 (mkCursor 5 1 6)
     = Throw (ParseError "Expect string >" (mkLoc 1 11))
  /\ getLocation (mkCursor 5 1 6) = mkLoc 1 6.
Proof.
  split; [|split]; vm_compute; reflexivity.
Qed.

(** ** Expressions with a plain body *)

(** A position at which [scanJS] only moves on: no quote, no slash, no [<],
    and not the first character of the closing delimiter. *)
Definition plainAt (env : Env) (source : string) (i : Z) : bool :=
  let ch := charAt source i in
  negb (String.eqb ch "'" || String.eqb ch dquote || String.eqb ch "`")
  && negb (String.eqb ch "/")
  && negb (String.eqb ch "<")
  && negb (String.eqb ch (jsCharAt (snd (delimiters env)) 0)).

(** Every position from [i] to the end of the input is plain. *)
Definition plainFrom (env : Env) (source : string) (i : Z) : bool :=
  forallb (fun k => plainAt env source (i + Z.of_nat k))
          (seq 0 (Z.to_nat (srcLength source - i))).

Lemma substring_head (str : string) :
  forall (n m : nat) (c : ascii) (r : string),
    substring n (S m) str = String c r -> substring n 1 str = String c "".
Proof.
  induction str as [|a str IH]; intros n m c r H.
  - destruct n; discriminate.
  - destruct n as [|n]; simpl in *.
    + injection H as -> _. destruct str; reflexivity.
    + eapply IH; eauto.
Qed.

(** What is expected successfully starts with the character at the cursor. *)
Lemma isExpectAt_char (source expect : string) (i : Z) :
  expect <> "" -> 0 <= i -> isExpectAt source expect i = true ->
  charAt source i = jsCharAt expect 0.
Proof.
  intros Hne Hi H. unfold isExpectAt in H. apply String.eqb_eq in H.
  destruct expect as [|c e]; [congruence|]. clear Hne.
  unfold jsSlice in H. unfold strLen in H.
  set (n := Z.of_nat (String.length source)) in *.
  set (l := Z.of_nat (String.length (String c e))) in *.
  assert (Hl : 0 < l) by (unfold l; simpl; lia).
  assert (Hn : 0 <= n) by (unfold n; lia).
  destruct (i <? 0) eqn:E1; [apply Z.ltb_lt in E1; lia|].
  destruct (i + l <? 0) eqn:E2; [apply Z.ltb_lt in E2; lia|].
  destruct (Z.min i n <? Z.min (i + l) n) eqn:E3; [|discriminate].
  apply Z.ltb_lt in E3.
  assert (Hin : i < n) by lia.
  replace (Z.min i n) with i in H by lia.
  destruct (Z.to_nat (Z.min (i + l) n - i)) as [|m] eqn:Em; [lia|].
  apply substring_head in H.
  unfold charAt, jsCharAt. fold n.
  replace (0 <=? i) with true by (symmetry; apply Z.leb_le; lia).
  replace (i <? n) with true by (symmetry; apply Z.ltb_lt; lia).
  simpl. rewrite H. destruct e; reflexivity.
Qed.

Lemma charAt_at_end (source : string) (i : Z) :
  srcLength source <= i -> charAt source i = "".
Proof.
  intros H. unfold charAt, jsCharAt. unfold srcLength, strLen in H.
  replace (i <? Z.of_nat (String.length source)) with false
    by (symmetry; apply Z.ltb_ge; lia).
  rewrite andb_false_r. reflexivity.
Qed.

Lemma length_substring_le (str : string) :
  forall n m : nat, (String.length (substring n m str) <= m)%nat.
Proof.
  induction str as [|a str IH]; intros n m.
  - destruct n, m; simpl; lia.
  - destruct n as [|n]; [destruct m as [|m]|]; simpl.
    + lia.
    + specialize (IH 0%nat m). lia.
    + apply IH.
Qed.

(** What is expected successfully lies inside the input. *)
Lemma isExpectAt_bound (source expect : string) (i : Z) :
  expect <> "" -> 0 <= i -> isExpectAt source expect i = true ->
  i + strLen expect <= srcLength source.
Proof.
  intros Hne Hi H. unfold isExpectAt in H. apply String.eqb_eq in H.
  unfold jsSlice in H. unfold srcLength, strLen in *.
  set (n := Z.of_nat (String.length source)) in *.
  set (l := Z.of_nat (String.length expect)) in *.
  assert (Hl : 0 <= l) by (unfold l; lia).
  assert (Hn : 0 <= n) by (unfold n; lia).
  destruct (i <? 0) eqn:E1; [apply Z.ltb_lt in E1; lia|].
  destruct (i + l <? 0) eqn:E2; [apply Z.ltb_lt in E2; lia|].
  destruct (Z.min i n <? Z.min (i + l) n) eqn:E3; [|congruence].
  apply Z.ltb_lt in E3.
  pose proof (length_substring_le source (Z.to_nat (Z.min i n))
                (Z.to_nat (Z.min (i + l) n - Z.min i n))) as Hlen.
  rewrite H in Hlen. fold l in Hlen. unfold l in *. lia.
Qed.

Section PlainBody.

Variable env : Env.
Variable source : string.

Hypothesis closing : snd (delimiters env) <> "".

Lemma plainFrom_at (i j : Z) :
  plainFrom env source i = true -> i <= j -> j < srcLength source ->
  plainAt env source j = true.
Proof.
  intros H Hij Hj. unfold plainFrom in H.
  rewrite forallb_forall in H.
  specialize (H (Z.to_nat (j - i))).
  replace (i + Z.of_nat (Z.to_nat (j - i))) with j in H by lia.
  apply H. apply in_seq. lia.
Qed.

Lemma plainFrom_later (i j : Z) :
  plainFrom env source i = true -> i <= j -> plainFrom env source j = true.
Proof.
  intros H Hij. unfold plainFrom. apply forallb_forall. intros k Hk.
  apply in_seq in Hk.
  apply (plainFrom_at i); [exact H | lia | lia].
Qed.

Lemma plainAt_not_slash (j : Z) :
  plainAt env source j = true -> String.eqb (charAt source j) "/" = false.
Proof.
  unfold plainAt. intros H.
  repeat (apply andb_true_iff in H; destruct H as [H ?]).
  apply negb_true_iff. assumption.
Qed.

Lemma plainAt_not_tag (j : Z) :
  plainAt env source j = true -> isTagStartAt source j = false.
Proof.
  unfold plainAt, isTagStartAt. intros H.
  repeat (apply andb_true_iff in H; destruct H as [H ?]).
  replace (String.eqb (charAt source j) "<") with false
    by (symmetry; apply negb_true_iff; assumption).
  reflexivity.
Qed.

Lemma plainAt_not_closing (j : Z) :
  plainAt env source j = true -> 0 <= j ->
  isExpectAt source (snd (delimiters env)) j = false.
Proof.
  intros H Hj.
  destruct (isExpectAt source (snd (delimiters env)) j) eqn:E; [|reflexivity].
  apply isExpectAt_char in E; [|exact closing|exact Hj].
  unfold plainAt in H.
  repeat (apply andb_true_iff in H; destruct H as [H ?]).
  rewrite E, String.eqb_refl in *. discriminate.
Qed.

(** No slash stands at a cursor in the plain part, also at its end. *)
Lemma plain_char_not_slash (i : Z) (s : Cursor) :
  plainFrom env source i = true -> i <= index s ->
  String.eqb (char source s) "/" = false.
Proof.
  intros H Hi. unfold char.
  destruct (Z.lt_ge_cases (index s) (srcLength source)) as [Hlt|Hge].
  - apply plainAt_not_slash. apply (plainFrom_at i); assumption.
  - rewrite charAt_at_end by exact Hge. reflexivity.
Qed.

Lemma skipJSComment_plain (fuel : nat) (s : Cursor) :
  (1 <= fuel)%nat ->
  String.eqb (char source s) "/" = false ->
  skipJSComment source fuel s = Ok tt s.
Proof.
  intros Hfuel H. destruct fuel as [|fuel]; [lia|].
  simpl. rewrite H. unfold Parser.bind, Parser.ret, get.
  rewrite Z.eqb_refl. reflexivity.
Qed.

Lemma startsLiteral_plain (fuel : nat) (s : Cursor) :
  plainAt env source (index s) = true ->
  startsLiteral env source fuel s = Ok false s.
Proof.
  unfold plainAt, startsLiteral, char. intros H.
  repeat (apply andb_true_iff in H; destruct H as [H ?]).
  apply negb_true_iff in H. rewrite H.
  replace (String.eqb (charAt source (index s)) "/") with false
    by (symmetry; apply negb_true_iff; assumption).
  reflexivity.
Qed.

(** Over a plain rest of the input [scanJS] reads to the end: every branch
    of its loop that is left moves the cursor by one. *)
Lemma scanJSLoop_plain (spaces : Z) (n : nat) :
  forall (fuel : nat) (v : ScanJSState) (s : Cursor),
    srcLength source - index s <= Z.of_nat n ->
    (n + 2 <= fuel)%nat ->
    0 <= index s ->
    plainFrom env source (index s) = true ->
    exists v' s',
      scanJSLoop env source fuel false spaces v s = Ok v' s'
      /\ srcLength source <= index s'.
Proof.
  induction n as [|n IH]; intros fuel v s Hn Hfuel Hi Hplain;
    (destruct fuel as [|fuel]; [lia|]); cbn [scanJSLoop].
  - replace (index s <? srcLength source) with false
      by (symmetry; apply Z.ltb_ge; lia).
    exists v, s. split; [reflexivity | lia].
  - destruct (index s <? srcLength source) eqn:Elt.
    2:{ exists v, s. split; [reflexivity | apply Z.ltb_ge; exact Elt]. }
    apply Z.ltb_lt in Elt.
    assert (Hat : plainAt env source (index s) = true)
      by (apply (plainFrom_at (index s)); [assumption | lia | assumption]).
    rewrite (bind_Ok_eq _ _ _ _ _
               (skipJSComment_plain fuel s ltac:(lia) (plainAt_not_slash _ Hat))).
    rewrite (bind_Ok_eq _ _ _ _ _ (startsLiteral_plain fuel s Hat)).
    rewrite (bind_Ok_eq get _ s s s eq_refl).
    unfold isTagStart, isExpect.
    rewrite (plainAt_not_tag _ Hat), (plainAt_not_closing _ Hat Hi).
    cbn [andb].
    repeat match goal with
           | |- context [if ?c then _ else _] => destruct c
           end;
      unfold Parser.bind, updateLine, updateIndex; cbn [index line column];
      apply IH; cbn [index]; try lia;
      (apply (plainFrom_later (index s)); [assumption | lia]).
Qed.

Lemma skipWhitespace_total (n : nat) :
  forall (fuel : nat) (s : Cursor),
    srcLength source - index s <= Z.of_nat n ->
    (n < fuel)%nat ->
    exists s',
      skipWhitespace env source fuel s = Ok tt s'
      /\ index s <= index s' <= Z.max (index s) (srcLength source)
      /\ (index s' < srcLength source -> isWhiteSpace env (charCode source s') = false).
Proof.
  induction n as [|n IH]; intros fuel s Hn Hfuel;
    (destruct fuel as [|fuel]; [lia|]); cbn [skipWhitespace].
  - replace (index s <? srcLength source) with false
      by (symmetry; apply Z.ltb_ge; lia).
    exists s. split; [reflexivity | split; lia].
  - destruct (index s <? srcLength source) eqn:Elt.
    2:{ apply Z.ltb_ge in Elt. exists s. split; [reflexivity | split; lia]. }
    apply Z.ltb_lt in Elt.
    destruct (isWhiteSpace env (charCode source s)) eqn:Ews; cbn [negb].
    2:{ exists s. split; [reflexivity | split; [lia | intros _; exact Ews]]. }
    destruct (codeIs (charCode source s) 10);
      unfold Parser.bind, updateLine, updateIndex, Parser.ret; cbn [index line column];
      match goal with
      | |- exists s', skipWhitespace _ _ _ ?c = _ /\ _ =>
          destruct (IH fuel c) as (s' & H1 & H2 & H3); [cbn [index]; lia | lia |];
          exists s'; split; [exact H1 | split; [cbn [index] in H2; lia | exact H3]]
      end.
Qed.

Lemma skipWhitespace_stay (fuel : nat) (s : Cursor) :
  (1 <= fuel)%nat ->
  (index s < srcLength source -> isWhiteSpace env (charCode source s) = false) ->
  skipWhitespace env source fuel s = Ok tt s.
Proof.
  intros Hfuel H. destruct fuel as [|fuel]; [lia|]. cbn [skipWhitespace].
  destruct (index s <? srcLength source) eqn:Elt; [|reflexivity].
  rewrite H by (apply Z.ltb_lt; exact Elt). reflexivity.
Qed.

Lemma skipWhitespaceAndJSComment_plain (fuel : nat) (s : Cursor) (i : Z) :
  plainFrom env source i = true -> i <= index s ->
  (Z.to_nat (srcLength source - index s) + 3 <= fuel)%nat ->
  exists s',
    skipWhitespaceAndJSComment env source fuel s = Ok tt s'
    /\ index s <= index s' <= Z.max (index s) (srcLength source).
Proof.
  intros Hplain Hi Hfuel.
  destruct fuel as [|fuel]; [lia|]. cbn [skipWhitespaceAndJSComment].
  destruct (skipWhitespace_total (Z.to_nat (srcLength source - index s)) fuel s)
    as (s1 & H1 & H2 & H3); [lia | lia |].
  assert (Hslash : String.eqb (char source s1) "/" = false)
    by (apply (plain_char_not_slash i); [exact Hplain | lia]).
  rewrite (bind_Ok_eq _ _ _ _ _ H1).
  rewrite (bind_Ok_eq _ _ _ _ _ (skipJSComment_plain fuel s1 ltac:(lia) Hslash)).
  rewrite (bind_Ok_eq get _ s1 s1 s1 eq_refl).
  destruct (negb (index s =? index s1)).
  - destruct fuel as [|fuel]; [lia|]. cbn [skipWhitespaceAndJSComment].
    rewrite (bind_Ok_eq _ _ _ _ _ (skipWhitespace_stay fuel s1 ltac:(lia) H3)).
    rewrite (bind_Ok_eq _ _ _ _ _ (skipJSComment_plain fuel s1 ltac:(lia) Hslash)).
    rewrite (bind_Ok_eq get _ s1 s1 s1 eq_refl).
    rewrite Z.eqb_refl. cbn [negb].
    exists s1. split; [reflexivity | lia].
  - exists s1. split; [reflexivity | lia].
Qed.

Lemma firstSpaceStart_total (n : nat) :
  forall (fuel : nat) (start : Z) (hasSet : bool) (_start : Z),
    0 <= start <= Z.of_nat n ->
    (n < fuel)%nat ->
    exists r, firstSpaceStart source fuel start hasSet _start = Some r.
Proof.
  induction n as [|n IH]; intros fuel start hasSet _start Hstart Hfuel;
    (destruct fuel as [|fuel]; [lia|]); cbn [firstSpaceStart].
  - replace start with 0 by lia. rewrite Z.eqb_refl, orb_true_r. eauto.
  - destruct (String.eqb (charAt source start) newline || (start =? 0)) eqn:E; [eauto|].
    apply orb_false_iff in E. destruct E as [_ E]. apply Z.eqb_neq in E.
    destruct (String.eqb (charAt source start) " "); [destruct (negb hasSet)|];
      apply IH; lia.
Qed.

(** [parse] reads a plain rest of the input as one JS node, to the end. *)
Lemma parse_plain (fuel : nat) (spaces : Z) (s : Cursor) :
  0 <= index s ->
  plainFrom env source (index s) = true ->
  (String.length source + 4 <= fuel)%nat ->
  exists value s',
    parse env source fuel false spaces s = Ok value s'
    /\ srcLength source <= index s'.
Proof.
  intros Hi Hplain Hfuel.
  destruct fuel as [|fuel]; [lia|]. cbn [parse]. unfold parseBody.
  destruct fuel as [|fuel]; [lia|]. cbn [parseLoop].
  destruct (index s <? srcLength source) eqn:Elt; cbn [andb].
  2:{ apply Z.ltb_ge in Elt. exists [], s. split; [reflexivity | exact Elt]. }
  apply Z.ltb_lt in Elt.
  assert (Hat : plainAt env source (index s) = true)
    by (apply (plainFrom_at (index s)); [assumption | lia | assumption]).
  replace (0 <=? 0) with true by reflexivity.
  destruct (scanJSLoop_plain spaces (Z.to_nat (srcLength source - index s)) fuel
              (mkScanJS [] (index s) spaces true 0 false 0) s)
    as (v' & s' & Hloop & Hend);
    [lia | unfold srcLength, strLen in *; lia | exact Hi | exact Hplain |].
  assert (Hadv : exists node braces',
             advance env source (parse env source (S fuel)) (scanJSX env source (S fuel))
               fuel 0 false spaces s = Ok (node, braces') s').
  { unfold advance. cbn [andb].
    unfold plainAt in Hat.
    repeat (apply andb_true_iff in Hat; destruct Hat as [Hat ?]).
    replace (negb (String.eqb (char source s) "<")) with true by (symmetry; assumption).
    unfold scanJS. rewrite (bind_Ok_eq _ _ _ _ _ Hloop).
    rewrite (bind_Ok_eq get _ s' s' s' eq_refl).
    eexists. eexists. reflexivity. }
  destruct Hadv as (node & braces' & Hadv).
  rewrite (bind_Ok_eq _ _ _ _ _ Hadv).
  destruct fuel as [|fuel]; [lia|]. cbn [parseLoop].
  replace (index s' <? srcLength source) with false
    by (symmetry; apply Z.ltb_ge; exact Hend).
  cbn [andb]. eexists. eexists. split; [reflexivity | exact Hend].
Qed.

(** X4. An expression whose body is plain up to the end of the input is
    read to the end, and [parseJSXExpression] raises [Unclosed delimiter] at
    the location of the opening delimiter. *)
Theorem parseJSXExpression_plain_unclosed (fuel : nat) (s : Cursor) :
  fst (delimiters env) <> "" ->
  0 <= index s ->
  isExpect source (fst (delimiters env)) s = true ->
  plainFrom env source (index s + strLen (fst (delimiters env))) = true ->
  (String.length source + 4 <= fuel)%nat ->
  parseJSXExpression env source (parse env source fuel) fuel s
  = Throw (ParseError "Unclosed delimiter" (getLocation s)).
Proof.
  intros Hopening Hi Hopen Hplain Hfuel.
  pose proof (isExpectAt_bound source _ (index s) Hopening Hi Hopen) as Hbound.
  assert (Hl : 0 < strLen (fst (delimiters env))).
  { unfold strLen. destruct (fst (delimiters env)); [congruence | simpl; lia]. }
  set (i0 := index s + strLen (fst (delimiters env))) in *.
  assert (Htail : forall (type : ASTTypes) (col : Z) (s4 : Cursor),
             i0 <= index s4 ->
             exists value s',
               (let* s2 := get in
                let* value :=
                  (if isExpect source (snd (delimiters env)) s2 then Parser.ret []
                   else parse env source fuel false col) in
                Parser.ret (type, value)) s4 = Ok (type, value) s'
               /\ srcLength source <= index s').
  { intros type col s4 Hs4.
    rewrite (bind_Ok_eq get _ s4 s4 s4 eq_refl).
    assert (Hplain4 : plainFrom env source (index s4) = true)
      by (apply (plainFrom_later i0); assumption).
    assert (Hnot : isExpect source (snd (delimiters env)) s4 = false).
    { destruct (Z.lt_ge_cases (index s4) (srcLength source)) as [Hlt|Hge].
      - apply plainAt_not_closing; [|lia].
        apply (plainFrom_at i0); assumption.
      - apply isExpect_at_end; assumption. }
    rewrite Hnot.
    destruct (parse_plain fuel col s4) as (value & s' & Hparse & Hend);
      [lia | exact Hplain4 | exact Hfuel |].
    rewrite (bind_Ok_eq _ _ _ _ _ Hparse).
    exists value, s'. split; [reflexivity | exact Hend]. }
  assert (Hbody : exists type value s1,
             expressionBody env source (parse env source fuel) fuel s
             = Ok (type, value) s1
             /\ srcLength source <= index s1).
  { unfold expressionBody.
    assert (H0 : expect source (fst (delimiters env)) None None s
                 = Ok tt (mkCursor i0 (line s)
                            (column s + strLen (fst (delimiters env)))))
      by (unfold expect; rewrite Hopen; reflexivity).
    rewrite (bind_Ok_eq _ _ _ _ _ H0).
    destruct (skipWhitespaceAndJSComment_plain fuel
                (mkCursor i0 (line s) (column s + strLen (fst (delimiters env)))) i0)
      as (s2 & H2 & Hs2);
      [exact Hplain | cbn [index]; lia
      | cbn [index]; unfold srcLength, strLen in *; lia |].
    cbn [index] in Hs2.
    rewrite (bind_Ok_eq _ _ _ _ _ H2).
    destruct (firstSpaceStart_total (Z.to_nat (index s2 - 1)) fuel (index s2 - 1) false 0)
      as (r & Hr); [lia | unfold srcLength, strLen in *; lia |].
    assert (Hcol : getFirstSpaceColumn source fuel s2
                   = Ok (column s2 - (index s2 - r)) s2)
      by (unfold getFirstSpaceColumn; rewrite Hr; reflexivity).
    rewrite (bind_Ok_eq _ _ _ _ _ Hcol).
    rewrite (bind_Ok_eq get _ s2 s2 s2 eq_refl).
    destruct (isExpect source "=" s2) eqn:Eeq.
    - destruct (skipWhitespace_total
                  (Z.to_nat (srcLength source - (index s2 + 1))) fuel
                  (mkCursor (index s2 + 1) (line s2) (column s2 + 1)))
        as (s4 & H4 & Hs4 & _);
        [cbn [index]; lia | unfold srcLength, strLen in *; lia |].
      cbn [index] in Hs4.
      assert (Htype : (expect source "=" None None ;;
                       skipWhitespace env source fuel ;;
                       Parser.ret JSXUnescapeText) s2 = Ok JSXUnescapeText s4).
      { assert (Heq : expect source "=" None None s2
                      = Ok tt (mkCursor (index s2 + 1) (line s2) (column s2 + 1)))
          by (unfold expect; rewrite Eeq; reflexivity).
        rewrite (bind_Ok_eq _ _ _ _ _ Heq), (bind_Ok_eq _ _ _ _ _ H4).
        reflexivity. }
      rewrite (bind_Ok_eq _ _ _ _ _ Htype).
      destruct (Htail JSXUnescapeText (column s2 - (index s2 - r)) s4)
        as (value & s' & Hrest & Hend); [lia|].
      exists JSXUnescapeText, value, s'. split; assumption.
    - rewrite (bind_Ok_eq (Parser.ret JSXExpression) _ s2 s2 JSXExpression eq_refl).
      destruct (Htail JSXExpression (column s2 - (index s2 - r)) s2)
        as (value & s' & Hrest & Hend); [lia|].
      exists JSXExpression, value, s'. split; assumption. }
  destruct Hbody as (type & value & s1 & Hbody & Hend).
  unfold parseJSXExpression.
  rewrite (bind_Ok_eq _ _ _ _ _ Hbody).
  apply bind_Throw_eq. unfold expect.
  rewrite (isExpect_at_end source _ s1 closing Hend). reflexivity.
Qed.

End PlainBody.

(** The expression of [<div>{= a + (b - 1)], from its opening delimiter. *)
Lemma parseJSXExpression_plain_unclosed_witness :
  parseJSXExpression Sample.development "<div>{= a + (b - 1)"
    (parse Sample.development "<div>{= a + (b - 1)" 30) 30 (mkCursor 5 1 6)
  = Throw (ParseError "Unclosed delimiter" (mkLoc 1 6)).
Proof.
  apply (parseJSXExpression_plain_unclosed Sample.development "<div>{= a + (b - 1)"
           ltac:(discriminate) 30 (mkCursor 5 1 6)).
  - discriminate.
  - simpl. lia.
  - reflexivity.
  - vm_compute. reflexivity.
  - simpl. lia.
Defined.

(** X2. When [parse] returns, the input is exhausted or the closing
    delimiter is next: [braces.count] becomes negative only where [scanJS]
    meets the closing delimiter outside nested braces. *)
Theorem parse_stops_at_end_or_delimiter (env : Env) (source : string) (fuel : nat)
  (isRoot : bool) (spaces : Z) (s s' : Cursor) (result : list ASTNode) :
  parse env source fuel isRoot spaces s = Ok result s' ->
  srcLength source <= index s' \/ isExpect source (snd (delimiters env)) s' = true.
Proof. apply parse_exit. Qed.

(** The body of the expression of [{ f({a: 1}) } + 1], from its first
    character: the nested braces are passed, the closing delimiter stops
    the scan. *)
Lemma parse_stops_at_end_or_delimiter_witness :
  isExpect "{ f({a: 1}) } + 1" "}" (mkCursor 12 1 13) = true
  /\ (srcLength "{ f({a: 1}) } + 1" <= index (mkCursor 12 1 13)
      \/ isExpect "{ f({a: 1}) } + 1" (snd (delimiters Sample.development))
           (mkCursor 12 1 13) = true).
Proof.
  split; [reflexivity|].
  apply (parse_stops_at_end_or_delimiter Sample.development "{ f({a: 1}) } + 1" 30
           false 0 (mkCursor 2 1 3) (mkCursor 12 1 13)
           [ASTJS ["f({a: 1})"] 0 (mkLoc 1 3)]).
  vm_compute. reflexivity.
Defined.

(** The root list is not a child list: [parse] links nothing, and the
    root elements of [<div v-if={a}>A</div><div v-else>B</div>] are two
    nodes, the first with a null [next], the second carrying [else]. *)
Theorem root_conditionals_not_linked :
  exists first second s,
    Parser Sample.development "<div v-if={a}>A</div><div v-else>B</div>" 60
    = Ok [first; second] s
    /\ classify Sample.development first = IfElement
    /\ chainNext Sample.development first = None
    /\ classify Sample.development second = ElseElement.
Proof.
  eexists. eexists. eexists.
  split; [vm_compute; reflexivity|].
  repeat split.
Qed.

(** ** Termination of the parser *)

(** [holds o P]: the run [o] did not exhaust its fuel, and [P] holds of what
    it returned, if it returned. *)
Definition holds {A} (o : Outcome A) (P : A -> Cursor -> Prop) : Prop :=
  match o with
  | Ok a s' => P a s'
  | Throw _ => True
  | OutOfFuel => False
  end.

Lemma holds_bind {A B} (m : M A) (k : A -> M B) (s : Cursor)
  (Q : A -> Cursor -> Prop) (P : B -> Cursor -> Prop) :
  holds (m s) Q ->
  (forall a s', Q a s' -> holds (k a s') P) ->
  holds (Parser.bind m k s) P.
Proof.
  unfold Parser.bind. destruct (m s) as [a s'| |]; simpl; intros H Hk; auto.
Qed.

Lemma holds_weaken {A} (o : Outcome A) (Q P : A -> Cursor -> Prop) :
  holds o Q -> (forall a s', Q a s' -> P a s') -> holds o P.
Proof. destruct o; simpl; auto. Qed.

Lemma holds_Ok {A} (o : Outcome A) (P : A -> Cursor -> Prop) (a : A) (s' : Cursor) :
  holds o P -> o = Ok a s' -> P a s'.
Proof. intros H ->. exact H. Qed.

Lemma holds_fuel {A} (o : Outcome A) (P : A -> Cursor -> Prop) :
  holds o P -> o <> OutOfFuel.
Proof. intros H ->. exact H. Qed.

Lemma holds_expect (source str : string) (msg : option string)
  (loc : option SourceLocation) (s : Cursor) (P : unit -> Cursor -> Prop) :
  (isExpect source str s = true ->
   P tt (mkCursor (index s + strLen str) (line s) (column s + strLen str))) ->
  holds (expect source str msg loc s) P.
Proof.
  unfold expect. destruct (isExpect source str s); intros H.
  - apply H. reflexivity.
  - exact I.
Qed.

(** A character is read inside the input only. *)
Lemma char_inside (source : string) (s : Cursor) :
  char source s <> "" -> 0 <= index s < srcLength source.
Proof.
  unfold char, charAt, jsCharAt, srcLength, strLen. intros H.
  destruct (0 <=? index s) eqn:E1; [|simpl in H; congruence].
  destruct (index s <? Z.of_nat (String.length source)) eqn:E2; [|simpl in H; congruence].
  apply Z.leb_le in E1. apply Z.ltb_lt in E2. lia.
Qed.

Lemma char_eqb_inside (source : string) (s : Cursor) (c : string) :
  String.eqb (char source s) c = true -> c <> "" -> 0 <= index s < srcLength source.
Proof.
  intros H Hc. apply String.eqb_eq in H. apply char_inside. congruence.
Qed.

Section Termination.

Variable env : Env.
Variable source : string.

(** The number of characters from the cursor to the end of the input. *)
Definition remaining (s : Cursor) : Z := Z.max 0 (srcLength source - index s).

(** Fuel for the loops below a function whose calls nest [c] deep: the
    length of the input for the loops that go backwards, and twice what
    remains of it for those that go forwards, since [parse] may call
    [scanJS] once for a character read and once more for a brace counted. *)
Definition enough (fuel : nat) (s : Cursor) (c : Z) : Prop :=
  srcLength source + c + 2 * remaining s <= Z.of_nat fuel.

Lemma srcLength_nonneg : 0 <= srcLength source.
Proof. unfold srcLength, strLen. lia. Qed.

Lemma isExpect_inside (str : string) (s : Cursor) :
  str <> "" -> 0 <= index s -> isExpect source str s = true ->
  index s + strLen str <= srcLength source /\ 0 < strLen str.
Proof.
  intros Hne Hi H. split.
  - apply isExpectAt_bound; assumption.
  - unfold strLen. destruct str; [congruence | simpl; lia].
Qed.

Ltac arith :=
  unfold enough, remaining in *; cbn [index line column count] in *;
  pose proof srcLength_nonneg; lia.

Lemma skipWhitespace_holds (fuel : nat) :
  forall s,
    remaining s < Z.of_nat fuel ->
    holds (skipWhitespace env source fuel s)
      (fun _ s' => index s <= index s' <= Z.max (index s) (srcLength source)).
Proof.
  induction fuel as [|fuel IH]; intros s Hf; [arith|].
  cbn [skipWhitespace].
  destruct (index s <? srcLength source) eqn:E; [|simpl; lia].
  apply Z.ltb_lt in E.
  destruct (negb (isWhiteSpace env (charCode source s))); [simpl; lia|].
  destruct (codeIs (charCode source s) 10);
    unfold Parser.bind, updateLine, updateIndex, Parser.ret;
    (eapply holds_weaken; [apply IH; arith | cbv beta; intros _ s' Hs'; arith]).
Qed.

Lemma skipLineComment_holds (fuel : nat) :
  forall s,
    remaining s < Z.of_nat fuel ->
    holds (skipLineComment source fuel s)
      (fun _ s' => index s <= index s' <= Z.max (index s) (srcLength source)).
Proof.
  induction fuel as [|fuel IH]; intros s Hf; [arith|].
  cbn [skipLineComment].
  destruct (index s <? srcLength source) eqn:E; [|simpl; lia].
  apply Z.ltb_lt in E.
  destruct (codeIs (charCode source s) 10); [simpl; lia|].
  unfold Parser.bind, updateIndex.
  eapply holds_weaken; [apply IH; arith | cbv beta; intros _ s' Hs'; arith].
Qed.

Lemma skipBlockComment_holds (fuel : nat) :
  forall s,
    0 <= index s ->
    remaining s < Z.of_nat fuel ->
    holds (skipBlockComment source fuel s)
      (fun _ s' => index s <= index s' <= Z.max (index s) (srcLength source)).
Proof.
  induction fuel as [|fuel IH]; intros s Hi Hf; [arith|].
  cbn [skipBlockComment].
  destruct (index s <? srcLength source) eqn:E; [|simpl; lia].
  apply Z.ltb_lt in E.
  destruct (isExpect source "*/" s) eqn:Eend.
  - apply isExpect_inside in Eend; [|discriminate|exact Hi].
    change (strLen "*/") with 2 in Eend.
    unfold Parser.bind, updateIndex, Parser.ret. simpl. lia.
  - destruct (codeIs (charCode source s) 10);
      unfold Parser.bind, updateLine, updateIndex, Parser.ret;
      (eapply holds_weaken; [apply IH; arith | cbv beta; intros _ s' Hs'; arith]).
Qed.

Lemma charAt_inside (i : Z) (c : string) :
  String.eqb (charAt source i) c = true -> c <> "" -> 0 <= i < srcLength source.
Proof.
  intros H Hc. apply (char_eqb_inside source (mkCursor i 0 0) c); assumption.
Qed.

Lemma skipJSComment_holds (fuel : nat) :
  forall s,
    0 <= index s ->
    remaining s + 1 < Z.of_nat fuel ->
    holds (skipJSComment source fuel s)
      (fun _ s' => index s <= index s' <= Z.max (index s) (srcLength source)).
Proof.
  induction fuel as [|fuel IH]; intros s Hi Hf; [arith|].
  cbn [skipJSComment].
  eapply holds_bind with
    (Q := fun _ s' => index s <= index s' <= Z.max (index s) (srcLength source)).
  - destruct (String.eqb (char source s) "/") eqn:Eslash; [|simpl; lia].
    apply char_eqb_inside in Eslash; [|discriminate].
    destruct (String.eqb (charAt source (index s + 1)) "/") eqn:E1.
    { apply charAt_inside in E1; [|discriminate].
      unfold Parser.bind, updateIndex.
      eapply holds_weaken; [apply skipLineComment_holds; arith|].
      cbv beta. intros _ s' Hs'. arith. }
    destruct (String.eqb (charAt source (index s + 1)) "*") eqn:E2; [|simpl; lia].
    apply charAt_inside in E2; [|discriminate].
    unfold Parser.bind, updateIndex.
    eapply holds_weaken; [apply skipBlockComment_holds; arith|].
    cbv beta. intros _ s' Hs'. arith.
  - cbv beta. intros _ s1 Hs1.
    unfold Parser.bind at 1, get at 1.
    destruct (negb (index s =? index s1)) eqn:Emoved; [|simpl; lia].
    apply negb_true_iff, Z.eqb_neq in Emoved.
    eapply holds_weaken; [apply IH; arith|].
    cbv beta. intros _ s' Hs'. arith.
Qed.

Lemma skipWhitespaceAndJSComment_holds (fuel : nat) :
  forall s,
    0 <= index s ->
    remaining s + 2 < Z.of_nat fuel ->
    holds (skipWhitespaceAndJSComment env source fuel s)
      (fun _ s' => index s <= index s' <= Z.max (index s) (srcLength source)).
Proof.
  induction fuel as [|fuel IH]; intros s Hi Hf; [arith|].
  cbn [skipWhitespaceAndJSComment].
  eapply holds_bind; [apply skipWhitespace_holds; arith|].
  cbv beta. intros _ s1 Hs1.
  eapply holds_bind; [apply skipJSComment_holds; arith|].
  cbv beta. intros _ s2 Hs2.
  unfold Parser.bind at 1, get at 1.
  destruct (negb (index s =? index s2)) eqn:Emoved; [|simpl; lia].
  apply negb_true_iff, Z.eqb_neq in Emoved.
  eapply holds_weaken; [apply IH; arith|].
  cbv beta. intros _ s' Hs'. arith.
Qed.

(** The loops of [getLastCharCode] go backwards, at most to the start. *)
Lemma backOverSpaces_total (fuel : nat) :
  forall start,
    Z.max 0 (start + 1) < Z.of_nat fuel ->
    exists r, backOverSpaces env source fuel start = Some r
              /\ r <= start /\ (start < 0 -> r = start).
Proof.
  induction fuel as [|fuel IH]; intros start Hf; [lia|].
  cbn [backOverSpaces].
  destruct (0 <=? start) eqn:E; [|exists start; split; [reflexivity | lia]].
  apply Z.leb_le in E.
  destruct (negb (isWhiteSpaceExceptLinebreak env (charCodeAt source start)));
    [exists start; split; [reflexivity | lia]|].
  destruct (IH (start - 1)) as (r & Hr & Hle & _); [lia|].
  exists r. split; [exact Hr | lia].
Qed.

Lemma backToCommentStart_total (fuel : nat) :
  forall start,
    Z.max 0 (start + 1) < Z.of_nat fuel ->
    exists r, backToCommentStart source fuel start = Some r /\ r <= start.
Proof.
  induction fuel as [|fuel IH]; intros start Hf; [lia|].
  cbn [backToCommentStart].
  destruct (0 <=? start) eqn:E; [|exists start; split; [reflexivity | lia]].
  apply Z.leb_le in E.
  destruct (String.eqb (charAt source start) "*"
            && String.eqb (charAt source (start - 1)) "/");
    [exists (start - 2); split; [reflexivity | lia]|].
  destruct (IH (start - 1)) as (r & Hr & Hle); [lia|].
  exists r. split; [exact Hr | lia].
Qed.

Lemma backOverComment_total (fuel : nat) (start : Z) :
  Z.max 0 (start + 1) < Z.of_nat fuel ->
  exists r, backOverComment source fuel start = Some r
            /\ r <= start /\ (start < 0 -> r = start).
Proof.
  intros Hf. unfold backOverComment.
  destruct (0 <=? start) eqn:E; [|exists start; split; [reflexivity | lia]].
  apply Z.leb_le in E.
  destruct (String.eqb (charAt source start) "/"
            && String.eqb (charAt source (start - 1)) "*");
    [|exists start; split; [reflexivity | lia]].
  destruct (backToCommentStart_total fuel (start - 2)) as (r & Hr & Hle); [lia|].
  exists r. split; [exact Hr | lia].
Qed.

Lemma lastSignificant_total (fuel : nat) :
  forall start,
    Z.max 0 (start + 1) + 1 < Z.of_nat fuel ->
    exists r, lastSignificant env source fuel start = Some r.
Proof.
  induction fuel as [|fuel IH]; intros start Hf; [lia|].
  cbn [lastSignificant].
  destruct (backOverSpaces_total fuel start) as (r1 & -> & H1 & H1'); [lia|].
  destruct (backOverComment_total fuel r1) as (r2 & -> & H2 & H2'); [lia|].
  destruct (negb (r2 =? start)) eqn:Emoved; [|eauto].
  apply negb_true_iff, Z.eqb_neq in Emoved.
  apply IH. lia.
Qed.

Lemma getLastCharCode_holds (fuel : nat) (s : Cursor) :
  Z.max 0 (index s) + 1 < Z.of_nat fuel ->
  holds (getLastCharCode env source fuel s) (fun _ s' => s' = s).
Proof.
  intros Hf. unfold getLastCharCode.
  destruct (lastSignificant_total fuel (index s - 1)) as (r & ->); [lia|].
  reflexivity.
Qed.

Lemma getFirstSpaceColumn_holds (fuel : nat) (s : Cursor) :
  1 <= index s -> index s <= Z.of_nat fuel ->
  holds (getFirstSpaceColumn source fuel s) (fun _ s' => s' = s).
Proof.
  intros Hi Hf. unfold getFirstSpaceColumn.
  destruct (firstSpaceStart_total source (Z.to_nat (index s - 1)) fuel
              (index s - 1) false 0) as (r & ->); [lia | lia |].
  reflexivity.
Qed.

Lemma startsLiteral_holds (fuel : nat) (s : Cursor) :
  srcLength source + 1 < Z.of_nat fuel ->
  holds (startsLiteral env source fuel s)
    (fun literal s' => s' = s /\ (literal = true -> 0 <= index s < srcLength source)).
Proof.
  intros Hf. unfold startsLiteral.
  destruct (String.eqb (char source s) "'") eqn:E1.
  { apply char_eqb_inside in E1; [|discriminate]. simpl. auto. }
  destruct (String.eqb (char source s) dquote) eqn:E2.
  { apply char_eqb_inside in E2; [|discriminate]. simpl. auto. }
  destruct (String.eqb (char source s) "`") eqn:E3.
  { apply char_eqb_inside in E3; [|discriminate]. simpl. auto. }
  cbn [orb].
  destruct (String.eqb (char source s) "/") eqn:Eslash;
    [|simpl; split; [reflexivity | discriminate]].
  apply char_eqb_inside in Eslash; [|discriminate].
  destruct (negb (String.eqb (charAt source (index s + 1)) "")
            && negb (String.eqb (charAt source (index s + 1)) "*")
            && negb (String.eqb (charAt source (index s + 1)) "/"));
    [|simpl; split; [reflexivity | discriminate]].
  destruct (index s =? 0); [simpl; auto|].
  destruct (negb (String.eqb (charAt source (index s - 1)) "")
            && negb (String.eqb (charAt source (index s - 1)) "<"));
    [|simpl; split; [reflexivity | discriminate]].
  eapply holds_bind; [apply getLastCharCode_holds; lia|].
  cbv beta. intros tmp s' ->. simpl. auto.
Qed.

Lemma scanStringLoop_holds (fuel : nat) :
  forall quote str s,
    remaining s < Z.of_nat fuel ->
    holds (scanStringLoop source fuel quote str s) (fun _ s' => index s <= index s').
Proof.
  induction fuel as [|fuel IH]; intros quote str s Hf; [arith|].
  cbn [scanStringLoop].
  destruct (index s <? srcLength source) eqn:E; [|simpl; lia].
  apply Z.ltb_lt in E.
  eapply holds_bind with (Q := fun _ s' => index s' = index s).
  { destruct (codeIs (jsCharCodeAt (char source s) 0) 10); reflexivity. }
  cbv beta. intros _ s1 Hs1.
  unfold Parser.bind at 1, updateIndex at 1.
  destruct (String.eqb (char source s) quote); [simpl; lia|].
  destruct (String.eqb (char source s) backslash).
  - unfold Parser.bind, updateIndex.
    eapply holds_weaken; [apply IH; arith|].
    cbv beta. intros _ s' Hs'. arith.
  - eapply holds_weaken; [apply IH; arith|].
    cbv beta. intros _ s' Hs'. arith.
Qed.

Lemma scanString_holds (fuel : nat) (s : Cursor) :
  remaining s < Z.of_nat fuel ->
  holds (scanString source fuel s) (fun _ s' => index s < index s').
Proof.
  intros Hf. unfold scanString.
  unfold Parser.bind at 1, updateIndex at 1.
  eapply holds_bind; [apply scanStringLoop_holds; arith|].
  cbv beta. intros [str closed] s1 Hs1.
  eapply holds_bind with (Q := fun _ s' => s' = s1).
  { destruct (negb closed); reflexivity. }
  cbv beta. intros _ s' ->. simpl. arith.
Qed.

Lemma scanJSXTextLoop_holds (stopChars : list StopChar) (fuel : nat) :
  forall s,
    remaining s < Z.of_nat fuel ->
    holds (scanJSXTextLoop env source fuel stopChars s)
      (fun _ s' =>
         index s <= index s'
         /\ (index s < srcLength source ->
             existsb (fun stop => stopsAt source stop s) stopChars = false ->
             index s < index s')).
Proof.
  induction fuel as [|fuel IH]; intros s Hf; [arith|].
  cbn [scanJSXTextLoop].
  destruct (index s <? srcLength source) eqn:E; [|apply Z.ltb_ge in E; simpl; lia].
  apply Z.ltb_lt in E.
  destruct (isWhiteSpace env (charCode source s)).
  - destruct (codeIs (charCode source s) 10);
      unfold Parser.bind, updateLine, updateIndex, Parser.ret;
      (eapply holds_weaken; [apply IH; arith|]);
      cbv beta; intros _ s' [Hs' _]; cbn [index] in Hs'; lia.
  - destruct (existsb (fun stop => stopsAt source stop s) stopChars).
    + simpl. split; [lia | intros _ Hno; discriminate].
    + unfold Parser.bind, updateIndex.
      eapply holds_weaken; [apply IH; arith|].
      cbv beta. intros _ s' [Hs' _]. cbn [index] in Hs'. lia.
Qed.

Lemma scanJSXText_holds (stopChars : list StopChar) (fuel : nat) (s : Cursor) :
  remaining s < Z.of_nat fuel ->
  holds (scanJSXText env source fuel stopChars s)
    (fun _ s' =>
       index s <= index s'
       /\ (index s < srcLength source ->
           existsb (fun stop => stopsAt source stop s) stopChars = false ->
           index s < index s')).
Proof.
  intros Hf. unfold scanJSXText.
  eapply holds_bind; [apply scanJSXTextLoop_holds; exact Hf|].
  cbv beta. intros _ s' Hs'. exact Hs'.
Qed.

Lemma parseJSXCommentLoop_holds (fuel : nat) :
  forall s,
    remaining s < Z.of_nat fuel ->
    holds (parseJSXCommentLoop source fuel s) (fun _ s' => index s <= index s').
Proof.
  induction fuel as [|fuel IH]; intros s Hf; [arith|].
  cbn [parseJSXCommentLoop].
  destruct (index s <? srcLength source) eqn:E; [|simpl; lia].
  apply Z.ltb_lt in E.
  destruct (isExpect source "-->" s); [simpl; lia|].
  destruct (codeIs (charCode source s) 10);
    unfold Parser.bind, updateLine, updateIndex, Parser.ret;
    (eapply holds_weaken; [apply IH; arith|]);
    cbv beta; intros _ s' Hs'; cbn [index] in Hs'; lia.
Qed.

Lemma parseJSXComment_holds (fuel : nat) (s : Cursor) :
  remaining s < Z.of_nat fuel ->
  holds (parseJSXComment source fuel s) (fun _ s' => index s < index s').
Proof.
  intros Hf. unfold parseJSXComment.
  eapply holds_bind with (Q := fun _ s' => index s' = index s + 3).
  { apply holds_expect. intros _. reflexivity. }
  cbv beta. intros _ s1 Hs1.
  unfold Parser.bind at 1, get at 1.
  eapply holds_bind; [apply parseJSXCommentLoop_holds; arith|].
  cbv beta. intros _ s2 Hs2.
  unfold Parser.bind at 1, get at 1.
  eapply holds_bind with (Q := fun _ s' => index s2 <= index s').
  { apply holds_expect. intros _. cbn [index]. unfold strLen. simpl. lia. }
  cbv beta. intros _ s3 Hs3. simpl. lia.
Qed.

Lemma skipJSXIdentifier_holds (fuel : nat) :
  forall s,
    remaining s < Z.of_nat fuel ->
    holds (skipJSXIdentifier env source fuel s)
      (fun _ s' =>
         index s <= index s' <= Z.max (index s) (srcLength source)
         /\ (index s < srcLength source ->
             isJSXIdentifierPart env (charCode source s) = true ->
             index s < index s')).
Proof.
  induction fuel as [|fuel IH]; intros s Hf; [arith|].
  cbn [skipJSXIdentifier].
  destruct (index s <? srcLength source) eqn:E; [|apply Z.ltb_ge in E; simpl; lia].
  apply Z.ltb_lt in E.
  destruct (isJSXIdentifierPart env (charCode source s)); cbn [negb].
  - unfold Parser.bind, updateIndex.
    eapply holds_weaken; [apply IH; arith|].
    cbv beta. intros _ s' [Hs' _]. cbn [index] in Hs'. lia.
  - simpl. split; [lia | intros _ Hno; discriminate].
Qed.

Lemma lookaheadBetweenTags_total (endTag : string) (skipBeforeDelimiter : bool)
  (fuel : nat) :
  forall start,
    Z.max 0 (srcLength source - start) < Z.of_nat fuel ->
    exists r, lookaheadBetweenTags env source fuel endTag skipBeforeDelimiter start
              = Some r.
Proof.
  induction fuel as [|fuel IH]; intros start Hf; [lia|].
  cbn [lookaheadBetweenTags].
  destruct (start <? srcLength source) eqn:E; [|eauto].
  apply Z.ltb_lt in E.
  destruct (isWhiteSpace env (charCodeAt source start)); [|eauto].
  apply IH. lia.
Qed.

Lemma skipWhitespaceBetweenTags_holds (endTag : string) (skipBeforeDelimiter : bool)
  (fuel : nat) (s : Cursor) :
  remaining s < Z.of_nat fuel ->
  holds (skipWhitespaceBetweenTags env source fuel endTag skipBeforeDelimiter s)
    (fun _ s' => index s <= index s' <= Z.max (index s) (srcLength source)).
Proof.
  intros Hf. unfold skipWhitespaceBetweenTags.
  destruct (lookaheadBetweenTags_total endTag skipBeforeDelimiter fuel (index s))
    as (r & ->); [exact Hf|].
  destruct r; [apply skipWhitespace_holds; exact Hf | simpl; lia].
Qed.

Lemma parseJSXAttributeName_holds (fuel : nat) (s : Cursor) :
  remaining s < Z.of_nat fuel ->
  holds (parseJSXAttributeName env source fuel s)
    (fun _ s' =>
       index s <= index s' <= Z.max (index s) (srcLength source)
       /\ (NODE_ENV env <> "production" -> index s < srcLength source ->
           index s < index s')).
Proof.
  intros Hf. unfold parseJSXAttributeName.
  eapply holds_bind with
    (Q := fun _ s' =>
            s' = s
            /\ (NODE_ENV env <> "production" ->
                isJSXIdentifierPart env (charCode source s) = true)).
  { destruct (String.eqb (NODE_ENV env) "production") eqn:Emode; cbn [negb].
    - apply String.eqb_eq in Emode. simpl. split; [reflexivity | congruence].
    - destruct (isJSXIdentifierPart env (charCode source s)); cbn [negb].
      + simpl. auto.
      + exact I. }
  cbv beta. intros _ s1 [-> Hid].
  eapply holds_bind; [apply skipJSXIdentifier_holds; exact Hf|].
  cbv beta. intros _ s2 [Hs2 Hmove].
  unfold Parser.bind, get, Parser.ret. simpl. split; [exact Hs2|].
  intros Hdev Hin. apply Hmove; [exact Hin | apply Hid; exact Hdev].
Qed.

Lemma parseJSXClosingTag_holds (endTag : string) (loc : SourceLocation)
  (fuel : nat) (s : Cursor) :
  remaining s < Z.of_nat fuel ->
  holds (parseJSXClosingTag env source fuel endTag loc s)
    (fun _ s' => index s <= index s').
Proof.
  intros Hf. unfold parseJSXClosingTag.
  eapply holds_bind with (Q := fun _ s' => index s' = index s + 2).
  { apply holds_expect. intros _. reflexivity. }
  cbv beta. intros _ s1 Hs1.
  eapply holds_bind; [apply skipJSXIdentifier_holds; arith|].
  cbv beta. intros _ s2 [Hs2 _].
  eapply holds_bind; [apply skipWhitespace_holds; arith|].
  cbv beta. intros _ s3 Hs3.
  apply holds_expect. intros _. cbn [index]. unfold strLen. simpl. lia.
Qed.

Lemma scanJSImportTail_holds (fuel : nat) :
  forall s,
    0 <= index s ->
    remaining s + 3 < Z.of_nat fuel ->
    holds (scanJSImportTail env source fuel s)
      (fun _ s' => index s <= index s').
Proof.
  induction fuel as [|fuel IH]; intros s Hi Hf; [arith|].
  cbn [scanJSImportTail].
  eapply holds_bind; [apply skipWhitespaceAndJSComment_holds; arith|].
  cbv beta. intros _ s1 Hs1.
  unfold Parser.bind at 1, get at 1.
  eapply holds_bind with
    (Q := fun _ s' => index s1 <= index s' <= Z.max (index s1) (srcLength source)).
  { destruct (String.eqb (char source s1) ";") eqn:Esemi; [|simpl; lia].
    apply char_eqb_inside in Esemi; [|discriminate].
    unfold Parser.bind, updateIndex, Parser.ret. simpl. lia. }
  cbv beta. intros _ s2 Hs2.
  unfold Parser.bind at 1, get at 1.
  destruct (negb (index s =? index s2)) eqn:Emoved; [|simpl; lia].
  apply negb_true_iff, Z.eqb_neq in Emoved.
  eapply holds_weaken; [apply IH; arith|].
  cbv beta. intros _ s' Hs'. lia.
Qed.

Lemma scanJSImportLoop_holds (fuel : nat) :
  forall s,
    0 <= index s ->
    remaining s + 4 < Z.of_nat fuel ->
    holds (scanJSImportLoop env source fuel s)
      (fun _ s' => index s <= index s').
Proof.
  induction fuel as [|fuel IH]; intros s Hi Hf; [arith|].
  cbn [scanJSImportLoop].
  destruct (index s <? srcLength source) eqn:E; [|simpl; lia].
  apply Z.ltb_lt in E.
  destruct (String.eqb (char source s) "'" || String.eqb (char source s) dquote).
  - eapply holds_bind; [apply scanString_holds; arith|].
    cbv beta. intros _ s1 Hs1.
    eapply holds_weaken; [apply scanJSImportTail_holds; arith|].
    cbv beta. intros _ s' Hs'. lia.
  - unfold Parser.bind, updateIndex.
    eapply holds_weaken; [apply IH; arith|].
    cbv beta. intros _ s' Hs'. cbn [index] in Hs'. lia.
Qed.

Lemma scanJSImport_holds (fuel : nat) (s : Cursor) :
  0 <= index s ->
  remaining s + 4 < Z.of_nat fuel ->
  holds (scanJSImport env source fuel s) (fun _ s' => index s < index s').
Proof.
  intros Hi Hf. unfold scanJSImport.
  unfold Parser.bind at 1, updateIndex at 1.
  eapply holds_bind; [apply scanJSImportLoop_holds; arith|].
  cbv beta. intros _ s1 Hs1.
  unfold Parser.bind, get, Parser.ret. simpl. cbn [index] in Hs1. lia.
Qed.

(** [scanJS] reads a character, or counts a brace down at the closing
    delimiter, unless it stands at a tag or at an import of the root. *)
Lemma scanJSLoop_holds (isRoot : bool) (spaces : Z) (fuel : nat) :
  forall v s,
    0 <= index s ->
    enough fuel s 3 ->
    holds (scanJSLoop env source fuel isRoot spaces v s)
      (fun v' s' =>
         index s <= index s'
         /\ 2 * remaining s' + count v' <= 2 * remaining s + count v
         /\ (2 * remaining s' + count v' < 2 * remaining s + count v
             \/ isTagStart source s = true
             \/ isRoot && isJSImport source s = true
             \/ srcLength source <= index s)).
Proof.
  induction fuel as [|fuel IH]; intros v s Hi Hf; [arith|].
  cbn [scanJSLoop].
  destruct (index s <? srcLength source) eqn:E.
  2:{ apply Z.ltb_ge in E. simpl. repeat split; lia. }
  apply Z.ltb_lt in E.
  eapply holds_bind; [apply skipJSComment_holds; arith|].
  cbv beta. intros _ s1 Hs1.
  eapply holds_bind; [apply startsLiteral_holds; arith|].
  cbv beta. intros literal s1' [-> Hlit].
  unfold Parser.bind at 1, get at 1.
  destruct literal.
  { specialize (Hlit eq_refl).
    eapply holds_bind; [apply scanString_holds; arith|].
    cbv beta. intros _ s2 Hs2.
    eapply holds_weaken; [apply IH; arith|].
    cbv beta. intros v' s' (H1 & H2 & _). arith. }
  clear Hlit.
  destruct (isTagStart source s1) eqn:Etag.
  { simpl. split; [lia|]. split; [arith|].
    destruct (Z.eq_dec (index s1) (index s)) as [Heq|Hneq].
    - right. left. unfold isTagStart in *. rewrite <- Heq. exact Etag.
    - left. arith. }
  destruct (isRoot && isJSImport source s1) eqn:Eimport.
  { simpl. split; [lia|]. split; [arith|].
    destruct (Z.eq_dec (index s1) (index s)) as [Heq|Hneq].
    - right. right. left. unfold isJSImport, isExpect in *. rewrite <- Heq. exact Eimport.
    - left. arith. }
  destruct (String.eqb (char source s1) newline) eqn:Enl.
  { apply char_eqb_inside in Enl; [|discriminate].
    unfold Parser.bind, updateLine, updateIndex.
    eapply holds_weaken; [apply IH; arith|].
    cbv beta. intros v' s' (H1 & H2 & _). arith. }
  destruct (newLine v && String.eqb (char source s1) " ") eqn:Esp.
  { apply andb_true_iff in Esp. destruct Esp as [_ Esp].
    apply char_eqb_inside in Esp; [|discriminate].
    unfold Parser.bind, updateIndex.
    eapply holds_weaken; [apply IH; arith|].
    cbv beta. intros v' s' (H1 & H2 & _).
    destruct (negb (spacesRemain v =? 0)); cbn [count] in H2; arith. }
  destruct (String.eqb (char source s1) "{") eqn:Eopen.
  { apply char_eqb_inside in Eopen; [|discriminate].
    unfold Parser.bind, updateIndex.
    eapply holds_weaken; [apply IH; arith|].
    cbv beta. intros v' s' (H1 & H2 & _). cbn [count] in H2. arith. }
  destruct ((0 <? count v) && String.eqb (char source s1) "}") eqn:Eclose.
  { apply andb_true_iff in Eclose. destruct Eclose as [_ Eclose].
    apply char_eqb_inside in Eclose; [|discriminate].
    unfold Parser.bind, updateIndex.
    eapply holds_weaken; [apply IH; arith|].
    cbv beta. intros v' s' (H1 & H2 & _). cbn [count] in H2. arith. }
  destruct (isExpect source (snd (delimiters env)) s1).
  { simpl. split; [lia|]. split; [arith | left; arith]. }
  unfold Parser.bind, updateIndex.
  eapply holds_weaken; [apply IH; arith|].
  cbv beta. intros v' s' (H1 & H2 & _). cbn [count] in H2. arith.
Qed.

Lemma scanJS_holds (braces : Z) (isRoot : bool) (spaces : Z) (fuel : nat) (s : Cursor) :
  0 <= index s ->
  enough fuel s 3 ->
  holds (scanJS env source fuel braces isRoot spaces s)
    (fun r s' =>
       index s <= index s'
       /\ 2 * remaining s' + snd r <= 2 * remaining s + braces
       /\ (2 * remaining s' + snd r < 2 * remaining s + braces
           \/ isTagStart source s = true
           \/ isRoot && isJSImport source s = true
           \/ srcLength source <= index s)).
Proof.
  intros Hi Hf. unfold scanJS.
  eapply holds_bind; [apply scanJSLoop_holds; assumption|].
  cbv beta. intros v' s' H.
  unfold Parser.bind, get, Parser.ret. simpl. exact H.
Qed.

Lemma holds_validate (r : option Parser.Exn) (s : Cursor) :
  holds (validate r s) (fun _ s' => s' = s).
Proof. destruct r; simpl; auto. Qed.

(** *** One level of the descent *)

Section Level.

Variable parse_rec : bool -> Z -> M (list ASTNode).
Variable scanJSX_rec : M ASTNode.

(** The level stands behind a [<] read at [lo - 1]: nested markup starts
    at [lo] or later, a nested expression body behind its delimiter. *)
Variable lo : Z.

Hypothesis dev : NODE_ENV env <> "production".
Hypothesis opening : fst (delimiters env) <> "".

Hypothesis parse_rec_holds :
  forall isRoot spaces s,
    lo + 1 <= index s -> 0 <= index s ->
    holds (parse_rec isRoot spaces s) (fun _ s' => index s <= index s').

Hypothesis scanJSX_rec_holds :
  forall s,
    lo <= index s -> 0 <= index s ->
    holds (scanJSX_rec s) (fun _ s' => index s < index s').

Lemma expressionBody_holds (fuel : nat) (s : Cursor) :
  0 <= index s -> lo <= index s -> enough fuel s 3 ->
  holds (expressionBody env source parse_rec fuel s)
    (fun _ s' => index s < index s').
Proof.
  intros Hi Hlo Hf. unfold expressionBody.
  eapply holds_bind with
    (Q := fun _ s1 => index s + 1 <= index s1 <= srcLength source).
  { apply holds_expect. intros Hopen.
    apply isExpect_inside in Hopen; [|exact opening|exact Hi].
    cbn [index]. lia. }
  cbv beta. intros _ s1 Hs1.
  eapply holds_bind; [apply skipWhitespaceAndJSComment_holds; arith|].
  cbv beta. intros _ s2 Hs2.
  eapply holds_bind; [apply getFirstSpaceColumn_holds; arith|].
  cbv beta. intros spaceColumn s2' ->.
  unfold Parser.bind at 1, get at 1.
  eapply holds_bind with (Q := fun _ s4 => index s2 <= index s4).
  { destruct (isExpect source "=" s2); [|simpl; lia].
    eapply holds_bind with (Q := fun _ s3 => index s3 = index s2 + 1).
    { apply holds_expect. intros _. reflexivity. }
    cbv beta. intros _ s3 Hs3.
    eapply holds_bind; [apply skipWhitespace_holds; arith|].
    cbv beta. intros _ s4 Hs4. simpl. lia. }
  cbv beta. intros type s4 Hs4.
  unfold Parser.bind at 1, get at 1.
  eapply holds_bind with (Q := fun _ s5 => index s4 <= index s5).
  { destruct (isExpect source (snd (delimiters env)) s4); [simpl; lia|].
    apply parse_rec_holds; lia. }
  cbv beta. intros value s5 Hs5. simpl. lia.
Qed.

Lemma parseJSXExpression_holds (fuel : nat) (s : Cursor) :
  0 <= index s -> lo <= index s -> enough fuel s 3 ->
  holds (parseJSXExpression env source parse_rec fuel s)
    (fun _ s' => index s < index s').
Proof.
  intros Hi Hlo Hf. unfold parseJSXExpression.
  eapply holds_bind; [apply expressionBody_holds; assumption|].
  cbv beta. intros [type value] s1 Hs1.
  eapply holds_bind with (Q := fun _ s2 => index s1 <= index s2).
  { apply holds_expect. intros _. cbn [index]. unfold strLen. lia. }
  cbv beta. intros _ s2 Hs2. simpl. lia.
Qed.

Lemma parseJSXAttributeValue_holds (fuel : nat) (s : Cursor) :
  0 <= index s -> lo <= index s -> enough fuel s 3 ->
  holds (parseJSXAttributeValue env source parse_rec fuel s)
    (fun _ s' => index s < index s').
Proof.
  intros Hi Hlo Hf. unfold parseJSXAttributeValue.
  destruct (isExpect source (fst (delimiters env)) s);
    [apply parseJSXExpression_holds; assumption|].
  eapply holds_bind with (Q := fun _ s' => s' = s).
  { destruct (negb (String.eqb (char source s) "'")
              && negb (String.eqb (char source s) dquote)
              && negb (String.eqb (char source s) "`")); [exact I | reflexivity]. }
  cbv beta. intros _ s' ->. apply scanString_holds. arith.
Qed.

Lemma parseNamedAttribute_holds (tag : string) (type : ASTTypes) (a : Attrs)
  (fuel : nat) (s : Cursor) :
  0 <= index s -> lo <= index s -> enough fuel s 3 ->
  holds (parseNamedAttribute env source parse_rec fuel tag type a s)
    (fun _ s' =>
       index s <= index s' /\ (index s < srcLength source -> index s < index s')).
Proof.
  intros Hi Hlo Hf. unfold parseNamedAttribute.
  eapply holds_bind; [apply parseJSXAttributeName_holds; arith|].
  cbv beta. intros name s1 [Hs1 Hmove].
  unfold Parser.bind at 1, get at 1.
  eapply holds_bind with (Q := fun _ s2 => index s1 <= index s2).
  { destruct (String.eqb (char source s1) "=").
    - unfold Parser.bind at 1, updateIndex at 1.
      eapply holds_weaken; [apply parseJSXAttributeValue_holds; arith|].
      cbv beta. intros _ s2 Hs2. cbn [index] in Hs2. lia.
    - unfold Parser.bind, get, Parser.ret. simpl. lia. }
  cbv beta. intros value s2 Hs2.
  eapply holds_bind with (Q := fun _ s3 => s3 = s2).
  { destruct (negb (String.eqb (NODE_ENV env) "produdction")); [|reflexivity].
    eapply holds_bind with (Q := fun _ s3 => s3 = s2).
    { destruct (directivesMap env name); [apply holds_validate | reflexivity]. }
    cbv beta. intros _ s3 ->.
    destruct (ASTTypes_eqb type JSXBlock); [apply holds_validate | reflexivity]. }
  cbv beta. intros _ s3 ->.
  specialize (Hmove dev).
  destruct (String.eqb name (Directives_If env) || String.eqb name (Directives_ElseIf env)
            || String.eqb name (Directives_Else env)); [simpl; lia|].
  destruct (directivesMap env name); simpl; lia.
Qed.

Lemma parseJSXAttributeLoop_holds (tag : string) (type : ASTTypes) (fuel : nat) :
  forall a s,
    0 <= index s -> lo <= index s -> enough fuel s 4 ->
    holds (parseJSXAttributeLoop env source parse_rec fuel tag type a s)
      (fun _ s' => index s <= index s').
Proof.
  induction fuel as [|fuel IH]; intros a s Hi Hlo Hf; [arith|].
  cbn [parseJSXAttributeLoop].
  destruct (index s <? srcLength source) eqn:E; [|simpl; lia].
  apply Z.ltb_lt in E.
  eapply holds_bind; [apply skipWhitespace_holds; arith|].
  cbv beta. intros _ s1 Hs1.
  unfold Parser.bind at 1, get at 1.
  destruct (String.eqb (char source s1) "/" || String.eqb (char source s1) ">");
    [simpl; lia|].
  destruct (isExpect source (fst (delimiters env)) s1).
  - eapply holds_bind; [apply parseJSXExpression_holds; arith|].
    cbv beta. intros expression s2 Hs2.
    eapply holds_weaken; [apply IH; arith|].
    cbv beta. intros _ s' Hs'. lia.
  - eapply holds_bind; [apply parseNamedAttribute_holds; arith|].
    cbv beta. intros a' s2 [Hs2 Hmove].
    eapply holds_weaken; [apply IH; arith|].
    cbv beta. intros _ s' Hs'. lia.
Qed.

Lemma parseJSXChild_holds (endTag : string) (isTextTag : bool) (fuel : nat)
  (s : Cursor) :
  0 <= index s -> lo <= index s -> enough fuel s 3 ->
  holds (parseJSXChild env source parse_rec scanJSX_rec fuel endTag isTextTag s)
    (fun _ s' =>
       index s <= index s'
       /\ (index s < srcLength source -> isExpect source endTag s = false ->
           index s < index s')).
Proof.
  intros Hi Hlo Hf. unfold parseJSXChild.
  destruct (isExpect source (fst (delimiters env)) s) eqn:Eopen.
  { eapply holds_bind; [apply parseJSXExpression_holds; assumption|].
    cbv beta. intros child s1 Hs1.
    eapply holds_bind; [apply skipWhitespaceBetweenTags_holds; arith|].
    cbv beta. intros _ s2 Hs2. simpl. lia. }
  destruct isTextTag.
  { eapply holds_weaken; [apply scanJSXText_holds; arith|].
    cbv beta. intros _ s' [Hs' Hmove]. split; [exact Hs'|].
    intros Hin Hend. apply Hmove; [exact Hin|].
    cbn [existsb stopsAt]. rewrite Hend, Eopen. reflexivity. }
  destruct (isTagStart source s) eqn:Etag.
  { eapply holds_bind; [apply scanJSX_rec_holds; assumption|].
    cbv beta. intros child s1 Hs1.
    eapply holds_bind; [apply skipWhitespaceBetweenTags_holds; arith|].
    cbv beta. intros _ s2 Hs2. simpl. lia. }
  eapply holds_weaken; [apply scanJSXText_holds; arith|].
  cbv beta. intros _ s' [Hs' Hmove]. split; [exact Hs'|].
  intros Hin Hend. apply Hmove; [exact Hin|].
  cbn [existsb stopsAt]. rewrite Hend, Etag, Eopen. reflexivity.
Qed.

Lemma rawChildrenLoop_holds (endTag : string) (fuel : nat) :
  forall children s,
    remaining s + 1 < Z.of_nat fuel ->
    holds (rawChildrenLoop env source fuel endTag children s)
      (fun _ s' => index s <= index s').
Proof.
  induction fuel as [|fuel IH]; intros children s Hf; [arith|].
  cbn [rawChildrenLoop].
  destruct (index s <? srcLength source) eqn:E; [|simpl; lia].
  apply Z.ltb_lt in E.
  destruct (isExpect source endTag s) eqn:Eend; [simpl; lia|].
  eapply holds_bind; [apply scanJSXText_holds; arith|].
  cbv beta. intros text s1 [Hs1 Hmove].
  assert (Hlt : index s < index s1).
  { apply Hmove; [exact E|]. cbn [existsb stopsAt]. rewrite Eend. reflexivity. }
  eapply holds_weaken; [apply IH; arith|].
  cbv beta. intros _ s' Hs'. lia.
Qed.

Lemma childrenLoop_holds (endTag : string) (isTextTag : bool) (fuel0 fuel : nat) :
  forall children directiveIf s,
    0 <= index s -> lo <= index s -> enough fuel0 s 3 ->
    remaining s < Z.of_nat fuel ->
    holds (childrenLoop env source
             (parseJSXChild env source parse_rec scanJSX_rec fuel0 endTag isTextTag)
             fuel endTag children directiveIf s)
      (fun _ s' => index s <= index s').
Proof.
  induction fuel as [|fuel IH]; intros children directiveIf s Hi Hlo Hf0 Hf; [arith|].
  cbn [childrenLoop].
  destruct (index s <? srcLength source) eqn:E; [|simpl; lia].
  apply Z.ltb_lt in E.
  destruct (isExpect source endTag s) eqn:Eend; [simpl; lia|].
  pose proof (parseJSXChild_holds endTag isTextTag fuel0 s Hi Hlo Hf0) as Hchild.
  destruct (parseJSXChild env source parse_rec scanJSX_rec fuel0 endTag isTextTag s)
    as [child s1| |]; simpl in Hchild; [|exact I|contradiction].
  destruct Hchild as [Hs1 Hmove]. specialize (Hmove E Eend).
  destruct (linkChild env child children directiveIf) as [e|[children' directiveIf']];
    [exact I|].
  eapply holds_weaken; [apply IH; arith|].
  cbv beta. intros _ s' Hs'. lia.
Qed.

Lemma parseJSXChildrenValue_holds (tag : string) (type : ASTTypes)
  (hasVRaw isTextTag : bool) (loc : SourceLocation) (fuel : nat) (s : Cursor) :
  0 <= index s -> lo <= index s -> enough fuel s 3 ->
  holds (parseJSXChildrenValue env source parse_rec scanJSX_rec fuel tag type
           hasVRaw isTextTag loc s)
    (fun _ s' => index s <= index s').
Proof.
  intros Hi Hlo Hf. unfold parseJSXChildrenValue.
  eapply holds_bind with (Q := fun _ s1 => index s <= index s1).
  { destruct hasVRaw; [apply rawChildrenLoop_holds; arith|].
    eapply holds_bind; [apply skipWhitespaceBetweenTags_holds; arith|].
    cbv beta. intros _ s1 Hs1.
    eapply holds_weaken; [apply childrenLoop_holds; arith|].
    cbv beta. intros _ s' Hs'. lia. }
  cbv beta. intros children s1 Hs1.
  eapply holds_bind; [apply parseJSXClosingTag_holds; arith|].
  cbv beta. intros _ s2 Hs2. simpl. lia.
Qed.

Lemma parseJSXChildren_holds (tag : string) (type : ASTTypes)
  (attributes : list ASTNode) (hasVRaw : bool) (loc : SourceLocation)
  (fuel : nat) (s : Cursor) :
  0 <= index s -> lo <= index s -> enough fuel s 3 ->
  holds (parseJSXChildren env source parse_rec scanJSX_rec fuel tag type
           attributes hasVRaw loc s)
    (fun _ s' => index s <= index s').
Proof.
  intros Hi Hlo Hf. unfold parseJSXChildren.
  assert (Hgt : forall s0 : Cursor,
             index s <= index s0 ->
             holds (expect source ">" None None s0)
               (fun _ s' => index s <= index s')).
  { intros s0 Hs0. apply holds_expect. intros _. cbn [index]. unfold strLen. simpl. lia. }
  destruct (ASTTypes_eqb type JSXCommonElement && selfClosingTags env tag).
  { eapply holds_bind with (Q := fun _ s1 => index s <= index s1).
    { destruct (String.eqb (char source s) "/"); simpl; lia. }
    cbv beta. intros _ s1 Hs1.
    eapply holds_bind; [apply Hgt; exact Hs1|].
    cbv beta. intros _ s2 Hs2. exact Hs2. }
  destruct (String.eqb (char source s) "/").
  { unfold Parser.bind at 1, updateIndex at 1.
    eapply holds_bind; [apply Hgt; cbn [index]; lia|].
    cbv beta. intros _ s2 Hs2. exact Hs2. }
  eapply holds_bind with (Q := fun _ s1 => index s <= index s1).
  { apply holds_expect. intros _. cbn [index]. unfold strLen. simpl. lia. }
  cbv beta. intros _ s1 Hs1.
  destruct (textTags env tag).
  - unfold Parser.bind at 1, get at 1.
    eapply holds_bind; [apply parseJSXChildrenValue_holds; arith|].
    cbv beta. intros children s2 Hs2. simpl. lia.
  - eapply holds_bind; [apply parseJSXChildrenValue_holds; arith|].
    cbv beta. intros children s2 Hs2. simpl. lia.
Qed.

Lemma parseJSXElement_holds (fuel : nat) (s : Cursor) :
  0 <= index s -> lo <= index s -> enough fuel s 4 ->
  holds (parseJSXElement env source parse_rec scanJSX_rec fuel s)
    (fun _ s' => index s <= index s').
Proof.
  intros Hi Hlo Hf. unfold parseJSXElement.
  eapply holds_bind with (Q := fun _ s1 => index s <= index s1 <= index s + 2).
  { destruct (match charCode source s with
              | Some f => (65 <=? f) && (f <=? 90)
              | None => false
              end); [simpl; lia|].
    destruct (codeIs (charCodeAt source (index s + 1)) 58); [|simpl; lia].
    eapply holds_bind with (Q := fun _ s1 => s1 = s).
    { destruct (codeIs (charCode source s) 116); [reflexivity|].
      destruct (codeIs (charCode source s) 98); [reflexivity | exact I]. }
    cbv beta. intros type s1 ->.
    unfold Parser.bind, updateIndex, Parser.ret. simpl. lia. }
  cbv beta. intros [type start] s1 Hs1.
  eapply holds_bind; [apply skipJSXIdentifier_holds; arith|].
  cbv beta. intros _ s2 [Hs2 _].
  unfold Parser.bind at 1, get at 1.
  eapply holds_bind; [apply parseJSXAttributeLoop_holds; arith|].
  cbv beta. intros a s3 Hs3.
  eapply holds_bind; [apply parseJSXChildren_holds; arith|].
  cbv beta. intros [children attributes] s4 Hs4.
  eapply holds_bind with (Q := fun _ s5 => s5 = s4).
  { destruct (negb (String.eqb (NODE_ENV env) "production"));
      [apply holds_validate | reflexivity]. }
  cbv beta. intros _ s5 ->. simpl. lia.
Qed.

Lemma scanJSXBody_holds (fuel : nat) (s : Cursor) :
  0 <= index s -> lo <= index s + 1 -> enough fuel s 4 ->
  holds (scanJSXBody env source parse_rec scanJSX_rec fuel s)
    (fun _ s' => index s < index s').
Proof.
  intros Hi Hlo Hf. unfold scanJSXBody.
  eapply holds_bind with (Q := fun _ s1 => index s1 = index s + 1).
  { apply holds_expect. intros _. reflexivity. }
  cbv beta. intros _ s1 Hs1.
  unfold Parser.bind at 1, get at 1.
  destruct (isExpect source "!--" s1).
  - eapply holds_weaken; [apply parseJSXComment_holds; arith|].
    cbv beta. intros _ s' Hs'. lia.
  - eapply holds_weaken; [apply parseJSXElement_holds; arith|].
    cbv beta. intros _ s' Hs'. lia.
Qed.

Lemma advance_holds (braces : Z) (isRoot : bool) (spaces : Z) (fuel : nat)
  (s : Cursor) :
  0 <= index s -> lo <= index s + 1 -> enough fuel s 5 ->
  holds (advance env source parse_rec scanJSX_rec fuel braces isRoot spaces s)
    (fun r s' =>
       index s <= index s'
       /\ (index s < srcLength source ->
           2 * remaining s' + snd r < 2 * remaining s + braces)).
Proof.
  intros Hi Hlo Hf. unfold advance.
  destruct (isRoot && isJSImport source s) eqn:Eimport.
  { eapply holds_bind; [apply scanJSImport_holds; arith|].
    cbv beta. intros n s1 Hs1. simpl. arith. }
  destruct (negb (String.eqb (char source s) "<")) eqn:Elt.
  { apply negb_true_iff in Elt.
    eapply holds_weaken; [apply scanJS_holds; arith|].
    cbv beta. intros r s' (H1 & H2 & H3). split; [exact H1|].
    intros Hin. destruct H3 as [H3|[H3|[H3|H3]]]; [exact H3| | congruence | lia].
    unfold isTagStart, isTagStartAt in H3. unfold char in Elt.
    rewrite Elt in H3. discriminate. }
  eapply holds_bind; [apply scanJSXBody_holds; arith|].
  cbv beta. intros n s1 Hs1. simpl. arith.
Qed.

Lemma parseLoop_holds (isRoot : bool) (spaces : Z) (fuel : nat) :
  forall nodes braces s,
    0 <= index s -> lo <= index s + 1 ->
    srcLength source + 6 + 2 * remaining s + Z.max 0 braces <= Z.of_nat fuel ->
    holds (parseLoop env source parse_rec scanJSX_rec fuel isRoot spaces nodes braces s)
      (fun _ s' => index s <= index s').
Proof.
  induction fuel as [|fuel IH]; intros nodes braces s Hi Hlo Hf; [arith|].
  cbn [parseLoop].
  destruct ((index s <? srcLength source) && (0 <=? braces)) eqn:Eguard;
    [|simpl; lia].
  apply andb_true_iff in Eguard. destruct Eguard as [E Hb].
  apply Z.ltb_lt in E. apply Z.leb_le in Hb.
  eapply holds_bind; [apply advance_holds; arith|].
  cbv beta. intros [node braces'] s1 [Hs1 Hless]. specialize (Hless E).
  cbn [snd] in Hless.
  destruct (Z.lt_ge_cases braces' 0) as [Hneg|Hpos].
  - destruct fuel as [|fuel]; [arith|]. cbn [parseLoop].
    replace (0 <=? braces') with false by (symmetry; apply Z.leb_gt; exact Hneg).
    rewrite andb_false_r. simpl. exact Hs1.
  - eapply holds_weaken; [apply IH; arith|].
    cbv beta. intros _ s' Hs'. lia.
Qed.

Lemma parseBody_holds (isRoot : bool) (spaces : Z) (fuel : nat) (s : Cursor) :
  0 <= index s -> lo <= index s + 1 -> enough fuel s 6 ->
  holds (parseBody env source parse_rec scanJSX_rec fuel isRoot spaces s)
    (fun _ s' => index s <= index s').
Proof.
  intros Hi Hlo Hf. unfold parseBody. apply parseLoop_holds; arith.
Qed.

End Level.

(** *** The recursion *)

Section Recursion.

Hypothesis dev : NODE_ENV env <> "production".
Hypothesis opening : fst (delimiters env) <> "".

Lemma parse_scanJSX_holds (fuel : nat) :
  (forall isRoot spaces s,
      0 <= index s -> enough fuel s 8 ->
      holds (parse env source fuel isRoot spaces s) (fun _ s' => index s <= index s'))
  /\ (forall s,
         0 <= index s -> enough fuel s 7 ->
         holds (scanJSX env source fuel s) (fun _ s' => index s < index s')).
Proof.
  induction fuel as [|fuel [IHparse IHscan]]; [split; intros; arith|].
  assert (Hrec : forall s : Cursor,
             0 <= index s -> index s < srcLength source -> enough (S fuel) s 7 ->
             (forall isRoot spaces s',
                 index s + 1 + 1 <= index s' -> 0 <= index s' ->
                 holds (parse env source fuel isRoot spaces s')
                   (fun _ s'' => index s' <= index s''))
             /\ (forall s',
                    index s + 1 <= index s' -> 0 <= index s' ->
                    holds (scanJSX env source fuel s')
                      (fun _ s'' => index s' < index s''))).
  { intros s Hi Hin Hf. split.
    - intros isRoot spaces s' Hs' Hi'. apply IHparse; [exact Hi' | arith].
    - intros s' Hs' Hi'. apply IHscan; [exact Hi' | arith]. }
  split.
  - intros isRoot spaces s Hi Hf. cbn [parse].
    destruct (Z.lt_ge_cases (index s) (srcLength source)) as [Hin|Hout].
    + destruct (Hrec s Hi Hin ltac:(arith)) as [Hp Hs].
      apply (parseBody_holds (parse env source fuel) (scanJSX env source fuel)
               (index s + 1) dev opening Hp Hs); [exact Hi | lia | arith].
    + unfold parseBody. destruct fuel as [|fuel']; [arith|]. cbn [parseLoop].
      replace (index s <? srcLength source) with false
        by (symmetry; apply Z.ltb_ge; exact Hout).
      simpl. lia.
  - intros s Hi Hf. cbn [scanJSX].
    destruct (Z.lt_ge_cases (index s) (srcLength source)) as [Hin|Hout].
    + destruct (Hrec s Hi Hin Hf) as [Hp Hs].
      apply (scanJSXBody_holds (parse env source fuel) (scanJSX env source fuel)
               (index s + 1) dev opening Hp Hs); [exact Hi | lia | arith].
    + unfold scanJSXBody.
      eapply holds_bind with (Q := fun _ _ => False); [|contradiction].
      apply holds_expect. intros Hlt.
      rewrite isExpect_at_end in Hlt; [discriminate | discriminate | exact Hout].
Qed.

End Recursion.

End Termination.

(** X5. In a build that is not a production build, and with a non-empty
    opening delimiter, the parser terminates on every input: with fuel of
    three times the length of the input and eight more, [parse] returns or
    throws from every cursor, and when it returns the cursor has not moved
    backwards. *)
Theorem parse_terminates (env : Env) (source : string) (fuel : nat)
  (isRoot : bool) (spaces : Z) (s : Cursor) :
  NODE_ENV env <> "production" ->
  fst (delimiters env) <> "" ->
  0 <= index s ->
  (3 * String.length source + 8 <= fuel)%nat ->
  parse env source fuel isRoot spaces s <> OutOfFuel
  /\ (forall result s',
         parse env source fuel isRoot spaces s = Ok result s' -> index s <= index s').
Proof.
  intros Hdev Hopening Hi Hfuel.
  assert (H : holds (parse env source fuel isRoot spaces s)
                (fun _ s' => index s <= index s')).
  { apply (parse_scanJSX_holds env source Hdev Hopening fuel); [exact Hi|].
    unfold enough, remaining, srcLength, strLen. lia. }
  split.
  - eapply holds_fuel. exact H.
  - intros result s' Heq. apply (holds_Ok _ _ _ _ H Heq).
Qed.

(** The template [<ul><li v-if={a}>{a}</li></ul>] in the sample environment. *)
Lemma parse_terminates_witness :
  parse Sample.development "<ul><li v-if={a}>{a}</li></ul>" 98 true 0 (mkCursor 0 1 1)
  <> OutOfFuel.
Proof.
  apply (parse_terminates Sample.development "<ul><li v-if={a}>{a}</li></ul>" 98
           true 0 (mkCursor 0 1 1)).
  - discriminate.
  - discriminate.
  - simpl. lia.
  - simpl. lia.
Defined.

(** ** Chains outside child lists *)

(** The directive stored under [key], if any, has a null [next]. *)
Definition freshAt (key : string) (d : list (string * ASTNode)) : bool :=
  match lookupDirective key d with
  | Some n => match nodeNext n with None => true | Some _ => false end
  | None => true
  end.

Section Unlinked.

Variable env : Env.
Variable source : string.
Variable parse_rec : bool -> Z -> M (list ASTNode).
Variable scanJSX_rec : M ASTNode.

Lemma freshAt_assign (key name : string) (v : ASTNode) (d : list (string * ASTNode)) :
  nodeNext v = None ->
  freshAt key d = true ->
  freshAt key (assignDirective name v d) = true.
Proof.
  unfold freshAt. rewrite lookup_assignDirective. intros Hv Hd.
  destruct (String.eqb name key); [rewrite Hv; reflexivity | exact Hd].
Qed.

Lemma parseNamedAttribute_fresh (key : string) (fuel : nat) (tag : string)
  (type : ASTTypes) (a a' : Attrs) (s s' : Cursor) :
  parseNamedAttribute env source parse_rec fuel tag type a s = Ok a' s' ->
  freshAt key (directives a) = true ->
  freshAt key (directives a') = true.
Proof.
  unfold parseNamedAttribute. intros H Hinv.
  inv_ok H. rename a0 into name.
  inv_ok H. inv_ok Hm0.
  inv_ok H. rename a0 into value.
  inv_ok H.
  destruct (String.eqb name (Directives_If env) || String.eqb name (Directives_ElseIf env)
            || String.eqb name (Directives_Else env)).
  - inv_ok H. simpl. apply freshAt_assign; [reflexivity | exact Hinv].
  - destruct (directivesMap env name).
    + inv_ok H. simpl. apply freshAt_assign; [reflexivity | exact Hinv].
    + inv_ok H. exact Hinv.
Qed.

Lemma parseJSXAttributeLoop_fresh (key : string) (fuel : nat) (tag : string)
  (type : ASTTypes) :
  forall (a a' : Attrs) (s s' : Cursor),
    parseJSXAttributeLoop env source parse_rec fuel tag type a s = Ok a' s' ->
    freshAt key (directives a) = true ->
    freshAt key (directives a') = true.
Proof.
  induction fuel as [|fuel IH]; intros a a' s s' H Hinv; simpl in H.
  - discriminate.
  - destruct (index s <? srcLength source).
    + inv_ok H. inv_ok H. inv_ok Hm0.
      destruct (String.eqb (char source s0) "/" || String.eqb (char source s0) ">").
      * inv_ok H. exact Hinv.
      * destruct (isExpect source (fst (delimiters env)) s0).
        -- inv_ok H. apply IH in H; [exact H|].
           destruct (negb (Z.of_nat (length (exprValue a1)) =? 0)); exact Hinv.
        -- inv_ok H. apply IH in H; [exact H|].
           eapply parseNamedAttribute_fresh; eauto.
    + inversion H. subst. exact Hinv.
Qed.

Lemma chainNext_fresh (n : ASTNode) :
  (forall key, freshAt key (nodeDirectives n) = true) -> chainNext env n = None.
Proof.
  intros H. unfold chainNext.
  destruct (chainKey env (nodeDirectives n)) as [key|]; [|reflexivity].
  specialize (H key). unfold freshAt in H.
  destruct (lookupDirective key (nodeDirectives n)) as [d|]; [|reflexivity].
  destruct (nodeNext d); [discriminate | reflexivity].
Qed.

(** An element is returned by [parseJSXElement] with the [next] of its
    conditional directive null: only the loop of [parseJSXChildrenValue]
    assigns it, on the elements of a child list. *)
Lemma parseJSXElement_unlinked (fuel : nat) (s s' : Cursor) (n : ASTNode) :
  parseJSXElement env source parse_rec scanJSX_rec fuel s = Ok n s' ->
  chainNext env n = None.
Proof.
  unfold parseJSXElement. intros H.
  repeat inv_step.
  apply chainNext_fresh. intros key. simpl.
  match goal with
  | Ha : parseJSXAttribute _ _ _ _ _ _ _ = Ok _ _ |- _ =>
      unfold parseJSXAttribute in Ha;
      eapply parseJSXAttributeLoop_fresh; [exact Ha | reflexivity]
  end.
Qed.

Lemma scanJSXBody_unlinked (fuel : nat) (s s' : Cursor) (n : ASTNode) :
  scanJSXBody env source parse_rec scanJSX_rec fuel s = Ok n s' ->
  chainNext env n = None.
Proof.
  unfold scanJSXBody. intros H.
  inv_ok H. inv_ok H. inv_ok Hm0.
  destruct (isExpect source "!--" s0).
  - unfold parseJSXComment in H. repeat inv_step. reflexivity.
  - eapply parseJSXElement_unlinked; exact H.
Qed.

Lemma advance_unlinked (fuel : nat) (braces : Z) (isRoot : bool) (spaces : Z)
  (s s' : Cursor) (node : ASTNode) (braces' : Z) :
  advance env source parse_rec scanJSX_rec fuel braces isRoot spaces s
  = Ok (node, braces') s' ->
  chainNext env node = None.
Proof.
  unfold advance. intros H.
  destruct (isRoot && isJSImport source s).
  - inv_ok H. inv_ok H. unfold scanJSImport in Hm. repeat inv_step. reflexivity.
  - destruct (negb (String.eqb (char source s) "<")).
    + unfold scanJS in H. repeat inv_step. reflexivity.
    + inv_ok H. inv_ok H. eapply scanJSXBody_unlinked; exact Hm.
Qed.

Lemma parseLoop_unlinked (fuel : nat) (isRoot : bool) (spaces : Z) :
  forall nodes braces s result s',
    parseLoop env source parse_rec scanJSX_rec fuel isRoot spaces nodes braces s
    = Ok result s' ->
    Forall (fun n => chainNext env n = None) nodes ->
    Forall (fun n => chainNext env n = None) result.
Proof.
  induction fuel as [|fuel IH]; intros nodes braces s result s' H Hnodes; simpl in H;
    [discriminate|].
  destruct ((index s <? srcLength source) && (0 <=? braces)).
  - inv_ok H. destruct a as [node braces'].
    eapply IH; [exact H|].
    apply List.Forall_app. split; [exact Hnodes|].
    constructor; [|constructor].
    eapply advance_unlinked; exact Hm.
  - injection H as <- <-. exact Hnodes.
Qed.

End Unlinked.

(** X3. [parse] links nothing: in the list it returns, the root list of a
    template or the body of an expression, the conditional directive of
    every element has a null [next].  An element carrying [else] or
    [else-if] there is a node of its own, attached to no [if], and no error
    is raised for it. *)
Theorem parse_never_links (env : Env) (source : string) (fuel : nat)
  (isRoot : bool) (spaces : Z) (s s' : Cursor) (result : list ASTNode) :
  parse env source fuel isRoot spaces s = Ok result s' ->
  Forall (fun n => chainNext env n = None) result.
Proof.
  destruct fuel as [|fuel]; simpl; [discriminate|].
  unfold parseBody. intros H.
  eapply parseLoop_unlinked; [exact H | constructor].
Qed.

(** The root list of [<div v-if={a}>A</div><div v-else>B</div>]. *)
Lemma parse_never_links_witness :
  exists first second,
    Forall (fun n => chainNext Sample.development n = None) [first; second]
    /\ classify Sample.development first = IfElement
    /\ classify Sample.development second = ElseElement.
Proof.
  eexists. eexists. split.
  - eapply (parse_never_links Sample.development
              "<div v-if={a}>A</div><div v-else>B</div>" 60 true 0 (mkCursor 0 1 1)).
    vm_compute. reflexivity.
  - split; reflexivity.
Defined.

(** ** Attribute names *)

(** A character inside a tag at which no attribute can start and that the
    attribute loop does not skip: no white space, not the end of the tag,
    not the opening delimiter, no part of an identifier, and no [=]. *)
Definition strayInTag (env : Env) (source : string) (s : Cursor) : bool :=
  (index s <? srcLength source)
  && negb (isWhiteSpace env (charCode source s))
  && negb (String.eqb (char source s) "/" || String.eqb (char source s) ">")
  && negb (isExpect source (fst (delimiters env)) s)
  && negb (isJSXIdentifierPart env (charCode source s))
  && negb (String.eqb (char source s) "=").

Section AttributeNames.

Variable env : Env.
Variable source : string.
Variable parse_rec : bool -> Z -> M (list ASTNode).

Lemma jsSlice_empty (str : string) (i : Z) : jsSlice str i i = "".
Proof.
  unfold jsSlice.
  destruct (i <? 0); rewrite Z.ltb_irrefl; reflexivity.
Qed.

Lemma strayInTag_inv (s : Cursor) :
  strayInTag env source s = true ->
  (index s <? srcLength source) = true
  /\ isWhiteSpace env (charCode source s) = false
  /\ (String.eqb (char source s) "/" || String.eqb (char source s) ">") = false
  /\ isExpect source (fst (delimiters env)) s = false
  /\ isJSXIdentifierPart env (charCode source s) = false
  /\ String.eqb (char source s) "=" = false.
Proof.
  unfold strayInTag. intros H.
  repeat (apply andb_true_iff in H; destruct H as [H ?]).
  repeat match goal with
         | H : negb _ = true |- _ => apply negb_true_iff in H
         end.
  auto 10.
Qed.

(** In a production build the name read at a stray character is empty, and
    the attribute made of it leaves the cursor where it is. *)
Lemma parseNamedAttribute_stray (tag : string) (type : ASTTypes) (a : Attrs)
  (fuel : nat) (s : Cursor) :
  NODE_ENV env = "production" ->
  directivesMap env "" = false ->
  ASTTypes_eqb type JSXBlock = false ->
  strayInTag env source s = true ->
  exists a', parseNamedAttribute env source parse_rec (S fuel) tag type a s = Ok a' s.
Proof.
  intros Hmode Hmap Hblock Hstray.
  apply strayInTag_inv in Hstray.
  destruct Hstray as (Hin & Hws & Hend & Hopen & Hid & Heq).
  assert (Hname : parseJSXAttributeName env source (S fuel) s = Ok "" s).
  { assert (Hskip : skipJSXIdentifier env source (S fuel) s = Ok tt s)
      by (cbn [skipJSXIdentifier]; rewrite Hin, Hid; reflexivity).
    unfold parseJSXAttributeName. rewrite Hmode.
    change (String.eqb "production" "production") with true. cbn [negb].
    rewrite (bind_Ok_eq (Parser.ret tt) _ s s tt eq_refl).
    rewrite (bind_Ok_eq _ _ _ _ _ Hskip).
    rewrite (bind_Ok_eq get _ s s s eq_refl).
    unfold Parser.ret, getValue, getValueTo. rewrite jsSlice_empty. reflexivity. }
  unfold parseNamedAttribute.
  destruct (String.eqb "" (Directives_If env) || String.eqb "" (Directives_ElseIf env)
            || String.eqb "" (Directives_Else env)) eqn:Econd;
    eexists;
    rewrite (bind_Ok_eq _ _ _ _ _ Hname); cbv beta zeta;
    rewrite (bind_Ok_eq get _ s s s eq_refl);
    rewrite Heq;
    rewrite (bind_Ok_eq (let* s2 := get in Parser.ret (ASTNone (getLocation s2))) _ s s
               (ASTNone (getLocation s)) eq_refl);
    rewrite Hmode, Hmap, Hblock, Econd;
    change (String.eqb "production" "produdction") with false; cbn [negb];
    reflexivity.
Qed.

(** X6. A stray character inside a tag, such as the [@] of [<div @>]: a
    build that is not a production build reports it; a production build,
    where the check of the name is compiled out, reads an empty name
    without moving and never leaves the loop. *)
Theorem parseJSXAttribute_stray_character (tag : string) (type : ASTTypes)
  (s : Cursor) :
  strayInTag env source s = true ->
  (NODE_ENV env <> "production" ->
   forall fuel a,
     parseJSXAttributeLoop env source parse_rec (S (S fuel)) tag type a s
     = Throw (ParseError ("Unexpected identifier " +:+ char source s) (getLocation s)))
  /\ (NODE_ENV env = "production" ->
      directivesMap env "" = false ->
      ASTTypes_eqb type JSXBlock = false ->
      forall fuel a,
        parseJSXAttributeLoop env source parse_rec fuel tag type a s = OutOfFuel).
Proof.
  intros Hstray.
  pose proof (strayInTag_inv s Hstray) as (Hin & Hws & Hend & Hopen & Hid & Heq).
  assert (Hskip : forall fuel, skipWhitespace env source (S fuel) s = Ok tt s).
  { intros fuel. cbn [skipWhitespace]. rewrite Hin, Hws. reflexivity. }
  split.
  - intros Hdev fuel a. cbn [parseJSXAttributeLoop]. rewrite Hin.
    rewrite (bind_Ok_eq _ _ _ _ _ (Hskip fuel)).
    rewrite (bind_Ok_eq get _ s s s eq_refl).
    rewrite Hend, Hopen.
    apply bind_Throw_eq. unfold parseNamedAttribute.
    apply bind_Throw_eq. unfold parseJSXAttributeName.
    apply bind_Throw_eq.
    replace (String.eqb (NODE_ENV env) "production") with false
      by (symmetry; apply String.eqb_neq; exact Hdev).
    cbn [negb]. rewrite Hid. reflexivity.
  - intros Hmode Hmap Hblock fuel.
    induction fuel as [|fuel IH]; intros a; [reflexivity|].
    cbn [parseJSXAttributeLoop]. rewrite Hin.
    destruct fuel as [|fuel]; [reflexivity|].
    rewrite (bind_Ok_eq _ _ _ _ _ (Hskip fuel)).
    rewrite (bind_Ok_eq get _ s s s eq_refl).
    rewrite Hend, Hopen.
    destruct (parseNamedAttribute_stray tag type a fuel s Hmode Hmap Hblock Hstray)
      as (a' & Ha').
    rewrite (bind_Ok_eq _ _ _ _ _ Ha').
    apply IH.
Qed.

End AttributeNames.

(** The attributes of [<div @>], in a production build. *)
Lemma parseJSXAttribute_stray_character_witness :
  parseJSXAttribute Sample.production "<div @>"
    (parse Sample.production "<div @>" 50) 50 "div" JSXCommonElement
    (mkCursor 5 1 6)
  = OutOfFuel.
Proof.
  refine (proj2 (parseJSXAttribute_stray_character Sample.production "<div @>"
                   (parse Sample.production "<div @>" 50) "div" JSXCommonElement
                   (mkCursor 5 1 6) _) _ _ _ 50%nat _);
    reflexivity.
Defined.

(** ** String literals *)

(** What [scanString] reads behind an opening [quote], as a function of the
    rest of the input: the value, and the number of characters up to and
    including the closing quote; [None] when the input ends first.  A
    backslash is dropped and the character behind it is kept as it is, be it
    the quote; a backslash that ends the input closes nothing. *)
Fixpoint readQuoted (quote : string) (rest : string) : option (string * nat) :=
  match rest with
  | EmptyString => None
  | String c r =>
      if String.eqb (String c "") quote then Some ("", 1%nat)
      else if String.eqb (String c "") backslash then
        match r with
        | EmptyString => None
        | String c' r' =>
            match readQuoted quote r' with
            | Some (v, k) => Some (String c' v, S (S k))
            | None => None
            end
        end
      else
        match readQuoted quote r with
        | Some (v, k) => Some (String c v, S k)
        | None => None
        end
  end.

(** [source.slice(i)]. *)
Definition sliceFrom (source : string) (i : Z) : string :=
  jsSlice source i (srcLength source).

Lemma substring_cons (str : string) :
  forall n : nat,
    (n < String.length str)%nat ->
    exists c,
      substring n 1 str = String c ""
      /\ substring n (String.length str - n) str
         = String c (substring (S n) (String.length str - S n) str).
Proof.
  induction str as [|a str IH]; intros n Hn; simpl in Hn; [lia|].
  destruct n as [|n].
  - exists a. split.
    + simpl. destruct str; reflexivity.
    + simpl. rewrite Nat.sub_0_r. reflexivity.
  - destruct (IH n) as (c & H1 & H2); [lia|].
    exists c. split; [exact H1|].
    simpl. exact H2.
Qed.

Lemma substring_all_nil (str : string) (n : nat) : substring n 0 str = "".
Proof.
  revert n. induction str as [|a str IH]; intros [|n]; simpl; auto.
Qed.

(** Inside the input the rest starts with the character at the cursor. *)
Lemma sliceFrom_cons (source : string) (i : Z) :
  0 <= i < srcLength source ->
  exists c,
    charAt source i = String c ""
    /\ sliceFrom source i = String c (sliceFrom source (i + 1)).
Proof.
  intros Hi. unfold sliceFrom, charAt, jsCharAt, jsSlice, srcLength, strLen in *.
  set (n := String.length source) in *.
  destruct (substring_cons source (Z.to_nat i)) as (c & H1 & H2); [fold n; lia|].
  exists c. fold n in H2.
  replace (0 <=? i) with true by (symmetry; apply Z.leb_le; lia).
  replace (i <? Z.of_nat n) with true by (symmetry; apply Z.ltb_lt; lia).
  split; [exact H1|].
  replace (i <? 0) with false by (symmetry; apply Z.ltb_ge; lia).
  replace (Z.of_nat n <? 0) with false by (symmetry; apply Z.ltb_ge; lia).
  replace (i + 1 <? 0) with false by (symmetry; apply Z.ltb_ge; lia).
  rewrite !Z.min_id.
  replace (Z.min i (Z.of_nat n)) with i by lia.
  replace (Z.min (i + 1) (Z.of_nat n)) with (i + 1) by lia.
  replace (i <? Z.of_nat n) with true by (symmetry; apply Z.ltb_lt; lia).
  replace (Z.to_nat (Z.of_nat n - i)) with (n - Z.to_nat i)%nat by lia.
  rewrite H2.
  destruct (i + 1 <? Z.of_nat n) eqn:E.
  - replace (Z.to_nat (i + 1)) with (S (Z.to_nat i)) by lia.
    replace (Z.to_nat (Z.of_nat n - (i + 1))) with (n - S (Z.to_nat i))%nat by lia.
    reflexivity.
  - apply Z.ltb_ge in E.
    replace (n - S (Z.to_nat i))%nat with 0%nat by lia.
    rewrite substring_all_nil. reflexivity.
Qed.

Lemma sliceFrom_end (source : string) (i : Z) :
  srcLength source <= i -> sliceFrom source i = "".
Proof.
  intros Hi. unfold sliceFrom, jsSlice, srcLength, strLen in *.
  set (n := Z.of_nat (String.length source)) in *.
  assert (0 <= n) by (unfold n; lia).
  replace (i <? 0) with false by (symmetry; apply Z.ltb_ge; lia).
  replace (n <? 0) with false by (symmetry; apply Z.ltb_ge; lia).
  replace (Z.min i n) with n by lia.
  rewrite Z.min_id, Z.ltb_irrefl. reflexivity.
Qed.

Lemma length_sliceFrom (source : string) (i : Z) :
  0 <= i ->
  Z.of_nat (String.length (sliceFrom source i)) = Z.max 0 (srcLength source - i).
Proof.
  intros Hi.
  remember (Z.to_nat (srcLength source - i)) as n eqn:Hn.
  revert i Hi Hn. induction n as [|n IH]; intros i Hi Hn.
  - rewrite sliceFrom_end by lia. simpl. lia.
  - destruct (sliceFrom_cons source i) as (c & _ & ->); [lia|].
    simpl String.length. rewrite Nat2Z.inj_succ, IH by lia. lia.
Qed.

Lemma append_nil_r (str : string) : str +:+ "" = str.
Proof.
  induction str as [|a str IH]; [reflexivity|].
  change (String a (str +:+ "") = String a str). f_equal. exact IH.
Qed.

Lemma append_cons_assoc (str : string) (c : ascii) (v : string) :
  (str +:+ String c "") +:+ v = str +:+ String c v.
Proof.
  induction str as [|a str IH]; [reflexivity|].
  change (String a ((str +:+ String c "") +:+ v) = String a (str +:+ String c v)).
  f_equal. exact IH.
Qed.

Section ScanString.

Variable source : string.

(** The loop of [scanString] computes [readQuoted] on the rest of the
    input. *)
Lemma scanStringLoop_readQuoted (quote : string) (fuel : nat) :
  quote <> "" ->
  forall (str : string) (s : Cursor),
    0 <= index s ->
    (String.length (sliceFrom source (index s)) < fuel)%nat ->
    match readQuoted quote (sliceFrom source (index s)) with
    | Some (v, k) =>
        exists s',
          scanStringLoop source fuel quote str s = Ok (str +:+ v, true) s'
          /\ index s' = index s + Z.of_nat k
    | None =>
        exists str' s', scanStringLoop source fuel quote str s = Ok (str', false) s'
    end.
Proof.
  intros Hquote.
  induction fuel as [fuel IH] using lt_wf_ind. intros str s Hi Hfuel.
  destruct fuel as [|fuel]; [lia|].
  destruct (Z.lt_ge_cases (index s) (srcLength source)) as [Hin|Hout].
  2:{ rewrite sliceFrom_end by exact Hout. cbn [readQuoted scanStringLoop].
      replace (index s <? srcLength source) with false
        by (symmetry; apply Z.ltb_ge; exact Hout).
      exists str, s. f_equal. f_equal.
      destruct quote; [congruence | reflexivity]. }
  destruct (sliceFrom_cons source (index s)) as (c & Hc & Hrest); [lia|].
  assert (Hstep : exists l1 c1,
             scanStringLoop source (S fuel) quote str s
             = if String.eqb (String c "") quote
               then Ok (str, true) (mkCursor (index s + 1) l1 (c1 + 1))
               else if String.eqb (String c "") backslash
                    then scanStringLoop source fuel quote
                           (str +:+ charAt source (index s + 1))
                           (mkCursor (index s + 1 + 1) l1 (c1 + 1 + 1))
                    else scanStringLoop source fuel quote (str +:+ String c "")
                           (mkCursor (index s + 1) l1 (c1 + 1))).
  { cbn [scanStringLoop].
    replace (index s <? srcLength source) with true
      by (symmetry; apply Z.ltb_lt; exact Hin).
    unfold char. rewrite Hc.
    destruct (codeIs (jsCharCodeAt (String c "") 0) 10);
      [exists (line s + 1), 0 | exists (line s), (column s)];
      unfold Parser.bind, updateLine, updateIndex, Parser.ret; cbn [index line column];
      destruct (String.eqb (String c "") quote);
      destruct (String.eqb (String c "") backslash); reflexivity. }
  destruct Hstep as (l1 & c1 & Hstep). rewrite Hstep. clear Hstep.
  rewrite Hrest in Hfuel |- *. cbn [readQuoted]. simpl String.length in Hfuel.
  destruct (String.eqb (String c "") quote).
  { exists (mkCursor (index s + 1) l1 (c1 + 1)). rewrite append_nil_r.
    split; [reflexivity | cbn [index]; lia]. }
  destruct (String.eqb (String c "") backslash).
  - destruct (Z.lt_ge_cases (index s + 1) (srcLength source)) as [Hin'|Hout'].
    + destruct (sliceFrom_cons source (index s + 1)) as (c' & Hc' & Hrest'); [lia|].
      rewrite Hrest' in Hfuel |- *. simpl String.length in Hfuel.
      rewrite Hc'.
      specialize (IH fuel ltac:(lia) (str +:+ String c' "")
                    (mkCursor (index s + 1 + 1) l1 (c1 + 1 + 1))).
      cbn [index] in IH. specialize (IH ltac:(lia) ltac:(lia)).
      destruct (readQuoted quote (sliceFrom source (index s + 1 + 1))) as [[v k]|].
      * destruct IH as (s' & Hs' & Hk). exists s'.
        rewrite Hs', append_cons_assoc. split; [reflexivity | lia].
      * exact IH.
    + rewrite (sliceFrom_end source (index s + 1)) by exact Hout'.
      destruct fuel as [|fuel']; [simpl in Hfuel; lia|].
      cbn [scanStringLoop index].
      replace (index s + 1 + 1 <? srcLength source) with false
        by (symmetry; apply Z.ltb_ge; lia).
      eexists. eexists. f_equal. f_equal.
      destruct quote; [congruence | reflexivity].
  - specialize (IH fuel ltac:(lia) (str +:+ String c "")
                  (mkCursor (index s + 1) l1 (c1 + 1))).
    cbn [index] in IH. specialize (IH ltac:(lia) ltac:(lia)).
    destruct (readQuoted quote (sliceFrom source (index s + 1))) as [[v k]|].
    + destruct IH as (s' & Hs' & Hk). exists s'.
      rewrite Hs', append_cons_assoc. split; [reflexivity | lia].
    + exact IH.
Qed.

(** X7. [scanString] at an opening quote returns the value that
    [readQuoted] reads off the rest of the input and stops behind the
    closing quote; when no closing quote is left it raises
    [Unclosed quote] at the location of the opening quote. *)
Theorem scanString_reads_quoted (fuel : nat) (s : Cursor) :
  0 <= index s < srcLength source ->
  (String.length source < fuel)%nat ->
  match readQuoted (char source s) (sliceFrom source (index s + 1)) with
  | Some (value, k) =>
      exists s',
        scanString source fuel s = Ok (ASTString value (getLocation s)) s'
        /\ index s' = index s + 1 + Z.of_nat k
  | None =>
      scanString source fuel s = Throw (ParseError "Unclosed quote" (getLocation s))
  end.
Proof.
  intros Hi Hfuel.
  destruct (sliceFrom_cons source (index s)) as (q & Hq & _); [exact Hi|].
  assert (Hquote : char source s <> "") by (unfold char; rewrite Hq; discriminate).
  pose proof (scanStringLoop_readQuoted (char source s) fuel Hquote ""
                (mkCursor (index s + 1) (line s) (column s + 1))) as Hloop.
  cbn [index] in Hloop.
  assert (Hlen : (String.length (sliceFrom source (index s + 1)) < fuel)%nat).
  { pose proof (length_sliceFrom source (index s + 1) ltac:(lia)) as Hl.
    unfold srcLength, strLen in *. lia. }
  specialize (Hloop ltac:(lia) Hlen).
  destruct (readQuoted (char source s) (sliceFrom source (index s + 1))) as [[v k]|].
  - destruct Hloop as (s' & Hs' & Hk). exists s'.
    unfold scanString. unfold Parser.bind at 1, updateIndex at 1.
    rewrite (bind_Ok_eq _ _ _ _ _ Hs'). split; [reflexivity | exact Hk].
  - destruct Hloop as (str' & s' & Hs').
    unfold scanString. unfold Parser.bind at 1, updateIndex at 1.
    rewrite (bind_Ok_eq _ _ _ _ _ Hs'). reflexivity.
Qed.

End ScanString.

(** The literal of [x = 'it\'s' + 1], and the one of [x = 'it\]. *)
Lemma scanString_reads_quoted_witness :
  (exists s',
      scanString "x = 'it\'s' + 1" 20 (mkCursor 4 1 5)
      = Ok (ASTString "it's" (mkLoc 1 5)) s'
      /\ index s' = 4 + 1 + 6)
  /\ scanString "x = 'it\" 20 (mkCursor 4 1 5)
     = Throw (ParseError "Unclosed quote" (mkLoc 1 5)).
Proof.
  split.
  - exact (scanString_reads_quoted "x = 'it\'s' + 1" 20 (mkCursor 4 1 5)
             ltac:(vm_compute; split; [discriminate | reflexivity])
             ltac:(simpl; lia)).
  - exact (scanString_reads_quoted "x = 'it\" 20 (mkCursor 4 1 5)
             ltac:(vm_compute; split; [discriminate | reflexivity])
             ltac:(simpl; lia)).
Defined.

(** ** [trimRightForValue] *)

Section TrimRight.

Variable env : Env.

(** A line of code made of white space only. *)
Definition allWhiteSpace (code : string) : Prop :=
  forall k, 0 <= k < strLen code -> isWhiteSpace env (jsCharCodeAt code k) = true.

(** The inner loop finds the last character that is not white space. *)
Lemma lastNonWhiteSpace_spec (code : string) (n : nat) :
  let j := lastNonWhiteSpace env n code in
  (j = -1 /\ forall k, 0 <= k < Z.of_nat n -> isWhiteSpace env (jsCharCodeAt code k) = true)
  \/ (0 <= j < Z.of_nat n
      /\ isWhiteSpace env (jsCharCodeAt code j) = false
      /\ forall k, j < k < Z.of_nat n -> isWhiteSpace env (jsCharCodeAt code k) = true).
Proof.
  induction n as [|n IH]; cbn [lastNonWhiteSpace].
  - left. split; [reflexivity | intros k Hk; lia].
  - destruct (isWhiteSpace env (jsCharCodeAt code (Z.of_nat n))) eqn:E; cbn [negb].
    + cbv zeta in IH. destruct IH as [[Hj Hall]|(Hj & Hnot & Hall)].
      * left. split; [exact Hj|]. intros k Hk.
        destruct (Z.eq_dec k (Z.of_nat n)) as [->|Hne]; [exact E | apply Hall; lia].
      * right. split; [lia|]. split; [exact Hnot|]. intros k Hk.
        destruct (Z.eq_dec k (Z.of_nat n)) as [->|Hne]; [exact E | apply Hall; lia].
    + right. split; [lia|]. split; [exact E|]. intros k Hk. lia.
Qed.

Lemma substring_whole (str : string) : substring 0 (String.length str) str = str.
Proof. induction str as [|a str IH]; simpl; [reflexivity | rewrite IH; reflexivity]. Qed.

Lemma jsSlice_whole (str : string) : jsSlice str 0 (strLen str) = str.
Proof.
  unfold jsSlice, strLen.
  replace (0 <? 0) with false by reflexivity.
  replace (Z.of_nat (String.length str) <? 0) with false
    by (symmetry; apply Z.ltb_ge; lia).
  rewrite Z.min_id.
  replace (Z.min 0 (Z.of_nat (String.length str))) with 0 by lia.
  destruct (0 <? Z.of_nat (String.length str)) eqn:E.
  - rewrite Z.sub_0_r, Nat2Z.id. apply substring_whole.
  - apply Z.ltb_ge in E. destruct str; [reflexivity | simpl in E; lia].
Qed.

(** The outer loop, on the lines from the last one: the lines of white
    space are dropped up to the first line that holds something else, which
    is cut behind its last character that is not white space. *)
Lemma trimRightReversed_spec (rvalue : list string) :
  (Forall allWhiteSpace rvalue /\ trimRightReversed env rvalue = [])
  \/ (exists tail code front j,
         rvalue = tail ++ code :: front
         /\ Forall allWhiteSpace tail
         /\ 0 <= j < strLen code
         /\ isWhiteSpace env (jsCharCodeAt code j) = false
         /\ (forall k, j < k < strLen code ->
                       isWhiteSpace env (jsCharCodeAt code k) = true)
         /\ trimRightReversed env rvalue = jsSlice code 0 (j + 1) :: front).
Proof.
  induction rvalue as [|code rest IH]; cbn [trimRightReversed].
  - left. split; [constructor | reflexivity].
  - pose proof (lastNonWhiteSpace_spec code (String.length code)) as Hj.
    cbv zeta in Hj. fold (strLen code) in Hj.
    destruct Hj as [[Hj Hall]|(Hj & Hnot & Hall)].
    + rewrite Hj. cbn [Z.eqb Pos.eqb].
      destruct IH as [[Hblank Hnil]|(tail & code' & front & j & Heq & Htail & Hrest)].
      * left. split; [constructor; assumption | exact Hnil].
      * right. exists (code :: tail), code', front, j.
        split; [rewrite Heq; reflexivity|].
        split; [constructor; assumption | exact Hrest].
    + right.
      exists [], code, rest, (lastNonWhiteSpace env (String.length code) code).
      split; [reflexivity|]. split; [constructor|].
      split; [exact Hj|]. split; [exact Hnot|]. split; [exact Hall|].
      replace (lastNonWhiteSpace env (String.length code) code =? -1) with false
        by (symmetry; apply Z.eqb_neq; lia).
      destruct (lastNonWhiteSpace env (String.length code) code =? strLen code - 1)
        eqn:Elast; cbn [negb]; [|reflexivity].
      apply Z.eqb_eq in Elast. rewrite Elast.
      replace (strLen code - 1 + 1) with (strLen code) by lia.
      rewrite jsSlice_whole. reflexivity.
Qed.

(** X8. [trimRightForValue] drops the trailing lines made of white space
    only and cuts the last other line behind its last character that is not
    white space; the lines before it are kept as they are.  When every line
    is white space nothing is left. *)
Theorem trimRightForValue_spec (value : list string) :
  (Forall allWhiteSpace value /\ trimRightForValue env value = [])
  \/ (exists front code tail j,
         value = front ++ code :: tail
         /\ Forall allWhiteSpace tail
         /\ 0 <= j < strLen code
         /\ isWhiteSpace env (jsCharCodeAt code j) = false
         /\ (forall k, j < k < strLen code ->
                       isWhiteSpace env (jsCharCodeAt code k) = true)
         /\ trimRightForValue env value = front ++ [jsSlice code 0 (j + 1)]).
Proof.
  unfold trimRightForValue.
  destruct (trimRightReversed_spec (rev value))
    as [[Hblank Hnil]|(tail & code & front & j & Heq & Htail & Hj & Hnot & Hall & Hres)].
  - left. split.
    + apply List.Forall_rev in Hblank. rewrite rev_involutive in Hblank. exact Hblank.
    + rewrite Hnil. reflexivity.
  - right. exists (rev front), code, (rev tail), j.
    split.
    { rewrite <- (rev_involutive value), Heq, rev_app_distr. simpl.
      rewrite <- app_assoc. reflexivity. }
    split; [apply List.Forall_rev; exact Htail|].
    split; [exact Hj|]. split; [exact Hnot|]. split; [exact Hall|].
    rewrite Hres. reflexivity.
Qed.

End TrimRight.

(** ** Elements that are not closed *)

(** A position of plain text: no [<], and not the first character of the
    opening delimiter. *)
Definition textAt (env : Env) (source : string) (i : Z) : bool :=
  negb (String.eqb (charAt source i) "<")
  && negb (String.eqb (charAt source i) (jsCharAt (fst (delimiters env)) 0)).

(** Every position from [i] to the end of the input is plain text. *)
Definition textFrom (env : Env) (source : string) (i : Z) : bool :=
  forallb (fun k => textAt env source (i + Z.of_nat k))
          (seq 0 (Z.to_nat (srcLength source - i))).

Lemma endTagOf_head (tag : string) (type : ASTTypes) :
  endTagOf tag type <> "" /\ jsCharAt (endTagOf tag type) 0 = "<".
Proof. destruct type; split; try discriminate; reflexivity. Qed.

Section UnclosedTag.

Variable env : Env.
Variable source : string.
Variable parse_rec : bool -> Z -> M (list ASTNode).
Variable scanJSX_rec : M ASTNode.

Hypothesis opening : fst (delimiters env) <> "".

Lemma textFrom_at (i j : Z) :
  textFrom env source i = true -> i <= j -> j < srcLength source ->
  textAt env source j = true.
Proof.
  intros H Hij Hj. unfold textFrom in H.
  rewrite forallb_forall in H.
  specialize (H (Z.to_nat (j - i))).
  replace (i + Z.of_nat (Z.to_nat (j - i))) with j in H by lia.
  apply H. apply in_seq. lia.
Qed.

(** Nothing that ends a text run starts at a position of plain text. *)
Lemma textAt_no_stop (tag : string) (type : ASTTypes) (j : Z) :
  0 <= j ->
  textAt env source j = true ->
  isExpectAt source (endTagOf tag type) j = false
  /\ isTagStartAt source j = false
  /\ isExpectAt source (fst (delimiters env)) j = false.
Proof.
  intros Hj H. unfold textAt in H.
  apply andb_true_iff in H. destruct H as [Hlt Hopen].
  apply negb_true_iff in Hlt. apply negb_true_iff in Hopen.
  destruct (endTagOf_head tag type) as [Hne Hhead].
  split; [|split].
  - destruct (isExpectAt source (endTagOf tag type) j) eqn:E; [|reflexivity].
    apply isExpectAt_char in E; [|exact Hne|exact Hj].
    rewrite E, Hhead in Hlt. discriminate.
  - unfold isTagStartAt. rewrite Hlt. reflexivity.
  - destruct (isExpectAt source (fst (delimiters env)) j) eqn:E; [|reflexivity].
    apply isExpectAt_char in E; [|exact opening|exact Hj].
    rewrite E, String.eqb_refl in Hopen. discriminate.
Qed.

(** A text run that nothing stops reads to the end of the input. *)
Lemma scanJSXTextLoop_to_end (stopChars : list StopChar) (i : Z) (n : nat) :
  (forall s', i <= index s' -> index s' < srcLength source ->
              existsb (fun stop => stopsAt source stop s') stopChars = false) ->
  forall fuel s,
    i <= index s ->
    srcLength source - index s <= Z.of_nat n ->
    (n < fuel)%nat ->
    exists s',
      scanJSXTextLoop env source fuel stopChars s = Ok tt s'
      /\ index s' = Z.max (index s) (srcLength source).
Proof.
  intros Hstops.
  induction n as [|n IH]; intros fuel s Hi Hn Hfuel;
    (destruct fuel as [|fuel]; [lia|]); cbn [scanJSXTextLoop].
  - replace (index s <? srcLength source) with false
      by (symmetry; apply Z.ltb_ge; lia).
    exists s. split; [reflexivity | lia].
  - destruct (index s <? srcLength source) eqn:E.
    2:{ apply Z.ltb_ge in E. exists s. split; [reflexivity | lia]. }
    apply Z.ltb_lt in E.
    rewrite (Hstops s Hi E).
    destruct (isWhiteSpace env (charCode source s));
      [destruct (codeIs (charCode source s) 10)|];
      unfold Parser.bind, updateLine, updateIndex, Parser.ret; cbn [index line column];
      match goal with
      | |- exists s', scanJSXTextLoop _ _ _ _ ?c = _ /\ _ =>
          destruct (IH fuel c) as (s' & H1 & H2); [cbn [index]; lia ..|];
          exists s'; split; [exact H1 | cbn [index] in H2; lia]
      end.
Qed.

Lemma lookaheadBetweenTags_text (tag : string) (type : ASTTypes)
  (skipBeforeDelimiter : bool) (i : Z) (n : nat) :
  textFrom env source i = true ->
  forall fuel start,
    0 <= start -> i <= start ->
    srcLength source - start <= Z.of_nat n ->
    (n < fuel)%nat ->
    lookaheadBetweenTags env source fuel (endTagOf tag type) skipBeforeDelimiter start
    = Some false.
Proof.
  intros Htext.
  induction n as [|n IH]; intros fuel start H0 Hi Hn Hfuel;
    (destruct fuel as [|fuel]; [lia|]); cbn [lookaheadBetweenTags].
  - replace (start <? srcLength source) with false
      by (symmetry; apply Z.ltb_ge; lia).
    reflexivity.
  - destruct (start <? srcLength source) eqn:E; [|reflexivity].
    apply Z.ltb_lt in E.
    destruct (isWhiteSpace env (charCodeAt source start)).
    + apply IH; lia.
    + destruct (textAt_no_stop tag type start H0 (textFrom_at i start Htext Hi E))
        as (-> & -> & ->).
      rewrite andb_false_r. reflexivity.
Qed.

(** X9. An element whose content is plain text up to the end of the input
    is not closed: the children are read to the end, and
    [parseJSXChildrenValue] raises [Unclosed tag] with the closing tag it
    waited for, at the location [loc] of the element, not at the end of the
    input. *)
Theorem parseJSXChildrenValue_unclosed_tag (tag : string) (type : ASTTypes)
  (hasVRaw isTextTag : bool) (loc : SourceLocation) (fuel : nat) (s : Cursor) :
  0 <= index s ->
  textFrom env source (index s) = true ->
  (String.length source + 2 <= fuel)%nat ->
  parseJSXChildrenValue env source parse_rec scanJSX_rec fuel tag type
    hasVRaw isTextTag loc s
  = Throw (ParseError ("Unclosed tag: " +:+ endTagOf tag type) loc).
Proof.
  intros Hi Htext Hfuel.
  set (endTag := endTagOf tag type).
  assert (Hno : forall s', index s <= index s' -> index s' < srcLength source ->
                           isExpect source endTag s' = false
                           /\ isTagStart source s' = false
                           /\ isExpect source (fst (delimiters env)) s' = false).
  { intros s' Hs' Hin. apply textAt_no_stop; [lia|].
    apply (textFrom_at (index s)); assumption. }
  assert (Hlen : srcLength source = Z.of_nat (String.length source)) by reflexivity.
  assert (Htextrun : forall f stopChars,
             (forall s', index s <= index s' -> index s' < srcLength source ->
                         existsb (fun stop => stopsAt source stop s') stopChars = false) ->
             (String.length source < f)%nat ->
             exists text s1,
               scanJSXText env source f stopChars s = Ok text s1
               /\ isElementNode text = false
               /\ index s1 = Z.max (index s) (srcLength source)).
  { intros f stopChars Hstops Hf.
    destruct (scanJSXTextLoop_to_end stopChars (index s)
                (Z.to_nat (srcLength source - index s)) Hstops f s)
      as (s1 & H1 & H2); [lia | lia | lia |].
    unfold scanJSXText. rewrite (bind_Ok_eq _ _ _ _ _ H1).
    eexists. exists s1. split; [reflexivity|]. split; [reflexivity | exact H2]. }
  assert (Hchildren : exists children s1,
             (if hasVRaw then rawChildrenLoop env source fuel endTag []
              else
                skipWhitespaceBetweenTags env source fuel endTag true ;;
                childrenLoop env source
                  (parseJSXChild env source parse_rec scanJSX_rec fuel endTag isTextTag)
                  fuel endTag [] None) s = Ok children s1
             /\ srcLength source <= index s1).
  { destruct hasVRaw.
    - destruct fuel as [|[|fuel']]; [lia | lia |].
      cbn [rawChildrenLoop].
      destruct (index s <? srcLength source) eqn:Hin.
      2:{ apply Z.ltb_ge in Hin. eexists. exists s. split; [reflexivity | exact Hin]. }
      apply Z.ltb_lt in Hin.
      destruct (Hno s ltac:(lia) Hin) as (-> & _ & _).
      destruct (Htextrun (S fuel') [StopString endTag]) as (text & s1 & H1 & _ & H2);
        [|lia|].
      { intros s' Hs' Hin'. cbn [existsb stopsAt].
        destruct (Hno s' Hs' Hin') as (-> & _ & _). reflexivity. }
      rewrite (bind_Ok_eq _ _ _ _ _ H1). cbn [rawChildrenLoop].
      replace (index s1 <? srcLength source) with false
        by (symmetry; apply Z.ltb_ge; lia).
      eexists. exists s1. split; [reflexivity | lia].
    - assert (Hskip : skipWhitespaceBetweenTags env source fuel endTag true s = Ok tt s).
      { unfold skipWhitespaceBetweenTags, endTag.
        rewrite (lookaheadBetweenTags_text tag type true (index s)
                   (Z.to_nat (srcLength source - index s)) Htext); [reflexivity|..];
          lia. }
      rewrite (bind_Ok_eq _ _ _ _ _ Hskip).
      assert (Hchild : index s < srcLength source ->
                exists text s1,
                  parseJSXChild env source parse_rec scanJSX_rec fuel endTag
                    isTextTag s = Ok text s1
                  /\ isElementNode text = false
                  /\ index s1 = Z.max (index s) (srcLength source)).
      { intros Hin. unfold parseJSXChild.
        destruct (Hno s ltac:(lia) Hin) as (Hend & Htag & Hopen).
        rewrite Hopen, Htag.
        destruct isTextTag; apply Htextrun; try lia;
          intros s' Hs' Hin'; cbn [existsb stopsAt];
          destruct (Hno s' Hs' Hin') as (H1 & H2 & H3);
          rewrite ?H1, ?H2, ?H3; reflexivity. }
      destruct fuel as [|[|fuel']]; [lia | lia |].
      cbn [childrenLoop].
      destruct (index s <? srcLength source) eqn:Hin.
      2:{ apply Z.ltb_ge in Hin. eexists. exists s. split; [reflexivity | exact Hin]. }
      apply Z.ltb_lt in Hin.
      destruct (Hno s ltac:(lia) Hin) as (-> & _ & _).
      destruct (Hchild Hin) as (text & s1 & -> & Htextnode & H2).
      unfold linkChild. rewrite Htextnode.
      cbn [childrenLoop].
      replace (index s1 <? srcLength source) with false
        by (symmetry; apply Z.ltb_ge; lia).
      eexists. exists s1. split; [reflexivity | lia]. }
  destruct Hchildren as (children & s1 & Hchildren & Hend).
  unfold parseJSXChildrenValue. fold endTag.
  rewrite (bind_Ok_eq _ _ _ _ _ Hchildren).
  apply bind_Throw_eq. unfold parseJSXClosingTag.
  apply bind_Throw_eq. unfold expect.
  rewrite isExpect_at_end; [reflexivity | discriminate | exact Hend].
Qed.

End UnclosedTag.

(** The content of [<p>Hello, world], from behind the tag. *)
Lemma parseJSXChildrenValue_unclosed_tag_witness :
  parseJSXChildrenValue Sample.development "<p>Hello, world"
    (parse Sample.development "<p>Hello, world" 30)
    (scanJSX Sample.development "<p>Hello, world" 30) 30 "p" JSXCommonElement
    false false (mkLoc 1 2) (mkCursor 3 1 4)
  = Throw (ParseError "Unclosed tag: </p>" (mkLoc 1 2)).
Proof.
  apply (parseJSXChildrenValue_unclosed_tag Sample.development "<p>Hello, world").
  - discriminate.
  - simpl. lia.
  - vm_compute. reflexivity.
  - simpl. lia.
Defined.

(** ** A closing delimiter outside an expression *)

(** The closing delimiter stands at the cursor, and its first character is
    none that [scanJS] treats before it looks for the delimiter: no quote,
    no slash, no [<], no line break, no space, no [{]. *)
Definition closingAhead (env : Env) (source : string) (isRoot : bool) (s : Cursor)
  : bool :=
  let ch := char source s in
  (index s <? srcLength source)
  && isExpect source (snd (delimiters env)) s
  && negb (isRoot && isJSImport source s)
  && negb (String.eqb ch "'" || String.eqb ch dquote || String.eqb ch "`")
  && negb (String.eqb ch "/")
  && negb (String.eqb ch "<")
  && negb (String.eqb ch newline)
  && negb (String.eqb ch " ")
  && negb (String.eqb ch "{").

(** X13. [parse] stops at a closing delimiter that closes nothing: it
    returns one script node without lines and leaves the cursor on the
    delimiter.  At the root the constructor keeps that list as the [ast]:
    what follows the delimiter is not read and no error is raised. *)
Theorem parse_stops_at_closing_delimiter (env : Env) (source : string)
  (fuel : nat) (isRoot : bool) (spaces : Z) (s : Cursor) :
  closingAhead env source isRoot s = true ->
  (4 <= fuel)%nat ->
  parse env source fuel isRoot spaces s = Ok [ASTJS [] 0 (getLocation s)] s.
Proof.
  unfold closingAhead. cbv zeta. intros H Hfuel.
  repeat (apply andb_true_iff in H; destruct H as [H ?]).
  repeat match goal with
         | H : negb _ = true |- _ => apply negb_true_iff in H
         end.
  match goal with H : (_ || _ || _) = false |- _ => rename H into Hquote end.
  match goal with H : String.eqb _ "/" = false |- _ => rename H into Hslash end.
  match goal with H : String.eqb _ "<" = false |- _ => rename H into Hlt end.
  match goal with H : String.eqb _ newline = false |- _ => rename H into Hnl end.
  match goal with H : String.eqb _ " " = false |- _ => rename H into Hsp end.
  match goal with H : String.eqb _ "{" = false |- _ => rename H into Hopen end.
  match goal with H : (_ && _) = false |- _ => rename H into Himport end.
  match goal with H : isExpect _ _ _ = true |- _ => rename H into Hclose end.
  rename H into Hin.
  destruct fuel as [|[|[|[|fuel]]]]; try lia.
  assert (Hloop : scanJSLoop env source (S (S fuel)) isRoot spaces
                    (mkScanJS [] (index s) spaces true 0 false 0) s
                  = Ok (mkScanJS [] (index s) spaces true 0 true (0 - 1)) s).
  { cbn [scanJSLoop]. rewrite Hin.
    rewrite (bind_Ok_eq _ _ _ _ _
               (skipJSComment_plain source (S fuel) s ltac:(lia) Hslash)).
    assert (Hlit : startsLiteral env source (S fuel) s = Ok false s).
    { unfold startsLiteral. rewrite Hquote, Hslash. reflexivity. }
    rewrite (bind_Ok_eq _ _ _ _ _ Hlit).
    rewrite (bind_Ok_eq get _ s s s eq_refl).
    unfold isTagStart, isTagStartAt. unfold char in Hlt. rewrite Hlt.
    cbn [andb]. rewrite Himport.
    fold (char source s). rewrite Hnl, Hsp, Hopen.
    cbn [newLine count andb]. replace (0 <? 0) with false by reflexivity.
    cbn [andb]. rewrite Hclose. reflexivity. }
  assert (Hadvance : advance env source (parse env source (S (S (S fuel))))
                       (scanJSX env source (S (S (S fuel)))) (S (S fuel)) 0 isRoot spaces s
                     = Ok (ASTJS [] 0 (getLocation s), 0 - 1) s).
  { unfold advance. rewrite Himport, Hlt. cbn [negb].
    unfold scanJS. rewrite (bind_Ok_eq _ _ _ _ _ Hloop).
    rewrite (bind_Ok_eq get _ s s s eq_refl).
    cbn [value start shouldTrimRight leadSpaces count].
    unfold Parser.ret, getValue, getValueTo. rewrite jsSlice_empty. reflexivity. }
  cbn [parse]. unfold parseBody. cbn [parseLoop]. rewrite Hin.
  cbn [andb Z.leb Z.compare].
  rewrite (bind_Ok_eq _ _ _ _ _ Hadvance). cbn [parseLoop].
  rewrite andb_false_r. reflexivity.
Qed.

(** The template [} <b>x</b>]. *)
Lemma parse_stops_at_closing_delimiter_witness :
  parse Sample.development "} <b>x</b>" 40 true 0 (mkCursor 0 1 1)
  = Ok [ASTJS [] 0 (mkLoc 1 1)] (mkCursor 0 1 1).
Proof.
  apply (parse_stops_at_closing_delimiter Sample.development "} <b>x</b>" 40 true 0
           (mkCursor 0 1 1)).
  - reflexivity.
  - lia.
Defined.

(** ** Line and column *)

(** The line and column behind [text], read from line [l], column [c]: a
    line break starts a line at column 1, as [updateLine] followed by
    [updateIndex] does. *)
Fixpoint lineColumn (text : string) (l c : Z) : Z * Z :=
  match text with
  | EmptyString => (l, c)
  | String a rest =>
      if asciiCode a =? 10 then lineColumn rest (l + 1) 1
      else lineColumn rest l (c + 1)
  end.

(** The location of the character at [i]: the constructor starts at line 1,
    column 1. *)
Definition trueLocation (source : string) (i : Z) : Z * Z :=
  lineColumn (jsSlice source 0 i) 1 1.

(** The cursor is inside or at the end of the input and holds the location
    of its index. *)
Definition wellLocated (source : string) (s : Cursor) : Prop :=
  0 <= index s /\ (line s, column s) = trueLocation source (index s).

(** No line break in [str]. *)
Fixpoint noLineBreak (str : string) : bool :=
  match str with
  | EmptyString => true
  | String a rest => negb (asciiCode a =? 10) && noLineBreak rest
  end.

Lemma lineColumn_snoc (text : string) (a : ascii) :
  forall l c,
    lineColumn (text +:+ String a "") l c
    = let (l', c') := lineColumn text l c in
      if asciiCode a =? 10 then (l' + 1, 1) else (l', c' + 1).
Proof.
  induction text as [|b text IH]; intros l c.
  - reflexivity.
  - change (String b text +:+ String a "") with (String b (text +:+ String a "")).
    cbn [lineColumn]. destruct (asciiCode b =? 10); apply IH.
Qed.

Lemma substring_snoc (str : string) :
  forall (n : nat) (a : ascii),
    substring n 1 str = String a "" ->
    substring 0 (S n) str = substring 0 n str +:+ String a "".
Proof.
  induction str as [|b str IH]; intros n a H.
  - destruct n; discriminate.
  - destruct n as [|n].
    + simpl in H. injection H as -> _. simpl. destruct str; reflexivity.
    + simpl in H.
      change (substring 0 (S (S n)) (String b str))
        with (String b (substring 0 (S n) str)).
      change (substring 0 (S n) (String b str)) with (String b (substring 0 n str)).
      change (String b (substring 0 n str) +:+ String a "")
        with (String b (substring 0 n str +:+ String a "")).
      rewrite (IH n a H). reflexivity.
Qed.

Lemma jsSlice_prefix (source : string) (i : Z) :
  0 <= i <= srcLength source ->
  jsSlice source 0 i = substring 0 (Z.to_nat i) source.
Proof.
  intros Hi. unfold jsSlice, srcLength, strLen in *.
  set (n := Z.of_nat (String.length source)) in *.
  replace (0 <? 0) with false by reflexivity.
  replace (i <? 0) with false by (symmetry; apply Z.ltb_ge; lia).
  replace (Z.min 0 n) with 0 by lia.
  replace (Z.min i n) with i by lia.
  destruct (0 <? i) eqn:E.
  - rewrite Z.sub_0_r. reflexivity.
  - apply Z.ltb_ge in E. replace (Z.to_nat i) with 0%nat by lia.
    rewrite substring_all_nil. reflexivity.
Qed.

Lemma jsSlice_snoc (source : string) (i : Z) (a : ascii) :
  0 <= i < srcLength source ->
  charAt source i = String a "" ->
  jsSlice source 0 (i + 1) = jsSlice source 0 i +:+ String a "".
Proof.
  intros Hi Ha. rewrite !jsSlice_prefix by lia.
  unfold charAt, jsCharAt, srcLength, strLen in *.
  replace (0 <=? i) with true in Ha by (symmetry; apply Z.leb_le; lia).
  replace (i <? Z.of_nat (String.length source)) with true in Ha
    by (symmetry; apply Z.ltb_lt; lia).
  cbn [andb] in Ha.
  replace (Z.to_nat (i + 1)) with (S (Z.to_nat i)) by lia.
  apply substring_snoc. exact Ha.
Qed.

Lemma get_substring (str : string) :
  forall (n : nat) (a : ascii),
    substring n 1 str = String a "" -> String.get n str = Some a.
Proof.
  induction str as [|b str IH]; intros n a H.
  - destruct n; discriminate.
  - destruct n as [|n]; simpl in *.
    + injection H as -> _. reflexivity.
    + apply IH. exact H.
Qed.

Lemma charCode_of_char (source : string) (i : Z) (a : ascii) :
  0 <= i < srcLength source ->
  charAt source i = String a "" ->
  charCodeAt source i = Some (asciiCode a).
Proof.
  intros Hi Ha. unfold charAt, jsCharAt, charCodeAt, jsCharCodeAt, srcLength, strLen in *.
  replace (0 <=? i) with true in * by (symmetry; apply Z.leb_le; lia).
  replace (i <? Z.of_nat (String.length source)) with true in Ha
    by (symmetry; apply Z.ltb_lt; lia).
  cbn [andb] in Ha.
  rewrite (get_substring source (Z.to_nat i) a Ha). reflexivity.
Qed.

Lemma substring_app_split (str : string) :
  forall n m : nat,
    substring 0 (n + m) str = substring 0 n str +:+ substring n m str.
Proof.
  induction str as [|b str IH]; intros n m.
  - destruct n, m; reflexivity.
  - destruct n as [|n].
    + rewrite substring_all_nil. reflexivity.
    + change (substring 0 (S n + m) (String b str))
        with (String b (substring 0 (n + m) str)).
      change (substring 0 (S n) (String b str)) with (String b (substring 0 n str)).
      change (substring (S n) m (String b str)) with (substring n m str).
      rewrite IH. reflexivity.
Qed.

Lemma lineColumn_plain (str : string) :
  noLineBreak str = true ->
  forall l c, lineColumn str l c = (l, c + strLen str).
Proof.
  unfold strLen.
  induction str as [|a str IH]; intros H l c; cbn [lineColumn].
  - simpl. f_equal. lia.
  - cbn [noLineBreak] in H. apply andb_true_iff in H. destruct H as [Ha Hrest].
    apply negb_true_iff in Ha. rewrite Ha, (IH Hrest).
    f_equal. simpl String.length. lia.
Qed.

Lemma lineColumn_app (text str : string) :
  forall l c,
    lineColumn (text +:+ str) l c
    = let (l', c') := lineColumn text l c in lineColumn str l' c'.
Proof.
  induction text as [|b text IH]; intros l c.
  - reflexivity.
  - change (String b text +:+ str) with (String b (text +:+ str)).
    cbn [lineColumn]. destruct (asciiCode b =? 10); apply IH.
Qed.

Section Locations.

Variable env : Env.
Variable source : string.

(** One character read as the loops read it: [updateLine] at a line break,
    then [updateIndex]. *)
Lemma wellLocated_step (s : Cursor) :
  index s < srcLength source ->
  wellLocated source s ->
  wellLocated source
    (if codeIs (charCode source s) 10
     then mkCursor (index s + 1) (line s + 1) (0 + 1)
     else mkCursor (index s + 1) (line s) (column s + 1)).
Proof.
  intros Hin [Hi Hs]. unfold wellLocated, trueLocation in *.
  destruct (sliceFrom_cons source (index s) ltac:(lia)) as (a & Ha & _).
  unfold charCode. rewrite (charCode_of_char source (index s) a ltac:(lia) Ha).
  cbn [codeIs].
  assert (Hnext : lineColumn (jsSlice source 0 (index s + 1)) 1 1
                  = if asciiCode a =? 10 then (line s + 1, 1) else (line s, column s + 1)).
  { rewrite (jsSlice_snoc source (index s) a ltac:(lia) Ha), lineColumn_snoc, <- Hs.
    reflexivity. }
  destruct (asciiCode a =? 10); cbn [index line column]; rewrite Hnext;
    (split; [lia | reflexivity]).
Qed.

(** A text without line break that stands at the cursor, read with one
    [updateIndex]. *)
Lemma wellLocated_expect (str : string) (s : Cursor) :
  str <> "" ->
  noLineBreak str = true ->
  isExpect source str s = true ->
  wellLocated source s ->
  wellLocated source
    (mkCursor (index s + strLen str) (line s) (column s + strLen str)).
Proof.
  intros Hne Hplain Hexp [Hi Hs].
  pose proof (isExpectAt_bound source str (index s) Hne Hi Hexp) as Hbound.
  unfold wellLocated, trueLocation in *. cbn [index line column].
  assert (Hlen : 0 <= strLen str) by (unfold strLen; lia).
  split; [lia|].
  assert (Hsplit : jsSlice source 0 (index s + strLen str)
                   = jsSlice source 0 (index s) +:+ str).
  { rewrite !jsSlice_prefix by lia.
    replace (Z.to_nat (index s + strLen str))
      with (Z.to_nat (index s) + Z.to_nat (strLen str))%nat by lia.
    rewrite substring_app_split. f_equal.
    unfold isExpect, isExpectAt in Hexp. apply String.eqb_eq in Hexp.
    rewrite <- Hexp at 2. unfold jsSlice.
    unfold srcLength in Hbound. fold (strLen source).
    replace (index s <? 0) with false by (symmetry; apply Z.ltb_ge; lia).
    replace (index s + strLen str <? 0) with false by (symmetry; apply Z.ltb_ge; lia).
    replace (Z.min (index s) (strLen source)) with (index s) by lia.
    replace (Z.min (index s + strLen str) (strLen source))
      with (index s + strLen str) by lia.
    destruct (index s <? index s + strLen str) eqn:E.
    - f_equal. lia.
    - apply Z.ltb_ge in E. replace (Z.to_nat (strLen str)) with 0%nat by lia.
      apply substring_all_nil. }
  rewrite Hsplit, lineColumn_app, <- Hs. rewrite (lineColumn_plain str Hplain).
  reflexivity.
Qed.

(** Two characters that are no line breaks, read with [updateIndex(2)]. *)
Lemma wellLocated_two (s : Cursor) (a b : ascii) :
  String.eqb (char source s) (String a "") = true ->
  String.eqb (charAt source (index s + 1)) (String b "") = true ->
  (asciiCode a =? 10) = false ->
  (asciiCode b =? 10) = false ->
  wellLocated source s ->
  wellLocated source (mkCursor (index s + 2) (line s) (column s + 2)).
Proof.
  intros Ha Hb Hna Hnb Hs.
  pose proof (char_eqb_inside source s _ Ha ltac:(discriminate)) as Hi.
  apply String.eqb_eq in Ha.
  pose proof (wellLocated_step s ltac:(lia) Hs) as H1.
  unfold charCode in H1.
  rewrite (charCode_of_char source (index s) a Hi Ha) in H1.
  cbn [codeIs] in H1. rewrite Hna in H1.
  pose proof (charAt_inside source (index s + 1) _ Hb ltac:(discriminate)) as Hi2.
  apply String.eqb_eq in Hb.
  pose proof (wellLocated_step (mkCursor (index s + 1) (line s) (column s + 1))
                ltac:(cbn [index]; lia) H1) as H2.
  unfold charCode in H2. cbn [index line column] in H2.
  rewrite (charCode_of_char source (index s + 1) b Hi2 Hb) in H2.
  cbn [codeIs] in H2. rewrite Hnb in H2.
  replace (index s + 2) with (index s + 1 + 1) by lia.
  replace (column s + 2) with (column s + 1 + 1) by lia.
  exact H2.
Qed.

Lemma skipWhitespace_located (fuel : nat) :
  forall s s',
    skipWhitespace env source fuel s = Ok tt s' ->
    wellLocated source s -> wellLocated source s'.
Proof.
  induction fuel as [|fuel IH]; intros s s' H Hs; [discriminate|].
  cbn [skipWhitespace] in H.
  destruct (index s <? srcLength source) eqn:E; [|injection H as <-; exact Hs].
  apply Z.ltb_lt in E.
  destruct (negb (isWhiteSpace env (charCode source s))); [injection H as <-; exact Hs|].
  pose proof (wellLocated_step s E Hs) as Hstep.
  destruct (codeIs (charCode source s) 10);
    unfold Parser.bind, updateLine, updateIndex, Parser.ret in H;
    cbn [index line column] in H;
    (eapply IH; [exact H | exact Hstep]).
Qed.

Lemma skipLineComment_located (fuel : nat) :
  forall s s',
    skipLineComment source fuel s = Ok tt s' ->
    wellLocated source s -> wellLocated source s'.
Proof.
  induction fuel as [|fuel IH]; intros s s' H Hs; [discriminate|].
  cbn [skipLineComment] in H.
  destruct (index s <? srcLength source) eqn:E; [|injection H as <-; exact Hs].
  apply Z.ltb_lt in E.
  pose proof (wellLocated_step s E Hs) as Hstep.
  destruct (codeIs (charCode source s) 10); [injection H as <-; exact Hs|].
  unfold Parser.bind, updateIndex in H.
  eapply IH; [exact H | exact Hstep].
Qed.

Lemma skipBlockComment_located (fuel : nat) :
  forall s s',
    skipBlockComment source fuel s = Ok tt s' ->
    wellLocated source s -> wellLocated source s'.
Proof.
  induction fuel as [|fuel IH]; intros s s' H Hs; [discriminate|].
  cbn [skipBlockComment] in H.
  destruct (index s <? srcLength source) eqn:E; [|injection H as <-; exact Hs].
  apply Z.ltb_lt in E.
  destruct (isExpect source "*/" s) eqn:Eend.
  - unfold Parser.bind, updateIndex, Parser.ret in H. injection H as <-.
    apply (wellLocated_expect "*/" s);
      [discriminate | reflexivity | exact Eend | exact Hs].
  - pose proof (wellLocated_step s E Hs) as Hstep.
    destruct (codeIs (charCode source s) 10);
      unfold Parser.bind, updateLine, updateIndex, Parser.ret in H;
      cbn [index line column] in H;
      (eapply IH; [exact H | exact Hstep]).
Qed.

Lemma skipJSComment_located (fuel : nat) :
  forall s s',
    skipJSComment source fuel s = Ok tt s' ->
    wellLocated source s -> wellLocated source s'.
Proof.
  induction fuel as [|fuel IH]; intros s s' H Hs; [discriminate|].
  cbn [skipJSComment] in H.
  inv_ok H. inv_ok H. inv_ok Hm0.
  assert (Hmid : wellLocated source s0).
  { destruct (String.eqb (char source s) "/") eqn:Eslash;
      [|inv_ok Hm; exact Hs].
    destruct (String.eqb (charAt source (index s + 1)) "/") eqn:E1.
    { inv_ok Hm. unfold updateIndex in Hm0. injection Hm0 as _ <-. destruct a.
      eapply skipLineComment_located; [exact Hm|].
      apply (wellLocated_two s _ _ Eslash E1); [reflexivity | reflexivity | exact Hs]. }
    destruct (String.eqb (charAt source (index s + 1)) "*") eqn:E2;
      [|inv_ok Hm; exact Hs].
    inv_ok Hm. unfold updateIndex in Hm0. injection Hm0 as _ <-. destruct a.
    eapply skipBlockComment_located; [exact Hm|].
    apply (wellLocated_two s _ _ Eslash E2); [reflexivity | reflexivity | exact Hs]. }
  destruct (negb (index s =? index s0)).
  - eapply IH; [exact H | exact Hmid].
  - inv_ok H. exact Hmid.
Qed.

Lemma skipWhitespaceAndJSComment_located (fuel : nat) :
  forall s s',
    skipWhitespaceAndJSComment env source fuel s = Ok tt s' ->
    wellLocated source s -> wellLocated source s'.
Proof.
  induction fuel as [|fuel IH]; intros s s' H Hs; [discriminate|].
  cbn [skipWhitespaceAndJSComment] in H.
  apply bind_Ok in H. destruct H as ([] & s1 & H1 & H).
  apply bind_Ok in H. destruct H as ([] & s2 & H2 & H).
  apply bind_Ok in H. destruct H as (s3 & s4 & H3 & H).
  apply get_Ok in H3. destruct H3 as [-> ->].
  pose proof (skipWhitespace_located fuel _ _ H1 Hs) as Hs1.
  pose proof (skipJSComment_located fuel _ _ H2 Hs1) as Hs2.
  destruct (negb (index s =? index s2)).
  - eapply IH; [exact H | exact Hs2].
  - apply ret_Ok in H. destruct H as [_ <-]. exact Hs2.
Qed.

Lemma parseJSXCommentLoop_located (fuel : nat) :
  forall s s',
    parseJSXCommentLoop source fuel s = Ok tt s' ->
    wellLocated source s -> wellLocated source s'.
Proof.
  induction fuel as [|fuel IH]; intros s s' H Hs; [discriminate|].
  cbn [parseJSXCommentLoop] in H.
  destruct (index s <? srcLength source) eqn:E; [|injection H as <-; exact Hs].
  apply Z.ltb_lt in E.
  destruct (isExpect source "-->" s); [injection H as <-; exact Hs|].
  pose proof (wellLocated_step s E Hs) as Hstep.
  destruct (codeIs (charCode source s) 10);
    unfold Parser.bind, updateLine, updateIndex, Parser.ret in H;
    cbn [index line column] in H;
    (eapply IH; [exact H | exact Hstep]).
Qed.

End Locations.

(** X14. White space and comments are passed with the line and the column
    kept right: when the cursor holds the location of its index (line 1,
    column 1 at index 0, a line break starting a line at column 1), it still
    does after [skipWhitespaceAndJSComment] and after [parseJSXComment]. *)
Theorem skipping_keeps_location (env : Env) (source : string) (fuel : nat)
  (s s' : Cursor) :
  wellLocated source s ->
  (skipWhitespaceAndJSComment env source fuel s = Ok tt s' -> wellLocated source s')
  /\ (forall comment,
         parseJSXComment source fuel s = Ok comment s' -> wellLocated source s').
Proof.
  intros Hs. split.
  - intros H. eapply skipWhitespaceAndJSComment_located; eauto.
  - intros comment H. unfold parseJSXComment in H.
    apply bind_Ok in H. destruct H as ([] & s1 & H1 & H).
    apply bind_Ok in H. destruct H as (s1' & s1'' & Hget & H).
    apply get_Ok in Hget. destruct Hget as [-> ->].
    apply bind_Ok in H. destruct H as ([] & s2 & H2 & H).
    apply bind_Ok in H. destruct H as (s2' & s2'' & Hget & H).
    apply get_Ok in Hget. destruct Hget as [-> ->].
    apply bind_Ok in H. destruct H as ([] & s3 & H3 & H).
    apply ret_Ok in H. destruct H as [_ <-].
    assert (Hs1 : wellLocated source s1).
    { unfold expect in H1. destruct (isExpect source "!--" s) eqn:E; [|discriminate].
      unfold Parser.bind, updateIndex, Parser.ret in H1. injection H1 as <-.
      apply (wellLocated_expect source "!--" s);
        [discriminate | reflexivity | exact E | exact Hs]. }
    pose proof (parseJSXCommentLoop_located source fuel _ _ H2 Hs1) as Hs2.
    unfold expect in H3. destruct (isExpect source "-->" s2) eqn:E; [|discriminate].
    unfold Parser.bind, updateIndex, Parser.ret in H3. injection H3 as <-.
    apply (wellLocated_expect source "-->" s2);
      [discriminate | reflexivity | exact E | exact Hs2].
Qed.

(** Behind the opening delimiter of a template that starts with [{], in
    front of a comment of two lines. *)
Lemma skipping_keeps_location_witness :
  wellLocated ("{ /*a" +:+ newline +:+ "b*/ x}") (mkCursor 10 2 5).
Proof.
  refine (proj1 (skipping_keeps_location Sample.development _ 20
                   (mkCursor 1 1 2) (mkCursor 10 2 5) _) _).
  - split; [simpl; lia | reflexivity].
  - vm_compute. reflexivity.
Defined.

(** ** Comments of the markup *)

Section Comments.

Variable source : string.

(** The loop of [parseJSXComment] stops at the first [-->], or at the end
    of the input. *)
Lemma parseJSXCommentLoop_to (p : Z) (n : nat) :
  p <= srcLength source ->
  (isExpectAt source "-->" p = true \/ srcLength source <= p) ->
  forall fuel s,
    index s <= p ->
    (forall j, index s <= j < p -> isExpectAt source "-->" j = false) ->
    p - index s <= Z.of_nat n ->
    (n < fuel)%nat ->
    exists s', parseJSXCommentLoop source fuel s = Ok tt s' /\ index s' = p.
Proof.
  intros Hp Hstop.
  induction n as [|n IH]; intros fuel s Hs Hno Hn Hfuel;
    (destruct fuel as [|fuel]; [lia|]); cbn [parseJSXCommentLoop].
  - assert (index s = p) by lia.
    destruct (index s <? srcLength source) eqn:E;
      [|exists s; split; [reflexivity | assumption]].
    apply Z.ltb_lt in E. destruct Hstop as [Hstop|Hstop]; [|lia].
    unfold isExpect. replace (index s) with p. rewrite Hstop.
    exists s. split; [reflexivity | assumption].
  - destruct (Z.eq_dec (index s) p) as [Heq|Hne].
    + destruct (index s <? srcLength source) eqn:E;
        [|exists s; split; [reflexivity | assumption]].
      apply Z.ltb_lt in E. destruct Hstop as [Hstop|Hstop]; [|lia].
      unfold isExpect. rewrite Heq, Hstop.
      exists s. split; [reflexivity | assumption].
    + replace (index s <? srcLength source) with true
        by (symmetry; apply Z.ltb_lt; lia).
      unfold isExpect. rewrite (Hno (index s)) by lia.
      destruct (codeIs (charCode source s) 10);
        unfold Parser.bind, updateLine, updateIndex, Parser.ret;
        cbn [index line column];
        match goal with
        | |- exists s', parseJSXCommentLoop _ _ ?c = _ /\ _ =>
            apply (IH fuel c); cbn [index]; try lia; intros j Hj; apply Hno; lia
        end.
Qed.

(** X15. [parseJSXComment] behind [<] returns the text between [!--] and
    the first [-->] and stops behind it.  When no [-->] is left it reads to
    the end of the input and throws [Expect string -->] at the location of
    the end of the input, not at the one of the comment. *)
Theorem parseJSXComment_reads_to_marker (fuel : nat) (s : Cursor) :
  isExpect source "!--" s = true ->
  wellLocated source s ->
  (String.length source < fuel)%nat ->
  (forall p,
      index s + 3 <= p ->
      (forall j, index s + 3 <= j < p -> isExpectAt source "-->" j = false) ->
      isExpectAt source "-->" p = true ->
      exists s',
        parseJSXComment source fuel s
        = Ok (ASTComment (jsSlice source (index s + 3) p)
                (mkLoc (line s) (column s + 3))) s'
        /\ index s' = p + 3)
  /\ ((forall j, index s + 3 <= j -> isExpectAt source "-->" j = false) ->
      parseJSXComment source fuel s
      = Throw (ParseError "Expect string -->"
                 (mkLoc (fst (trueLocation source (srcLength source)))
                    (snd (trueLocation source (srcLength source)))))).
Proof.
  intros Hopen Hs Hfuel.
  pose proof Hs as [Hi _].
  pose proof (isExpectAt_bound source "!--" (index s) ltac:(discriminate) Hi Hopen)
    as Hbound.
  change (strLen "!--") with 3 in Hbound.
  assert (Hlen : srcLength source = Z.of_nat (String.length source)) by reflexivity.
  set (s1 := mkCursor (index s + 3) (line s) (column s + 3)).
  assert (H1 : expect source "!--" None None s = Ok tt s1).
  { unfold expect. rewrite Hopen. reflexivity. }
  assert (Hs1 : wellLocated source s1).
  { apply (wellLocated_expect source "!--" s);
      [discriminate | reflexivity | exact Hopen | exact Hs]. }
  split.
  - intros p Hp Hno Hat.
    pose proof (isExpectAt_bound source "-->" p ltac:(discriminate) ltac:(lia) Hat)
      as Hbound'.
    change (strLen "-->") with 3 in Hbound'.
    destruct (parseJSXCommentLoop_to p (Z.to_nat (p - (index s + 3))) ltac:(lia)
                (or_introl Hat) fuel s1) as (s2 & H2 & Hp2);
      [unfold s1; cbn [index]; lia | exact Hno | unfold s1; cbn [index]; lia | lia |].
    exists (mkCursor (index s2 + 3) (line s2) (column s2 + 3)).
    unfold parseJSXComment.
    rewrite (bind_Ok_eq _ _ _ _ _ H1).
    rewrite (bind_Ok_eq get _ s1 s1 s1 eq_refl).
    rewrite (bind_Ok_eq _ _ _ _ _ H2).
    rewrite (bind_Ok_eq get _ s2 s2 s2 eq_refl).
    assert (H3 : expect source "-->" None None s2
                 = Ok tt (mkCursor (index s2 + 3) (line s2) (column s2 + 3))).
    { assert (Hat2 : isExpect source "-->" s2 = true)
        by (unfold isExpect; rewrite Hp2; exact Hat).
      unfold expect. rewrite Hat2. reflexivity. }
    rewrite (bind_Ok_eq _ _ _ _ _ H3).
    unfold Parser.ret, getValue, getValueTo. rewrite Hp2.
    split; [reflexivity | cbn [index]; lia].
  - intros Hno.
    destruct (parseJSXCommentLoop_to (srcLength source)
                (Z.to_nat (srcLength source - (index s + 3))) ltac:(lia)
                (or_intror (Z.le_refl _)) fuel s1) as (s2 & H2 & Hp2);
      [unfold s1; cbn [index]; lia
      | intros j Hj; apply Hno; unfold s1 in Hj; cbn [index] in Hj; lia
      | unfold s1; cbn [index]; lia
      | lia |].
    pose proof (parseJSXCommentLoop_located source fuel _ _ H2 Hs1) as [_ Hloc].
    unfold parseJSXComment.
    rewrite (bind_Ok_eq _ _ _ _ _ H1).
    rewrite (bind_Ok_eq get _ s1 s1 s1 eq_refl).
    rewrite (bind_Ok_eq _ _ _ _ _ H2).
    rewrite (bind_Ok_eq get _ s2 s2 s2 eq_refl).
    apply bind_Throw_eq. unfold expect.
    rewrite isExpect_at_end; [|discriminate|lia].
    unfold error, getLocation. cbn [default]. rewrite <- Hp2, <- Hloc. reflexivity.
Qed.

End Comments.

(** The comment of [<!-- a --> b], and the one of [<!-- a], from behind
    the [<]. *)
Lemma parseJSXComment_reads_to_marker_witness :
  (exists s',
      parseJSXComment "<!-- a --> b" 20 (mkCursor 1 1 2)
      = Ok (ASTComment " a " (mkLoc 1 5)) s'
      /\ index s' = 7 + 3)
  /\ parseJSXComment "<!-- a" 20 (mkCursor 1 1 2)
     = Throw (ParseError "Expect string -->" (mkLoc 1 7)).
Proof.
  split.
  - refine (proj1 (parseJSXComment_reads_to_marker "<!-- a --> b" 20 (mkCursor 1 1 2)
                     _ _ _) 7 _ _ _).
    + reflexivity.
    + split; [simpl; lia | reflexivity].
    + simpl. lia.
    + simpl. lia.
    + intros j Hj. cbn [index] in Hj.
      assert (Hcases : j = 4 \/ j = 5 \/ j = 6) by lia.
      destruct Hcases as [->|[->| ->]]; reflexivity.
    + reflexivity.
  - refine (proj2 (parseJSXComment_reads_to_marker "<!-- a" 20 (mkCursor 1 1 2)
                     _ _ _) _).
    + reflexivity.
    + split; [simpl; lia | reflexivity].
    + simpl. lia.
    + intros j Hj. cbn [index] in Hj.
      destruct (Z.lt_ge_cases j 6) as [Hlt|Hge].
      * assert (Hcases : j = 4 \/ j = 5) by lia.
        destruct Hcases as [->| ->]; reflexivity.
      * apply (isExpect_at_end "<!-- a" "-->" (mkCursor j 0 0));
          [discriminate | exact Hge].
Defined.

(** ** The start of a tag *)

(** Every character of [str] satisfies [p]. *)
Fixpoint allChars (p : ascii -> bool) (str : string) : bool :=
  match str with
  | EmptyString => true
  | String a rest => p a && allChars p rest
  end.

(** The language of [/^<\w+:?\s*[\{\w\/>]/], read off the expression: a
    [<], a non-empty word, an optional colon, any white space, and one
    character of the final class; anything may follow. *)
Definition tagNameLanguage (str : string) : Prop :=
  exists word colon spaces c rest,
    str = String "<" (word +:+ colon +:+ spaces +:+ String c rest)
    /\ word <> ""
    /\ allChars isWordChar word = true
    /\ (colon = "" \/ colon = ":")
    /\ allChars isRegexSpace spaces = true
    /\ isTagNameEnd c = true.

Lemma append_String (a : ascii) (s t : string) :
  String a s +:+ t = String a (s +:+ t).
Proof. reflexivity. Qed.

Lemma matchSpacesThenEnd_sound (str : string) :
  matchSpacesThenEnd str = true ->
  exists spaces c rest,
    str = spaces +:+ String c rest
    /\ allChars isRegexSpace spaces = true /\ isTagNameEnd c = true.
Proof.
  induction str as [|a str IH]; cbn [matchSpacesThenEnd]; [discriminate|].
  intros H. apply orb_true_iff in H. destruct H as [H|H].
  - exists "", a, str. auto.
  - apply andb_true_iff in H. destruct H as [Ha Hrest].
    destruct (IH Hrest) as (spaces & c & rest & -> & Hsp & Hc).
    exists (String a spaces), c, rest. rewrite append_String.
    split; [reflexivity|]. split; [|exact Hc].
    cbn [allChars]. rewrite Ha, Hsp. reflexivity.
Qed.

Lemma matchSpacesThenEnd_complete (spaces : string) (c : ascii) (rest : string) :
  allChars isRegexSpace spaces = true -> isTagNameEnd c = true ->
  matchSpacesThenEnd (spaces +:+ String c rest) = true.
Proof.
  intros Hsp Hc. induction spaces as [|a spaces IH].
  - cbn [matchSpacesThenEnd]. change ("" +:+ String c rest) with (String c rest).
    cbn [matchSpacesThenEnd]. rewrite Hc. reflexivity.
  - cbn [allChars] in Hsp. apply andb_true_iff in Hsp. destruct Hsp as [Ha Hsp].
    rewrite append_String. cbn [matchSpacesThenEnd].
    rewrite Ha, (IH Hsp). apply orb_true_r.
Qed.

Lemma matchColonOpt_sound (str : string) :
  matchColonOpt str = true ->
  exists colon spaces c rest,
    str = colon +:+ spaces +:+ String c rest
    /\ (colon = "" \/ colon = ":")
    /\ allChars isRegexSpace spaces = true /\ isTagNameEnd c = true.
Proof.
  unfold matchColonOpt. intros H. apply orb_true_iff in H. destruct H as [H|H].
  - destruct (matchSpacesThenEnd_sound str H) as (spaces & c & rest & -> & Hsp & Hc).
    exists "", spaces, c, rest. auto.
  - destruct str as [|a str]; [discriminate|].
    apply andb_true_iff in H. destruct H as [Ha Hrest].
    destruct (matchSpacesThenEnd_sound str Hrest) as (spaces & c & rest & -> & Hsp & Hc).
    exists ":", spaces, c, rest.
    split; [|auto].
    apply Z.eqb_eq in Ha. unfold asciiCode in Ha.
    assert (a = ":"%char) as ->.
    { rewrite <- (ascii_nat_embedding a).
      replace (nat_of_ascii a) with 58%nat by lia. reflexivity. }
    reflexivity.
Qed.

Lemma matchColonOpt_complete (colon spaces : string) (c : ascii) (rest : string) :
  (colon = "" \/ colon = ":") ->
  allChars isRegexSpace spaces = true -> isTagNameEnd c = true ->
  matchColonOpt (colon +:+ spaces +:+ String c rest) = true.
Proof.
  intros [-> | ->] Hsp Hc.
  - change ("" +:+ spaces +:+ String c rest) with (spaces +:+ String c rest).
    unfold matchColonOpt.
    rewrite (matchSpacesThenEnd_complete spaces c rest Hsp Hc). reflexivity.
  - change (":" +:+ spaces +:+ String c rest)
      with (String ":" (spaces +:+ String c rest)).
    unfold matchColonOpt.
    rewrite (matchSpacesThenEnd_complete spaces c rest Hsp Hc).
    apply orb_true_r.
Qed.

Lemma matchWordPlus_sound (str : string) :
  matchWordPlus str = true ->
  exists word tail,
    str = word +:+ tail /\ word <> "" /\ allChars isWordChar word = true
    /\ matchColonOpt tail = true.
Proof.
  induction str as [|a str IH]; cbn [matchWordPlus]; [discriminate|].
  intros H. apply andb_true_iff in H. destruct H as [Ha H].
  apply orb_true_iff in H. destruct H as [H|H].
  - exists (String a ""), str. split; [reflexivity|].
    split; [discriminate|]. split; [|exact H].
    cbn [allChars]. rewrite Ha. reflexivity.
  - destruct (IH H) as (word & tail & -> & _ & Hword & Htail).
    exists (String a word), tail. rewrite append_String.
    split; [reflexivity|]. split; [discriminate|]. split; [|exact Htail].
    cbn [allChars]. rewrite Ha, Hword. reflexivity.
Qed.

Lemma matchWordPlus_complete (word tail : string) :
  word <> "" -> allChars isWordChar word = true -> matchColonOpt tail = true ->
  matchWordPlus (word +:+ tail) = true.
Proof.
  intros Hne Hword Htail. induction word as [|a word IH]; [congruence|].
  cbn [allChars] in Hword. apply andb_true_iff in Hword. destruct Hword as [Ha Hword].
  rewrite append_String. cbn [matchWordPlus]. rewrite Ha. cbn [andb].
  destruct word as [|b word].
  - change ("" +:+ tail) with tail. rewrite Htail. reflexivity.
  - rewrite IH; [apply orb_true_r | discriminate | exact Hword].
Qed.

(** X16. The test of [tagNameRegexp], as [isTagStart] runs it on the rest of
    the input, accepts exactly the language of the expression. *)
Theorem tagNameRegexp_test_spec (str : string) :
  tagNameRegexp_test str = true <-> tagNameLanguage str.
Proof.
  unfold tagNameRegexp_test, tagNameLanguage. split.
  - destruct str as [|a str]; [discriminate|].
    intros H. apply andb_true_iff in H. destruct H as [Ha H].
    destruct (matchWordPlus_sound str H) as (word & tail & -> & Hne & Hword & Htail).
    destruct (matchColonOpt_sound tail Htail)
      as (colon & spaces & c & rest & -> & Hcolon & Hsp & Hc).
    exists word, colon, spaces, c, rest.
    split; [|auto].
    apply Z.eqb_eq in Ha. unfold asciiCode in Ha.
    assert (a = "<"%char) as ->.
    { rewrite <- (ascii_nat_embedding a).
      replace (nat_of_ascii a) with 60%nat by lia. reflexivity. }
    reflexivity.
  - intros (word & colon & spaces & c & rest & -> & Hne & Hword & Hcolon & Hsp & Hc).
    change (asciiCode "<" =? 60) with true. cbn [andb].
    apply matchWordPlus_complete; [exact Hne | exact Hword|].
    apply matchColonOpt_complete; assumption.
Qed.

(** ** The kind of an element *)

(** What the first two characters behind [<] make of an element: a
    component for an upper-case letter; behind a one-letter prefix with a
    colon a template for [t] and a block for [b], and nothing for another
    letter; an element in every other case. *)
Definition elementKind (flag next : option Z) : option ASTTypes :=
  if match flag with Some f => (65 <=? f) && (f <=? 90) | None => false end
  then Some JSXComponent
  else if codeIs next 58 then
    if codeIs flag 116 then Some JSXVdt
    else if codeIs flag 98 then Some JSXBlock
    else None
  else Some JSXCommonElement.

(** X17. [parseJSXElement] decides the type of the node on the first two
    characters of the tag, and the node carries the location of the first
    one.  A one-letter prefix other than [t:] and [b:] is rejected with
    [Unknown directive], whatever follows. *)
Theorem parseJSXElement_kind (env : Env) (source : string)
  (parse_rec : bool -> Z -> M (list ASTNode)) (scanJSX_rec : M ASTNode)
  (fuel : nat) (s : Cursor) :
  match elementKind (charCode source s) (charCodeAt source (index s + 1)) with
  | Some type =>
      forall n s',
        parseJSXElement env source parse_rec scanJSX_rec fuel s = Ok n s' ->
        nodeType n = type /\ nodeLoc n = getLocation s
  | None =>
      parseJSXElement env source parse_rec scanJSX_rec fuel s
      = Throw (ParseError
                 ("Unknown directive " +:+ fromCharCode (charCode source s) +:+ ":")
                 (getLocation s))
  end.
Proof.
  unfold elementKind, parseJSXElement.
  destruct (match charCode source s with
            | Some f => (65 <=? f) && (f <=? 90)
            | None => false
            end).
  { intros n s' H. repeat inv_step. split; reflexivity. }
  destruct (codeIs (charCodeAt source (index s + 1)) 58).
  2:{ intros n s' H. repeat inv_step. split; reflexivity. }
  destruct (codeIs (charCode source s) 116).
  { intros n s' H. repeat inv_step. split; reflexivity. }
  destruct (codeIs (charCode source s) 98).
  { intros n s' H. repeat inv_step. split; reflexivity. }
  reflexivity.
Qed.

(** ** The lines of a script fragment *)

(** [text.split('\n')]. *)
Fixpoint splitLines (text : string) : list string :=
  match text with
  | EmptyString => [""]
  | String c rest =>
      if String.eqb (String c "") newline then "" :: splitLines rest
      else
        match splitLines rest with
        | l :: ls => String c l :: ls
        | [] => [String c ""]
        end
  end.

(** [line] without its leading spaces, up to [n] of them (all of them for a
    negative [n], which never counts down to zero). *)
Fixpoint dedent (n : Z) (line : string) : string :=
  match line with
  | String c rest =>
      if String.eqb (String c "") " " && negb (n =? 0) then dedent (n - 1) rest
      else line
  | EmptyString => line
  end.

Fixpoint leadingSpaces (line : string) : Z :=
  match line with
  | String c rest => if String.eqb (String c "") " " then 1 + leadingSpaces rest else 0
  | EmptyString => 0
  end.

(** The loop of [scanJS] on a text without literal, comment, tag or closing
    delimiter, from the state it keeps: [cur] is what is read of the current
    line, [source.slice(start, index)]. *)
Fixpoint readLines (spaces : Z) (text : string) (cur : string) (spacesRemain : Z)
  (newLine : bool) (leadSpaces : Z) : list string * Z :=
  match text with
  | EmptyString => ([cur], leadSpaces)
  | String c rest =>
      if String.eqb (String c "") newline then
        let (lines, e) := readLines spaces rest "" spaces true 0 in (cur :: lines, e)
      else if newLine && String.eqb (String c "") " " then
        if negb (spacesRemain =? 0)
        then readLines spaces rest cur (spacesRemain - 1) newLine leadSpaces
        else readLines spaces rest (cur +:+ String c "") spacesRemain newLine
               (leadSpaces + 1)
      else readLines spaces rest (cur +:+ String c "") spacesRemain false leadSpaces
  end.

Lemma splitLines_cons (text : string) :
  exists first others, splitLines text = first :: others.
Proof.
  destruct text as [|c rest]; cbn [splitLines]; [eauto|].
  destruct (String.eqb (String c "") newline); [eauto|].
  destruct (splitLines rest); eauto.
Qed.

Lemma dedent_zero (line : string) : dedent 0 line = line.
Proof.
  destruct line as [|c rest]; cbn [dedent]; [reflexivity|].
  rewrite andb_false_r. reflexivity.
Qed.

Lemma append_assoc_cons (cur : string) (c : ascii) (tail : string) :
  (cur +:+ String c "") +:+ tail = cur +:+ String c tail.
Proof. apply append_cons_assoc. Qed.

(** The loop splits the text into lines and takes [spaces] leading spaces
    off each; it counts the leading spaces left on the last line. *)
Lemma readLines_spec (spaces : Z) (text : string) :
  forall cur spacesRemain newLine leadSpaces,
    readLines spaces text cur spacesRemain newLine leadSpaces
    = match splitLines text with
      | first :: others =>
          ((cur +:+ (if newLine then dedent spacesRemain first else first))
             :: map (dedent spaces) others,
           match others with
           | [] =>
               if newLine then leadSpaces + leadingSpaces (dedent spacesRemain first)
               else leadSpaces
           | _ => leadingSpaces (dedent spaces (List.last others ""))
           end)
      | [] => ([cur], leadSpaces)
      end.
Proof.
  induction text as [|c rest IH]; intros cur sr nl ls; cbn [readLines splitLines].
  - destruct nl; cbn [dedent leadingSpaces]; rewrite append_nil_r;
      repeat f_equal; lia.
  - destruct (String.eqb (String c "") newline) eqn:Enl.
    + rewrite IH. destruct (splitLines_cons rest) as (first & others & ->).
      cbn [map]. rewrite dedent_zero || idtac.
      replace (cur +:+ (if nl then dedent sr "" else "")) with cur
        by (destruct nl; cbn [dedent]; rewrite append_nil_r; reflexivity).
      change ("" +:+ dedent spaces first) with (dedent spaces first).
      f_equal.
      destruct others as [|o others]; reflexivity.
    + destruct (splitLines_cons rest) as (first & others & Hsplit).
      rewrite Hsplit.
      destruct nl; cbn [andb].
      * destruct (String.eqb (String c "") " ") eqn:Esp.
        -- destruct (negb (sr =? 0)) eqn:Esr.
           ++ rewrite IH, Hsplit. cbn [dedent]. rewrite Esp, Esr. reflexivity.
           ++ apply negb_false_iff, Z.eqb_eq in Esr. subst sr.
              rewrite IH, Hsplit. rewrite !dedent_zero.
              rewrite append_assoc_cons. f_equal.
              destruct others; [|reflexivity].
              cbn [leadingSpaces]. rewrite Esp. lia.
        -- rewrite IH, Hsplit. cbn [dedent leadingSpaces]. rewrite Esp. cbn [andb].
           rewrite append_assoc_cons. f_equal.
           destruct others; [cbn [leadingSpaces]; rewrite Esp; lia | reflexivity].
      * rewrite IH, Hsplit. rewrite append_assoc_cons. reflexivity.
Qed.

Lemma substring_extend (str : string) :
  forall (n m : nat) (c : ascii),
    substring (n + m) 1 str = String c "" ->
    substring n (S m) str = substring n m str +:+ String c "".
Proof.
  induction str as [|b str IH]; intros n m c H.
  - destruct (n + m)%nat; discriminate.
  - destruct n as [|n].
    + apply substring_snoc. exact H.
    + change (substring (S n) (S m) (String b str)) with (substring n (S m) str).
      change (substring (S n) m (String b str)) with (substring n m str).
      apply IH. exact H.
Qed.

Lemma jsSlice_substring (source : string) (a b : Z) :
  0 <= a <= b -> b <= srcLength source ->
  jsSlice source a b = substring (Z.to_nat a) (Z.to_nat (b - a)) source.
Proof.
  intros Hab Hb. unfold jsSlice, srcLength, strLen in *.
  set (n := Z.of_nat (String.length source)) in *.
  replace (a <? 0) with false by (symmetry; apply Z.ltb_ge; lia).
  replace (b <? 0) with false by (symmetry; apply Z.ltb_ge; lia).
  replace (Z.min a n) with a by lia.
  replace (Z.min b n) with b by lia.
  destruct (a <? b) eqn:E; [reflexivity|].
  apply Z.ltb_ge in E. replace (Z.to_nat (b - a)) with 0%nat by lia.
  rewrite substring_all_nil. reflexivity.
Qed.

Lemma jsSlice_extend (source : string) (a i : Z) (c : ascii) :
  0 <= a <= i -> i < srcLength source ->
  charAt source i = String c "" ->
  jsSlice source a (i + 1) = jsSlice source a i +:+ String c "".
Proof.
  intros Ha Hi Hc. rewrite !jsSlice_substring by lia.
  unfold charAt, jsCharAt, srcLength, strLen in *.
  replace (0 <=? i) with true in Hc by (symmetry; apply Z.leb_le; lia).
  replace (i <? Z.of_nat (String.length source)) with true in Hc
    by (symmetry; apply Z.ltb_lt; lia).
  cbn [andb] in Hc.
  replace (Z.to_nat (i + 1 - a)) with (S (Z.to_nat (i - a))) by lia.
  apply substring_extend.
  replace (Z.to_nat a + Z.to_nat (i - a))%nat with (Z.to_nat i) by lia.
  exact Hc.
Qed.

Section ScriptLines.

Variable env : Env.
Variable source : string.

Hypothesis closing : snd (delimiters env) <> "".

(** The loop of [scanJS] computes [readLines] on a plain rest of the
    input. *)
Lemma scanJSLoop_readLines (spaces : Z) (n : nat) :
  forall (fuel : nat) (v : ScanJSState) (s : Cursor),
    srcLength source - index s <= Z.of_nat n ->
    (n + 2 <= fuel)%nat ->
    0 <= start v <= index s ->
    index s <= srcLength source ->
    (newLine v = true -> spacesRemain v <> 0 -> start v = index s) ->
    plainFrom env source (index s) = true ->
    exists v' s',
      scanJSLoop env source fuel false spaces v s = Ok v' s'
      /\ index s' = srcLength source
      /\ value v' ++ [jsSlice source (start v') (index s')]
         = value v
           ++ fst (readLines spaces (sliceFrom source (index s))
                     (jsSlice source (start v) (index s))
                     (spacesRemain v) (newLine v) (leadSpaces v))
      /\ leadSpaces v'
         = snd (readLines spaces (sliceFrom source (index s))
                  (jsSlice source (start v) (index s))
                  (spacesRemain v) (newLine v) (leadSpaces v))
      /\ shouldTrimRight v' = shouldTrimRight v.
Proof.
  induction n as [|n IH]; intros fuel v s Hn Hfuel Hstart Hend Hstrip Hplain;
    (destruct fuel as [|fuel]; [lia|]); cbn [scanJSLoop].
  - replace (index s <? srcLength source) with false
      by (symmetry; apply Z.ltb_ge; lia).
    exists v, s. rewrite sliceFrom_end by lia. cbn [readLines fst snd].
    repeat split; try reflexivity; lia.
  - destruct (index s <? srcLength source) eqn:Elt.
    2:{ apply Z.ltb_ge in Elt. exists v, s. rewrite sliceFrom_end by lia.
        cbn [readLines fst snd]. repeat split; try reflexivity; lia. }
    apply Z.ltb_lt in Elt.
    assert (Hat : plainAt env source (index s) = true)
      by (apply (plainFrom_at env source (index s)); [assumption | lia | assumption]).
    rewrite (bind_Ok_eq _ _ _ _ _
               (skipJSComment_plain source fuel s ltac:(lia)
                  (plainAt_not_slash env source _ Hat))).
    rewrite (bind_Ok_eq _ _ _ _ _ (startsLiteral_plain env source fuel s Hat)).
    rewrite (bind_Ok_eq get _ s s s eq_refl).
    unfold isTagStart, isExpect.
    rewrite (plainAt_not_tag env source _ Hat),
      (plainAt_not_closing env source closing _ Hat ltac:(lia)).
    cbn [andb].
    destruct (sliceFrom_cons source (index s) ltac:(lia)) as (c & Hc & Hrest).
    rewrite Hrest. cbn [readLines]. unfold char. rewrite Hc.
    assert (Hnext : plainFrom env source (index s + 1) = true)
      by (apply (plainFrom_later env source (index s)); [assumption | lia]).
    destruct (String.eqb (String c "") newline) eqn:Enl.
    { unfold Parser.bind, updateLine, updateIndex. cbn [index line column].
      destruct (IH fuel
                  (mkScanJS (value v ++ [getValue source (start v) s]) (index s + 1)
                     spaces true 0 (shouldTrimRight v) (count v))
                  (mkCursor (index s + 1) (line s + 1) (0 + 1)))
        as (v' & s' & Hrun & Hidx & Hval & Hlead & Htrim);
        cbn [index start newLine spacesRemain]; try lia; try assumption;
          try (intros; first [lia | congruence]).
      exists v', s'. cbn [index start value spacesRemain newLine leadSpaces
                            shouldTrimRight] in *.
      rewrite jsSlice_empty in Hval, Hlead.
      destruct (readLines spaces (sliceFrom source (index s + 1)) "" spaces true 0)
        as [lines e].
      cbn [fst snd] in *.
      split; [exact Hrun|]. split; [exact Hidx|].
      split; [|split; [exact Hlead | exact Htrim]].
      rewrite Hval. unfold getValue, getValueTo. rewrite <- app_assoc. reflexivity. }
    destruct (newLine v && String.eqb (String c "") " ") eqn:Esp.
    { apply andb_true_iff in Esp. destruct Esp as [Hnl Hsp].
      unfold Parser.bind, updateIndex. cbn [index line column].
      destruct (negb (spacesRemain v =? 0)) eqn:Esr.
      - assert (Hs0 : start v = index s).
        { apply Hstrip; [exact Hnl|]. apply negb_true_iff, Z.eqb_neq in Esr. exact Esr. }
        destruct (IH fuel
                    (mkScanJS (value v) (start v + 1) (spacesRemain v - 1) (newLine v)
                       (leadSpaces v) (shouldTrimRight v) (count v))
                    (mkCursor (index s + 1) (line s) (column s + 1)))
          as (v' & s' & Hrun & Hidx & Hval & Hlead & Htrim);
          cbn [index start newLine spacesRemain]; try lia; try assumption;
          try (intros; first [lia | congruence]).
        exists v', s'. cbn [index start value spacesRemain newLine leadSpaces
                              shouldTrimRight] in *.
        rewrite Hs0 in *. rewrite jsSlice_empty in *.
        auto.
      - apply negb_false_iff, Z.eqb_eq in Esr.
        destruct (IH fuel
                    (mkScanJS (value v) (start v) (spacesRemain v) (newLine v)
                       (leadSpaces v + 1) (shouldTrimRight v) (count v))
                    (mkCursor (index s + 1) (line s) (column s + 1)))
          as (v' & s' & Hrun & Hidx & Hval & Hlead & Htrim);
          cbn [index start newLine spacesRemain]; try lia; try assumption;
          try (intros; first [lia | congruence]).
        exists v', s'. cbn [index start value spacesRemain newLine leadSpaces
                              shouldTrimRight] in *.
        rewrite (jsSlice_extend source (start v) (index s) c) in Hval, Hlead
          by (assumption || lia).
        auto. }
    assert (Helse : forall count',
               exists v' s',
                 scanJSLoop env source fuel false spaces
                   (mkScanJS (value v) (start v) (spacesRemain v) false (leadSpaces v)
                      (shouldTrimRight v) count')
                   (mkCursor (index s + 1) (line s) (column s + 1)) = Ok v' s'
                 /\ index s' = srcLength source
                 /\ value v' ++ [jsSlice source (start v') (index s')]
                    = value v
                      ++ fst (readLines spaces (sliceFrom source (index s + 1))
                                (jsSlice source (start v) (index s) +:+ String c "")
                                (spacesRemain v) false (leadSpaces v))
                 /\ leadSpaces v'
                    = snd (readLines spaces (sliceFrom source (index s + 1))
                             (jsSlice source (start v) (index s) +:+ String c "")
                             (spacesRemain v) false (leadSpaces v))
                 /\ shouldTrimRight v' = shouldTrimRight v).
    { intros count'.
      destruct (IH fuel
                  (mkScanJS (value v) (start v) (spacesRemain v) false (leadSpaces v)
                     (shouldTrimRight v) count')
                  (mkCursor (index s + 1) (line s) (column s + 1)))
        as (v' & s' & Hrun & Hidx & Hval & Hlead & Htrim);
        cbn [index start newLine spacesRemain]; try lia; try assumption;
          try (intros; first [lia | congruence]).
      exists v', s'. cbn [index start value spacesRemain newLine leadSpaces
                            shouldTrimRight] in *.
      rewrite (jsSlice_extend source (start v) (index s) c) in Hval, Hlead
        by (assumption || lia).
      auto. }
    destruct (String.eqb (String c "") "{");
      [unfold Parser.bind, updateIndex; cbn [index line column]; apply Helse|].
    destruct ((0 <? count v) && String.eqb (String c "") "}");
      [unfold Parser.bind, updateIndex; cbn [index line column]; apply Helse|].
    unfold Parser.bind, updateIndex; cbn [index line column]. apply Helse.
Qed.

(** X18. On a rest of the input without literal, comment, tag and closing
    delimiter, [scanJS] returns the text split at its line breaks, each line
    without its leading spaces up to [spaces] of them, and as [spaces] of
    the node the number of leading spaces left on the last line. *)
Theorem scanJS_lines (fuel : nat) (braces spaces : Z) (s : Cursor) :
  0 <= index s <= srcLength source ->
  plainFrom env source (index s) = true ->
  (String.length source + 2 <= fuel)%nat ->
  exists braces' s',
    scanJS env source fuel braces false spaces s
    = Ok (ASTJS (map (dedent spaces) (splitLines (sliceFrom source (index s))))
            (leadingSpaces
               (dedent spaces (List.last (splitLines (sliceFrom source (index s))) "")))
            (getLocation s), braces') s'
    /\ index s' = srcLength source.
Proof.
  intros Hi Hplain Hfuel.
  destruct (scanJSLoop_readLines spaces (Z.to_nat (srcLength source - index s)) fuel
              (mkScanJS [] (index s) spaces true 0 false braces) s)
    as (v' & s' & Hrun & Hidx & Hval & Hlead & Htrim);
    cbn [start newLine spacesRemain]; try lia; try assumption.
  { unfold srcLength, strLen in *. lia. }
  cbn [value start spacesRemain newLine leadSpaces shouldTrimRight] in *.
  rewrite jsSlice_empty, readLines_spec in Hval, Hlead.
  destruct (splitLines_cons (sliceFrom source (index s))) as (first & others & Hsplit).
  rewrite Hsplit in *. cbn [fst snd app] in Hval, Hlead.
  change ("" +:+ dedent spaces first) with (dedent spaces first) in Hval.
  exists (count v'), s'. split; [|exact Hidx].
  unfold scanJS. rewrite (bind_Ok_eq _ _ _ _ _ Hrun).
  rewrite (bind_Ok_eq get _ s' s' s' eq_refl).
  rewrite Htrim. unfold Parser.ret, getValue, getValueTo.
  rewrite Hval, Hlead. cbn [map]. f_equal. f_equal. f_equal.
  destruct others as [|o others]; [cbn [List.last]; lia | reflexivity].
Qed.

End ScriptLines.

(** The body of the expression of [<p>{ a(  ] / [    b )] (two lines), from
    its first character, with two spaces to take off. *)
Lemma scanJS_lines_witness :
  exists braces' s',
    scanJS Sample.development ("<p>{ a(" +:+ newline +:+ "    b )") 30 0 false 2
      (mkCursor 5 1 6)
    = Ok (ASTJS ["a("; "  b )"] 2 (mkLoc 1 6), braces') s'
    /\ index s' = 15.
Proof.
  exact (scanJS_lines Sample.development ("<p>{ a(" +:+ newline +:+ "    b )")
           ltac:(discriminate) 30 0 2 (mkCursor 5 1 6)
           ltac:(vm_compute; split; discriminate) ltac:(vm_compute; reflexivity)
           ltac:(vm_compute; lia)).
Defined.

(** ** An import without a module string *)

(** [c] is neither quote. *)
Definition notQuote (c : ascii) : bool :=
  negb (String.eqb (String c "") "'" || String.eqb (String c "") dquote).

Section ImportWithoutString.

Variable env : Env.
Variable source : string.

(** Without a quote ahead the loop of [scanJSImport] walks to the end of
    the input, one column for each character, line breaks included. *)
Lemma scanJSImportLoop_no_quote (n : nat) :
  forall (fuel : nat) (s : Cursor),
    srcLength source - index s <= Z.of_nat n ->
    (n + 1 <= fuel)%nat ->
    0 <= index s ->
    allChars notQuote (sliceFrom source (index s)) = true ->
    scanJSImportLoop env source fuel s
    = Ok tt (mkCursor (Z.max (index s) (srcLength source)) (line s)
               (column s + (Z.max (index s) (srcLength source) - index s))).
Proof.
  induction n as [|n IH]; intros fuel [i l c] Hn Hfuel Hi Hall;
    (destruct fuel as [|fuel]; [lia|]); cbn [scanJSImportLoop index line column] in *.
  - replace (i <? srcLength source) with false by (symmetry; apply Z.ltb_ge; lia).
    f_equal. f_equal; lia.
  - destruct (i <? srcLength source) eqn:Elt.
    2:{ apply Z.ltb_ge in Elt. f_equal. f_equal; lia. }
    apply Z.ltb_lt in Elt.
    destruct (sliceFrom_cons source i ltac:(lia)) as (a & Ha & Hrest).
    rewrite Hrest in Hall. cbn [allChars] in Hall.
    apply andb_true_iff in Hall. destruct Hall as [Hq Hall].
    unfold char. cbn [index]. rewrite Ha.
    unfold notQuote in Hq. apply negb_true_iff in Hq. rewrite Hq.
    unfold Parser.bind, updateIndex. cbn [index line column].
    rewrite IH; cbn [index line column]; try lia; try assumption.
    f_equal. f_equal; lia.
Qed.

(** X19. When no quote follows the keyword, [scanJSImport] raises no
    error: it reads to the end of the input and returns all of it, from the
    keyword on, as one hoisted import.  The line of the cursor stays what it
    was, whatever line breaks the text holds. *)
Theorem scanJSImport_without_module_string (fuel : nat) (s : Cursor) :
  0 <= index s ->
  allChars notQuote (sliceFrom source (index s + 7)) = true ->
  (String.length source + 1 <= fuel)%nat ->
  let stop := Z.max (index s + 7) (srcLength source) in
  scanJSImport env source fuel s
  = Ok (ASTHoist (jsSlice source (index s) stop) (getLocation s))
       (mkCursor stop (line s) (column s + (stop - index s))).
Proof.
  intros Hi Hall Hfuel stop. subst stop.
  unfold scanJSImport, Parser.bind, updateIndex.
  rewrite (scanJSImportLoop_no_quote (Z.to_nat (srcLength source - (index s + 7))));
    cbn [index line column]; try lia; try assumption.
  2:{ unfold srcLength, strLen. lia. }
  unfold get, Parser.ret, getValue, getValueTo. cbn [index].
  f_equal. f_equal; lia.
Qed.

End ImportWithoutString.

(** [import Button] on one line and a tag on the next. *)
Lemma scanJSImport_without_module_string_witness :
  scanJSImport Sample.development ("import Button" +:+ newline +:+ "<div/>") 30
    (mkCursor 0 1 1)
  = Ok (ASTHoist ("import Button" +:+ newline +:+ "<div/>") (mkLoc 1 1))
       (mkCursor 20 1 21).
Proof.
  exact (scanJSImport_without_module_string Sample.development
           ("import Button" +:+ newline +:+ "<div/>") 30 (mkCursor 0 1 1)
           ltac:(vm_compute; discriminate) ltac:(vm_compute; reflexivity)
           ltac:(vm_compute; lia)).
Defined.

(** ** The indentation of the line of an expression *)

Section Indentation.

Variable source : string.

(** The walk back of [getFirstSpaceColumn] from [start] stops at the
    boundary [b], a line break or the first character of the input, with the
    position of the last of the [k] spaces that follow it ([b] itself when
    there is none). *)
Lemma firstSpaceStart_spec (b k hi : Z) :
  0 <= b -> 0 <= k ->
  (charAt source b = newline \/ b = 0) ->
  (forall j, b < j < hi -> charAt source j <> newline) ->
  (forall j, b < j <= b + k -> charAt source j = " ") ->
  (b + k + 1 < hi -> charAt source (b + k + 1) <> " ") ->
  forall (n fuel : nat) (start : Z) (hasSet : bool) (_start : Z),
    start - b <= Z.of_nat n ->
    (n < fuel)%nat ->
    b <= start < hi ->
    (start = b + k -> hasSet = false) ->
    (start < b + k -> hasSet = true /\ _start = b + k) ->
    firstSpaceStart source fuel start hasSet _start = Some (b + k).
Proof.
  intros Hb Hk Hbound Hline Hspaces Hstop.
  induction n as [|n IH]; intros fuel start hasSet _start Hn Hfuel Hstart Hat Hin;
    (destruct fuel as [|fuel]; [lia|]); cbn [firstSpaceStart].
  - assert (start = b) by lia. subst start.
    replace (String.eqb (charAt source b) newline || (b =? 0)) with true.
    2:{ symmetry. apply orb_true_iff. destruct Hbound as [H | H];
        [left; apply String.eqb_eq; exact H | right; apply Z.eqb_eq; exact H]. }
    destruct (Z.eq_dec k 0) as [-> | Hk0].
    + rewrite (Hat ltac:(lia)). cbn [negb]. f_equal. lia.
    + destruct (Hin ltac:(lia)) as [-> ->]. reflexivity.
  - destruct (Z.eq_dec start b) as [-> | Hne].
    + replace (String.eqb (charAt source b) newline || (b =? 0)) with true.
      2:{ symmetry. apply orb_true_iff. destruct Hbound as [H | H];
          [left; apply String.eqb_eq; exact H | right; apply Z.eqb_eq; exact H]. }
      destruct (Z.eq_dec k 0) as [-> | Hk0].
      * rewrite (Hat ltac:(lia)). cbn [negb]. f_equal. lia.
      * destruct (Hin ltac:(lia)) as [-> ->]. reflexivity.
    + replace (String.eqb (charAt source start) newline) with false
        by (symmetry; apply String.eqb_neq; apply Hline; lia).
      replace (start =? 0) with false by (symmetry; apply Z.eqb_neq; lia).
      cbn [orb].
      destruct (Z_le_gt_dec start (b + k)) as [Hle | Hgt].
      * rewrite (Hspaces start ltac:(lia)). rewrite String.eqb_refl.
        destruct (Z.eq_dec start (b + k)) as [He | He].
        -- rewrite (Hat He). cbn [negb].
           apply IH; try lia; try (intros _; split; [reflexivity | exact He]).
        -- destruct (Hin ltac:(lia)) as [-> ->]. cbn [negb].
           apply IH; try lia; try (intros _; split; reflexivity).
      * destruct (String.eqb (charAt source start) " ") eqn:Esp.
        -- apply String.eqb_eq in Esp.
           assert (start <> b + k + 1)
             by (intros ->; apply Hstop; [lia | exact Esp]).
           destruct (negb hasSet); apply IH; lia.
        -- apply IH; try lia; try (intros _; reflexivity).
Qed.

(** X20. After a line break, [getFirstSpaceColumn] is the indentation of
    the line of the cursor: the number of spaces between the last line
    break before the cursor and the first other character, when the column
    of the cursor counts from that line break. *)
Theorem getFirstSpaceColumn_indentation (fuel : nat) (s : Cursor) (b k : Z) :
  0 <= b -> 0 <= k -> b + k < index s ->
  charAt source b = newline ->
  (forall j, b < j < index s -> charAt source j <> newline) ->
  (forall j, b < j <= b + k -> charAt source j = " ") ->
  (b + k + 1 < index s -> charAt source (b + k + 1) <> " ") ->
  column s = index s - b ->
  (Z.to_nat (index s) <= fuel)%nat ->
  getFirstSpaceColumn source fuel s = Ok k s.
Proof.
  intros Hb Hk Hlt Hbreak Hline Hspaces Hstop Hcol Hfuel.
  unfold getFirstSpaceColumn.
  rewrite (firstSpaceStart_spec b k (index s) Hb Hk (or_introl Hbreak) Hline Hspaces
             Hstop (Z.to_nat (index s - 1 - b)) fuel (index s - 1) false 0);
    try lia.
  f_equal. lia.
Qed.

(** X21. On the first line [getFirstSpaceColumn] takes the first character
    of the input for the line break, whatever it is: the result is one more
    than the number of spaces that follow that character, so 1 and not 0 for
    a line that starts with a tag. *)
Theorem getFirstSpaceColumn_first_line (fuel : nat) (s : Cursor) (k : Z) :
  0 <= k -> k < index s ->
  (forall j, 0 < j < index s -> charAt source j <> newline) ->
  (forall j, 0 < j <= k -> charAt source j = " ") ->
  (k + 1 < index s -> charAt source (k + 1) <> " ") ->
  column s = index s + 1 ->
  (Z.to_nat (index s) <= fuel)%nat ->
  getFirstSpaceColumn source fuel s = Ok (k + 1) s.
Proof.
  intros Hk Hlt Hline Hspaces Hstop Hcol Hfuel.
  unfold getFirstSpaceColumn.
  rewrite (firstSpaceStart_spec 0 k (index s) ltac:(lia) Hk (or_intror eq_refl) Hline
             Hspaces Hstop (Z.to_nat (index s - 1)) fuel (index s - 1) false 0);
    try lia.
  f_equal. lia.
Qed.

End Indentation.

(** The second line of [<div>] / [  <p>{a}</p>], inside the expression. *)
Lemma getFirstSpaceColumn_indentation_witness :
  getFirstSpaceColumn ("<div>" +:+ newline +:+ "  <p>{a}</p>") 20 (mkCursor 12 2 7)
  = Ok 2 (mkCursor 12 2 7).
Proof.
  apply (getFirstSpaceColumn_indentation ("<div>" +:+ newline +:+ "  <p>{a}</p>") 20
           (mkCursor 12 2 7) 5 2); cbn [index column]; try lia; try reflexivity.
  - intros j Hj.
    assert (Hc : j = 6 \/ j = 7 \/ j = 8 \/ j = 9 \/ j = 10 \/ j = 11) by lia.
    destruct Hc as [-> | [-> | [-> | [-> | [-> | ->]]]]]; vm_compute; discriminate.
  - intros j Hj. assert (Hc : j = 6 \/ j = 7) by lia.
    destruct Hc as [-> | ->]; reflexivity.
  - intros _. vm_compute. discriminate.
Defined.

(** [<p>{a}</p>] on the first line, inside the expression: the indentation
    found is 1. *)
Lemma getFirstSpaceColumn_first_line_witness :
  getFirstSpaceColumn "<p>{a}</p>" 20 (mkCursor 4 1 5) = Ok 1 (mkCursor 4 1 5).
Proof.
  apply (getFirstSpaceColumn_first_line "<p>{a}</p>" 20 (mkCursor 4 1 5) 0);
    cbn [index column]; try lia; try reflexivity.
  - intros j Hj. assert (Hc : j = 1 \/ j = 2 \/ j = 3) by lia.
    destruct Hc as [-> | [-> | ->]]; vm_compute; discriminate.
  - intros _. vm_compute. discriminate.
Defined.

(** ** A closing tag that is not the expected one *)

(** The two characters at a position where [expect] of two characters is
    found. *)
Lemma isExpectAt_two (source : string) (a b : ascii) (i : Z) :
  0 <= i ->
  isExpectAt source (String a (String b "")) i = true ->
  i + 2 <= srcLength source
  /\ charAt source i = String a ""
  /\ charAt source (i + 1) = String b ""
  /\ exists rest, sliceFrom source i = String a (String b rest).
Proof.
  intros Hi H.
  pose proof (isExpectAt_bound source (String a (String b "")) i
                ltac:(discriminate) Hi H) as Hb.
  change (strLen (String a (String b ""))) with 2 in Hb.
  destruct (sliceFrom_cons source i ltac:(lia)) as (c1 & Hc1 & Hs1).
  destruct (sliceFrom_cons source (i + 1) ltac:(lia)) as (c2 & Hc2 & Hs2).
  unfold isExpectAt in H. apply String.eqb_eq in H.
  change (strLen (String a (String b ""))) with 2 in H.
  replace (i + 2) with (i + 1 + 1) in H by lia.
  rewrite (jsSlice_extend source i (i + 1) c2) in H by (assumption || lia).
  rewrite (jsSlice_extend source i i c1) in H by (assumption || lia).
  rewrite jsSlice_empty in H.
  change (("" +:+ String c1 "") +:+ String c2 "") with (String c1 (String c2 "")) in H.
  injection H as -> ->.
  repeat split; try assumption.
  exists (sliceFrom source (i + 1 + 1)). rewrite Hs1, Hs2. reflexivity.
Qed.

(** No tag starts at [</]: the expression of [isTagStart] asks for a word
    character after the [<], and a comment for [!]. *)
Lemma isTagStartAt_closing (source : string) (i : Z) :
  0 <= i -> isExpectAt source "</" i = true -> isTagStartAt source i = false.
Proof.
  intros Hi H.
  destruct (isExpectAt_two source "<" "/" i Hi H) as (Hb & H1 & H2 & rest & Hrest).
  unfold isTagStartAt.
  change (jsSlice source i (srcLength source)) with (sliceFrom source i).
  rewrite Hrest. cbn [tagNameRegexp_test matchWordPlus].
  replace (isWordChar "/") with false by reflexivity.
  rewrite andb_false_l, andb_false_r, orb_false_r.
  apply andb_false_iff. right.
  destruct (isExpectAt source "<!--" i) eqn:E; [|reflexivity].
  exfalso.
  pose proof (isExpectAt_bound source "<!--" i ltac:(discriminate) Hi E) as Hb4.
  change (strLen "<!--") with 4 in Hb4.
  destruct (sliceFrom_cons source (i + 2) ltac:(lia)) as (c3 & Hc3 & _).
  destruct (sliceFrom_cons source (i + 3) ltac:(lia)) as (c4 & Hc4 & _).
  unfold isExpectAt in E. apply String.eqb_eq in E.
  change (strLen "<!--") with 4 in E.
  replace (i + 4) with (i + 3 + 1) in E by lia.
  rewrite (jsSlice_extend source i (i + 3) c4) in E by (assumption || lia).
  replace (i + 3) with (i + 2 + 1) in E by lia.
  rewrite (jsSlice_extend source i (i + 2) c3) in E by (assumption || lia).
  replace (i + 2) with (i + 1 + 1) in E by lia.
  rewrite (jsSlice_extend source i (i + 1) "/") in E by (assumption || lia).
  rewrite (jsSlice_extend source i i "<") in E by (assumption || lia).
  rewrite jsSlice_empty in E. discriminate E.
Qed.

Section StrayClosingTag.

Variable env : Env.
Variable source : string.

(** The loop of [scanJSXText] raises no error and stops; it moves when it
    starts inside the input at a position where no entry of [stopChars]
    holds. *)
Lemma scanJSXTextLoop_total (stopChars : list StopChar) (fuel : nat) :
  forall s,
    Z.max 0 (srcLength source - index s) < Z.of_nat fuel ->
    exists s',
      scanJSXTextLoop env source fuel stopChars s = Ok tt s'
      /\ index s <= index s'
      /\ (index s < srcLength source ->
          existsb (fun stop => stopsAt source stop s) stopChars = false ->
          index s < index s').
Proof.
  induction fuel as [|fuel IH]; intros s Hf; [lia|].
  cbn [scanJSXTextLoop].
  destruct (index s <? srcLength source) eqn:E.
  2:{ apply Z.ltb_ge in E. exists s. repeat split; try reflexivity; lia. }
  apply Z.ltb_lt in E.
  destruct (isWhiteSpace env (charCode source s)).
  - destruct (codeIs (charCode source s) 10);
      unfold Parser.bind, updateLine, updateIndex, Parser.ret;
      cbn [index line column];
      match goal with
      | |- exists s', scanJSXTextLoop _ _ _ _ ?c = _ /\ _ =>
          destruct (IH c) as (s' & Hrun & Hle & _); [cbn [index]; lia|];
          cbn [index] in Hle; exists s'; repeat split; [exact Hrun | lia | lia]
      end.
  - destruct (existsb (fun stop => stopsAt source stop s) stopChars).
    + exists s. repeat split; [lia | discriminate].
    + unfold Parser.bind, updateIndex. cbn [index line column].
      match goal with
      | |- exists s', scanJSXTextLoop _ _ _ _ ?c = _ /\ _ =>
          destruct (IH c) as (s' & Hrun & Hle & _); [cbn [index]; lia|];
          cbn [index] in Hle; exists s'; repeat split; [exact Hrun | lia | lia]
      end.
Qed.

(** X22. A closing tag that is not the one expected is read as text: at
    [</] where neither the end tag of the element nor the opening delimiter
    stands, [parseJSXChild] raises no error and returns a text node that
    starts there and holds at least the [<]. *)
Theorem parseJSXChild_stray_closing_tag
  (parse_rec : bool -> Z -> M (list ASTNode)) (scanJSX_rec : M ASTNode)
  (fuel : nat) (endTag : string) (isTextTag : bool) (s : Cursor) :
  0 <= index s ->
  isExpect source "</" s = true ->
  isExpect source endTag s = false ->
  isExpect source (fst (delimiters env)) s = false ->
  srcLength source - index s < Z.of_nat fuel ->
  exists s',
    parseJSXChild env source parse_rec scanJSX_rec fuel endTag isTextTag s
    = Ok (ASTText (jsSlice source (index s) (index s')) (getLocation s)) s'
    /\ index s < index s'.
Proof.
  intros Hi Hclose Hend Hdelim Hfuel.
  pose proof (isTagStartAt_closing source (index s) Hi Hclose) as Htag.
  pose proof (isExpectAt_bound source "</" (index s) ltac:(discriminate) Hi Hclose)
    as Hb.
  change (strLen "</") with 2 in Hb.
  unfold parseJSXChild. rewrite Hdelim.
  unfold isTagStart. rewrite Htag.
  assert (Htext : forall stopChars,
             existsb (fun stop => stopsAt source stop s) stopChars = false ->
             exists s',
               scanJSXText env source fuel stopChars s
               = Ok (ASTText (jsSlice source (index s) (index s')) (getLocation s)) s'
               /\ index s < index s').
  { intros stopChars Hstops.
    destruct (scanJSXTextLoop_total stopChars fuel s ltac:(lia)) as (s' & Hrun & _ & Hlt).
    exists s'. split; [|apply Hlt; [lia | exact Hstops]].
    unfold scanJSXText. rewrite (bind_Ok_eq _ _ _ _ _ Hrun).
    reflexivity. }
  destruct isTextTag; apply Htext; cbn [existsb stopsAt];
    unfold isTagStart; rewrite ?Hend, ?Hdelim, ?Htag; reflexivity.
Qed.

End StrayClosingTag.

(** [</span>] among the children of a [div]. *)
Lemma parseJSXChild_stray_closing_tag_witness :
  exists s',
    parseJSXChild Sample.development "<div></span></div>"
      (fun _ _ => Parser.ret []) (Parser.ret (ASTText "" (mkLoc 0 0))) 20 "</div>" false
      (mkCursor 5 1 6)
    = Ok (ASTText (jsSlice "<div></span></div>" 5 (index s')) (mkLoc 1 6)) s'
    /\ 5 < index s'.
Proof.
  exact (parseJSXChild_stray_closing_tag Sample.development "<div></span></div>"
           (fun _ _ => Parser.ret []) (Parser.ret (ASTText "" (mkLoc 0 0))) 20
           "</div>" false (mkCursor 5 1 6)
           ltac:(vm_compute; discriminate) ltac:(vm_compute; reflexivity)
           ltac:(vm_compute; reflexivity) ltac:(vm_compute; reflexivity)
           ltac:(vm_compute; reflexivity)).
Defined.

(** ** Structural validation and the build mode *)

(** The sample environment with a validator that refuses every attribute of
    a block, to observe whether [validateAttributeForBlock] is run. *)
Definition refusingBlockAttributes (mode : string) : Env :=
  let e := Sample.env mode in
  mkEnv (delimiters e) (NODE_ENV e) (trimRight e) (isWhiteSpace e)
    (isWhiteSpaceExceptLinebreak e) (isJSIdentifierPart e) (isJSXIdentifierPart e)
    (selfClosingTags e) (textTags e) (directivesMap e)
    (Directives_If e) (Directives_ElseIf e) (Directives_Else e) (Directives_Raw e)
    (validateDirectiveValue e) (validateModel e)
    (fun tag name value loc source =>
       Some (ParseError ("Invalid attribute '" +:+ name +:+ "' of block") loc)).

(** C3 fails on the code.  The guard of [parseJSXAttribute] compares
    [NODE_ENV] with the misspelt ['produdction'], so the validators run in a
    production build too: a validator that throws makes the production
    parser throw. *)
Theorem structural_validation_runs_in_production :
  Parser (refusingBlockAttributes "production") "<b:body x='1'></b:body>" 50
  = Throw (ParseError "Invalid attribute 'x' of block" (mkLoc 1 11))
  /\ (exists ast s,
        Parser (refusingBlockAttributes "produdction") "<b:body x='1'></b:body>" 50
        = Ok ast s).
Proof.
  split.
  - vm_compute. reflexivity.
  - eexists. eexists. vm_compute. reflexivity.
Qed.

(* ================================================================== *)
(** * Properties of the runtime                                        *)
(* ================================================================== *)

Module MisstimeProperties.

Import Misstime.

(** ** Concrete collaborators *)

(** Modelled from the spec: the functions of [utils/helpers],
    [utils/component] and [events/delegation] are not part of the sources.
    The collaborators below are used to run the runtime on concrete inputs:
    [set] of the helpers writes one key of the store, every other function
    records its call and returns, and [ev-click] is a delegated event. *)
Definition sampleCollab (mode : string) : Collab :=
  {| NODE_ENV := mode;
     delegatedEvents := fun prop => String.eqb prop "ev-click";
     helpers_set := fun props path value => <[path := value]> props;
     setProps := fun this data =>
       Misstime.bind (emit (CallSetProps (cid this) data)) (fun _ => Misstime.ret this);
     utils_forceUpdate := fun this callback =>
       Misstime.bind (emit (CallForceUpdate (cid this) callback))
         (fun _ => Misstime.ret this);
     mountProps := fun this data =>
       Misstime.bind (emit (CallMountProps (cid this) data))
         (fun _ => Misstime.ret (this, Some 0%nat));
     componentInited := fun this trigger =>
       Misstime.bind (emit (CallComponentInited (cid this) trigger))
         (fun _ => Misstime.ret this) |}.

(** ** The result monad *)

Lemma bind_inr {A B} (m : Res A) (k : A -> Res B) (b : B) :
  outcome (Misstime.bind m k) = inr b ->
  exists a, outcome m = inr a /\ outcome (k a) = inr b.
Proof.
  unfold Misstime.bind. destruct (outcome m) as [e|a]; simpl; [discriminate|].
  intros H. exists a. split; [reflexivity | exact H].
Qed.

Lemma bind_trace {A B} (m : Res A) (k : A -> Res B) (a : A) :
  outcome m = inr a ->
  trace (Misstime.bind m k) = trace m ++ trace (k a).
Proof. unfold Misstime.bind. intros ->. reflexivity. Qed.

Lemma bind_outcome {A B} (m : Res A) (k : A -> Res B) (a : A) :
  outcome m = inr a ->
  outcome (Misstime.bind m k) = outcome (k a).
Proof. unfold Misstime.bind. intros ->. reflexivity. Qed.

(** ** Induction on virtual nodes *)

Section VNodeInduction.

Variable P : VNode -> Prop.
Variable Q : Component -> Prop.

Hypothesis P_node :
  forall d t ct p ch r,
    match ch with
    | ChVNode v => P v
    | ChArray l => Forall P l
    | ChComponent c => Q c
    | _ => True
    end ->
    P (mkVNode d t ct p ch r).

Hypothesis Q_component :
  forall i p l a b m u h,
    match l with Some v => P v | None => True end ->
    Q (mkComponent i p l a b m u h).

Fixpoint VNode_induction (v : VNode) : P v :=
  match v with
  | mkVNode d t ct p ch r =>
      P_node d t ct p ch r
        (match ch as ch0
               return match ch0 with
                      | ChVNode v => P v
                      | ChArray l => Forall P l
                      | ChComponent c => Q c
                      | _ => True
                      end
         with
         | ChVNode v0 => VNode_induction v0
         | ChArray l =>
             (fix all (l : list VNode) : Forall P l :=
                match l with
                | [] => @List.Forall_nil VNode P
                | x :: l' => @List.Forall_cons VNode P x l' (VNode_induction x) (all l')
                end) l
         | ChComponent c => Component_induction c
         | _ => I
         end)
  end
with Component_induction (c : Component) : Q c :=
  match c with
  | mkComponent i p l a b m u h =>
      Q_component i p l a b m u h
        (match l as l0 return match l0 with Some v => P v | None => True end with
         | Some v => VNode_induction v
         | None => I
         end)
  end.

End VNodeInduction.

(** ** [unmount] and the DOM *)

(** The events that take a node out of the document. *)
Definition detachesDom (e : Event) : bool :=
  match e with
  | CallRemoveVNodeDom _ _ | SetTextContent _ _ => true
  | _ => false
  end.

(** A computation that makes no such call. *)
Definition quiet {A} (r : Res A) : Prop :=
  Forall (fun e => detachesDom e = false) (trace r).

Lemma quiet_ret {A} (a : A) : quiet (Misstime.ret a).
Proof. constructor. Qed.

Lemma quiet_throw {A} (e : Misstime.Exn) : quiet (@Misstime.throw A e).
Proof. constructor. Qed.

Lemma quiet_emit (e : Event) : detachesDom e = false -> quiet (emit e).
Proof. intros H. constructor; [exact H | constructor]. Qed.

Lemma quiet_bind {A B} (m : Res A) (k : A -> Res B) :
  quiet m -> (forall a, quiet (k a)) -> quiet (Misstime.bind m k).
Proof.
  unfold quiet, Misstime.bind. intros Hm Hk.
  destruct (outcome m) as [e|a]; simpl; [exact Hm|].
  apply List.Forall_app. split; [exact Hm | apply Hk].
Qed.

Section UnmountFacts.

Variable collab : Collab.

Lemma unmountDelegatedEvents_quiet (props : list (string * Value)) (d : option Dom) :
  quiet (unmountDelegatedEvents collab props d).
Proof.
  induction props as [|[prop v] props IH]; simpl.
  - apply quiet_ret.
  - apply quiet_bind; [|intros _; exact IH].
    destruct (delegatedEvents collab prop); [apply quiet_emit; reflexivity | apply quiet_ret].
Qed.

(** [unmount], with the loop over an array of children by its name. *)
Lemma unmount_unfold (dom : option Dom) (type childrenType : Z)
  (props : option (list (string * Value))) (children : Children) (ref : option Ref) :
  unmount collab (mkVNode dom type childrenType props children ref)
  = if truthy (Z.land type Types.Element) then
      Misstime.bind (emit (CallUnmountRef ref)) (fun _ =>
      Misstime.bind (match props with
                     | Some props => unmountDelegatedEvents collab props dom
                     | None => Misstime.ret tt
                     end) (fun _ =>
      if truthy (Z.land childrenType ChildrenTypes.MultipleChildren) then
        match children with
        | ChArray l =>
            Misstime.bind (unmountAllChildren collab l) (fun l' =>
            Misstime.ret (mkVNode dom type childrenType props (ChArray l') ref))
        | ChNull =>
            Misstime.throw (TypeError "Cannot read properties of null (reading 'length')")
        | _ => Misstime.ret (mkVNode dom type childrenType props children ref)
        end
      else if childrenType =? ChildrenTypes.HasVNodeChildren then
        match children with
        | ChVNode v =>
            Misstime.bind (unmount collab v) (fun v' =>
            Misstime.ret (mkVNode dom type childrenType props (ChVNode v') ref))
        | ChNull =>
            Misstime.throw (TypeError "Cannot read properties of null (reading 'type')")
        | _ => Misstime.ret (mkVNode dom type childrenType props children ref)
        end
      else Misstime.ret (mkVNode dom type childrenType props children ref)))
    else if truthyChildren children then
      if truthy (Z.land type Types.ComponentClass) then
        match children with
        | ChComponent c =>
            Misstime.bind (_unmount collab c) (fun c' =>
            Misstime.bind (emit (CallUnmountRef ref)) (fun _ =>
            Misstime.ret (mkVNode dom type childrenType props (ChComponent c') ref)))
        | _ => Misstime.throw (TypeError "children.$unmount is not a function")
        end
      else Misstime.ret (mkVNode dom type childrenType props children ref)
    else Misstime.ret (mkVNode dom type childrenType props children ref).
Proof. reflexivity. Qed.

Lemma unmountAllChildren_quiet (l : list VNode) :
  Forall (fun v => quiet (unmount collab v)) l ->
  quiet (unmountAllChildren collab l).
Proof.
  induction 1 as [|v l Hv Hl IH]; simpl.
  - apply quiet_ret.
  - apply quiet_bind; [exact Hv|]. intros v'.
    apply quiet_bind; [exact IH|]. intros l'. apply quiet_ret.
Qed.

Lemma unmount_quiet (vNode : VNode) : quiet (unmount collab vNode).
Proof.
  apply (VNode_induction (fun v => quiet (unmount collab v))
           (fun c => quiet (_unmount collab c))).
  - intros d t ct p ch r IH. rewrite unmount_unfold.
    destruct (truthy (Z.land t Types.Element)).
    + apply quiet_bind; [apply quiet_emit; reflexivity|]. intros _.
      apply quiet_bind.
      { destruct p; [apply unmountDelegatedEvents_quiet | apply quiet_ret]. }
      intros _.
      destruct (truthy (Z.land ct ChildrenTypes.MultipleChildren)).
      * destruct ch; try apply quiet_ret; try apply quiet_throw.
        apply quiet_bind; [apply unmountAllChildren_quiet; exact IH|].
        intros l'. apply quiet_ret.
      * destruct (ct =? ChildrenTypes.HasVNodeChildren); [|apply quiet_ret].
        destruct ch; try apply quiet_ret; try apply quiet_throw.
        apply quiet_bind; [exact IH|]. intros v'. apply quiet_ret.
    + destruct (truthyChildren ch); [|apply quiet_ret].
      destruct (truthy (Z.land t Types.ComponentClass)); [|apply quiet_ret].
      destruct ch; try apply quiet_throw.
      apply quiet_bind; [exact IH|]. intros c'.
      apply quiet_bind; [apply quiet_emit; reflexivity|]. intros _. apply quiet_ret.
  - intros i p l a b m u h IH. simpl.
    apply quiet_bind.
    { destruct (has_beforeUnmount h); [apply quiet_emit; reflexivity | apply quiet_ret]. }
    intros _. apply quiet_bind.
    { destruct l; [exact IH | apply quiet_throw]. }
    intros v'. apply quiet_bind; [apply quiet_emit; reflexivity|]. intros _.
    apply quiet_bind.
    { destruct (has_unmounted h); [apply quiet_emit; reflexivity | apply quiet_ret]. }
    intros _. apply quiet_ret.
Qed.

Lemma unmount_dom (vNode vNode' : VNode) :
  outcome (unmount collab vNode) = inr vNode' -> dom vNode' = dom vNode.
Proof.
  destruct vNode as [d t ct p ch r]. rewrite unmount_unfold. intros H.
  repeat match type of H with
         | outcome (if ?b then _ else _) = inr _ => destruct b
         | outcome (match ?c with ChNull => _ | _ => _ end) = inr _ => destruct c
         | outcome (Misstime.bind _ _) = inr _ =>
             apply bind_inr in H; destruct H as (? & _ & H)
         | outcome (Misstime.throw _) = inr _ => discriminate H
         | outcome (Misstime.ret _) = inr _ => injection H as <-
         end; reflexivity.
Qed.

End UnmountFacts.

(** C10. [unmount] makes no call that takes a DOM node out of the document
    and leaves [vNode.dom] as it is; the removal is the call that [remove]
    makes after [unmount], and the call or the write that
    [removeAllChildren] makes after [unmountAllChildren]. *)
Theorem unmount_leaves_dom (collab : Collab) (vNode : VNode) :
  quiet (unmount collab vNode)
  /\ (forall vNode',
        outcome (unmount collab vNode) = inr vNode' ->
        dom vNode' = dom vNode
        /\ forall parentDom,
             trace (remove collab vNode parentDom)
             = trace (unmount collab vNode) ++ [CallRemoveVNodeDom vNode' parentDom])
  /\ (forall children d children',
        outcome (unmountAllChildren collab children) = inr children' ->
        quiet (unmountAllChildren collab children)
        /\ trace (removeAllChildren collab children d vNode)
           = trace (unmountAllChildren collab children)
             ++ [if truthy (Z.land (type vNode) Types.Fragment)
                 then CallRemoveVNodeDom vNode d
                 else SetTextContent d ""]).
Proof.
  split; [apply unmount_quiet|]. split.
  - intros vNode' H. split; [eapply unmount_dom; exact H|].
    intros parentDom. unfold remove.
    rewrite (bind_trace _ _ _ H). simpl. reflexivity.
  - intros children d children' H. split.
    + apply unmountAllChildren_quiet.
      apply List.Forall_forall. intros v _. apply unmount_quiet.
    + unfold removeAllChildren. rewrite (bind_trace _ _ _ H).
      destruct (truthy (Z.land (type vNode) Types.Fragment)); reflexivity.
Qed.

(** ** Delegated events *)

(** An element with a delegated listener, alone and as the only child of a
    fragment. *)
Definition listeningElement : VNode :=
  mkVNode (Some 1%nat) Types.CommonElement ChildrenTypes.HasInvalidChildren
    (Some [("ev-click", VFunction 0)]) ChNull None.

Definition fragmentOfListener : VNode :=
  mkVNode None Types.Fragment ChildrenTypes.HasNonKeyedChildren None
    (ChArray [listeningElement]) None.

(** C4 fails on the code.  [unmount] has no branch for a fragment (nor for a
    function component): the children of a fragment are not visited, and the
    delegated event of an element below it is not unregistered, while the
    same element on its own is. *)
Theorem unmount_skips_fragment_children :
  trace (unmount (sampleCollab "development") fragmentOfListener) = []
  /\ trace (unmount (sampleCollab "development") listeningElement)
     = [CallUnmountRef None; CallUnmountDelegatedEvent "ev-click" (Some 1%nat)].
Proof. split; reflexivity. Qed.

(** *** The trees that [unmount] visits entirely *)

(** The delegated listeners of a virtual-node tree: for every element of the
    tree, through arrays of children, single children and the last input of
    components, its properties that are delegated events, with its DOM
    node. *)
Fixpoint listeners (collab : Collab) (vNode : VNode) : list (string * option Dom) :=
  match vNode with
  | mkVNode dom type childrenType props children ref =>
      (if truthy (Z.land type Types.Element) then
         match props with
         | Some props =>
             map (fun kv => (fst kv, dom))
               (List.filter (fun kv => delegatedEvents collab (fst kv)) props)
         | None => []
         end
       else [])
      ++ match children with
         | ChVNode v => listeners collab v
         | ChArray l =>
             (fix all (l : list VNode) : list (string * option Dom) :=
                match l with
                | [] => []
                | v :: rest => listeners collab v ++ all rest
                end) l
         | ChComponent c => componentListeners collab c
         | _ => []
         end
  end
with componentListeners (collab : Collab) (c : Component) : list (string * option Dom) :=
  match c with
  | mkComponent _ _ lastInput _ _ _ _ _ =>
      match lastInput with
      | Some v => listeners collab v
      | None => []
      end
  end.

(** A tree of elements, whose children have the shape that their flags
    announce, of class components that have rendered, and of leaves: no
    fragment and no function component with children. *)
Fixpoint supported (vNode : VNode) : bool :=
  match vNode with
  | mkVNode dom type childrenType props children ref =>
      if truthy (Z.land type Types.Element) then
        match children with
        | ChArray l =>
            truthy (Z.land childrenType ChildrenTypes.MultipleChildren)
            && (fix all (l : list VNode) : bool :=
                  match l with
                  | [] => true
                  | v :: rest => supported v && all rest
                  end) l
        | ChVNode v =>
            negb (truthy (Z.land childrenType ChildrenTypes.MultipleChildren))
            && (childrenType =? ChildrenTypes.HasVNodeChildren)
            && supported v
        | ChComponent _ => false
        | _ =>
            negb (truthy (Z.land childrenType ChildrenTypes.MultipleChildren))
            && negb (childrenType =? ChildrenTypes.HasVNodeChildren)
        end
      else
        match children with
        | ChComponent c => truthy (Z.land type Types.ComponentClass) && supportedComponent c
        | ChNull => true
        | ChString _ | ChNumber _ => negb (truthy (Z.land type Types.ComponentClass))
        | _ => false
        end
  end
with supportedComponent (c : Component) : bool :=
  match c with
  | mkComponent _ _ lastInput _ _ _ _ _ =>
      match lastInput with
      | Some v => supported v
      | None => false
      end
  end.

(** The listeners that a run unregisters, in order. *)
Definition unregistered (events : list Event) : list (string * option Dom) :=
  flat_map (fun e => match e with
                     | CallUnmountDelegatedEvent prop d => [(prop, d)]
                     | _ => []
                     end) events.

Lemma unregistered_app (t1 t2 : list Event) :
  unregistered (t1 ++ t2) = unregistered t1 ++ unregistered t2.
Proof. unfold unregistered. apply flat_map_app. Qed.

(** A run that returns, and the listeners it unregisters. *)
Definition unregisters {A} (r : Res A) (ls : list (string * option Dom)) : Prop :=
  (exists a, outcome r = inr a) /\ unregistered (trace r) = ls.

Lemma unregisters_ret {A} (a : A) : unregisters (Misstime.ret a) [].
Proof. split; [exists a; reflexivity | reflexivity]. Qed.

Lemma unregisters_bind {A B} (m : Res A) (k : A -> Res B)
  (l1 l2 : list (string * option Dom)) :
  unregisters m l1 -> (forall a, unregisters (k a) l2) ->
  unregisters (Misstime.bind m k) (l1 ++ l2).
Proof.
  intros [[a Ha] Hm] Hk. destruct (Hk a) as [[b Hb] Hka].
  split.
  - exists b. rewrite (bind_outcome _ _ _ Ha). exact Hb.
  - rewrite (bind_trace _ _ _ Ha), unregistered_app, Hm, Hka. reflexivity.
Qed.

Section Supported.

Variable collab : Collab.

Lemma unmountDelegatedEvents_unregisters (props : list (string * Value)) (d : option Dom) :
  unregisters (unmountDelegatedEvents collab props d)
    (map (fun kv => (fst kv, d))
       (List.filter (fun kv => delegatedEvents collab (fst kv)) props)).
Proof.
  induction props as [|[prop v] props IH]; simpl.
  - apply unregisters_ret.
  - destruct (delegatedEvents collab prop) eqn:E.
    + change (map _ (_ :: ?l)) with ([(prop, d)] ++ map (fun kv => (fst kv, d)) l).
      apply unregisters_bind; [|intros _; exact IH].
      split; [exists tt; reflexivity | reflexivity].
    + change (map ?f ?l) with ([] ++ map f l).
      apply unregisters_bind; [apply unregisters_ret | intros _; exact IH].
Qed.

Lemma unmountAllChildren_unregisters (l : list VNode) :
  Forall (fun v => supported v = true ->
                   unregisters (unmount collab v) (listeners collab v)) l ->
  forallb supported l = true ->
  unregisters (unmountAllChildren collab l) (flat_map (listeners collab) l).
Proof.
  induction 1 as [|v l Hv Hl IH]; simpl; intros Hs.
  - apply unregisters_ret.
  - apply andb_true_iff in Hs. destruct Hs as [Hsv Hsl].
    apply unregisters_bind; [apply Hv; exact Hsv|]. intros v'.
    rewrite <- (app_nil_r (flat_map _ l)).
    apply unregisters_bind; [apply IH; exact Hsl|]. intros l'.
    apply unregisters_ret.
Qed.

Lemma supported_all (l : list VNode) :
  (fix all (l : list VNode) : bool :=
     match l with
     | [] => true
     | v :: rest => supported v && all rest
     end) l = forallb supported l.
Proof. induction l as [|v l IH]; simpl; [reflexivity | rewrite IH; reflexivity]. Qed.

Lemma listeners_all (l : list VNode) :
  (fix all (l : list VNode) : list (string * option Dom) :=
     match l with
     | [] => []
     | v :: rest => listeners collab v ++ all rest
     end) l = flat_map (listeners collab) l.
Proof. induction l as [|v l IH]; simpl; [reflexivity | rewrite IH; reflexivity]. Qed.

(** X1. On a supported tree (elements whose children have the announced
    shape, class components that have rendered, leaves) [unmount] returns
    and calls [unmountDelegatedEvent] for every delegated listener of every
    element of the tree, in document order. *)
Theorem unmount_unregisters_supported (vNode : VNode) :
  supported vNode = true ->
  unregisters (unmount collab vNode) (listeners collab vNode).
Proof.
  apply (VNode_induction
           (fun v => supported v = true ->
                     unregisters (unmount collab v) (listeners collab v))
           (fun c => supportedComponent c = true ->
                     unregisters (_unmount collab c) (componentListeners collab c))).
  - intros d t ct p ch r IH Hs. rewrite unmount_unfold.
    simpl in Hs. simpl listeners.
    destruct (truthy (Z.land t Types.Element)).
    + change (?l ++ ?l') with ([] ++ l ++ l').
      apply unregisters_bind; [split; [exists tt; reflexivity | reflexivity]|].
      intros _. apply unregisters_bind.
      { destruct p; [apply unmountDelegatedEvents_unregisters | apply unregisters_ret]. }
      intros _.
      destruct ch as [| | |v|l|c]; try discriminate.
      * apply andb_true_iff in Hs. destruct Hs as [Hm Hv].
        apply negb_true_iff in Hm. apply negb_true_iff in Hv.
        rewrite Hm, Hv. apply unregisters_ret.
      * apply andb_true_iff in Hs. destruct Hs as [Hm Hv].
        apply negb_true_iff in Hm. apply negb_true_iff in Hv.
        rewrite Hm, Hv. apply unregisters_ret.
      * apply andb_true_iff in Hs. destruct Hs as [Hm Hv].
        apply negb_true_iff in Hm. apply negb_true_iff in Hv.
        rewrite Hm, Hv. apply unregisters_ret.
      * apply andb_true_iff in Hs. destruct Hs as [Hs Hv].
        apply andb_true_iff in Hs. destruct Hs as [Hm Hct].
        apply negb_true_iff in Hm. rewrite Hm, Hct.
        rewrite <- (app_nil_r (listeners collab v)).
        apply unregisters_bind; [apply IH; exact Hv|]. intros v'.
        apply unregisters_ret.
      * apply andb_true_iff in Hs. destruct Hs as [Hm Hl].
        rewrite Hm. rewrite supported_all in Hl. rewrite listeners_all.
        rewrite <- (app_nil_r (flat_map _ l)).
        apply unregisters_bind; [apply unmountAllChildren_unregisters; assumption|].
        intros l'. apply unregisters_ret.
    + simpl app.
      destruct ch as [|str|n|v|l|c]; try discriminate.
      * apply unregisters_ret.
      * apply negb_true_iff in Hs. rewrite Hs.
        destruct (truthyChildren (ChString str)); apply unregisters_ret.
      * apply negb_true_iff in Hs. rewrite Hs.
        destruct (truthyChildren (ChNumber n)); apply unregisters_ret.
      * apply andb_true_iff in Hs. destruct Hs as [Ht Hc].
        simpl truthyChildren. cbv iota. rewrite Ht.
        rewrite <- (app_nil_r (componentListeners collab c)).
        apply unregisters_bind; [apply IH; exact Hc|]. intros c'.
        change (@nil (string * option Dom)) with (@nil (string * option Dom) ++ []).
        apply unregisters_bind; [split; [exists tt; reflexivity | reflexivity]|].
        intros _. apply unregisters_ret.
  - intros i p l a b m u h IH Hs. simpl in Hs. simpl.
    destruct l as [v|]; [|discriminate].
    change (listeners collab v) with ([] ++ listeners collab v).
    apply unregisters_bind.
    { destruct (has_beforeUnmount h);
        [split; [exists tt; reflexivity | reflexivity] | apply unregisters_ret]. }
    intros _.
    rewrite <- (app_nil_r (listeners collab v)).
    apply unregisters_bind; [apply IH; exact Hs|]. intros v'.
    change (@nil (string * option Dom)) with (@nil (string * option Dom) ++ []).
    apply unregisters_bind; [split; [exists tt; reflexivity | reflexivity]|].
    intros _.
    change (@nil (string * option Dom)) with (@nil (string * option Dom) ++ []).
    apply unregisters_bind.
    { destruct (has_unmounted h);
        [split; [exists tt; reflexivity | reflexivity] | apply unregisters_ret]. }
    intros _. apply unregisters_ret.
Qed.

End Supported.

(** A class component whose last input is an element with the listening
    element among its children. *)
Definition listeningTree : VNode :=
  mkVNode None Types.ComponentClass ChildrenTypes.UnknownChildren None
    (ChComponent
       (mkComponent 0 ∅
          (Some (mkVNode (Some 2%nat) Types.CommonElement
                   ChildrenTypes.HasNonKeyedChildren None
                   (ChArray [listeningElement;
                             mkVNode (Some 3%nat) Types.Text
                               ChildrenTypes.UnknownChildren None (ChString "a") None])
                   None))
          true true true false (mkHooks None false false false)))
    None.

Lemma unmount_unregisters_supported_witness :
  unregisters (unmount (sampleCollab "development") listeningTree)
    [("ev-click", Some 1%nat)].
Proof.
  apply (unmount_unregisters_supported (sampleCollab "development") listeningTree).
  reflexivity.
Defined.

(** ** The component class *)

(** [with_props] changes the store and nothing else. *)
Lemma with_props_frame (p : gmap string Value) (this : Component) :
  props (with_props p this) = p
  /\ cid (with_props p this) = cid this
  /\ _lastInput (with_props p this) = _lastInput this
  /\ _inited (with_props p this) = _inited this
  /\ _rendered (with_props p this) = _rendered this
  /\ _mounted (with_props p this) = _mounted this
  /\ _unmounted (with_props p this) = _unmounted this
  /\ hooks (with_props p this) = hooks this.
Proof. destruct this. repeat split. Qed.

(** C5. A silent [set] returns without any call: the instance is the one
    before with the values written into its store by the helper [set], key
    by key, and nothing else changed.  A later [set] that is not silent is
    the call of [setProps] on the instance that holds those values. *)
Theorem set_silent_writes_store_only (collab : Collab) (this : Component) :
  (forall key value,
      set collab this (SetKey key value (Some (mkSetOptions true)))
      = Misstime.ret (with_props (helpers_set collab (props this) key value) this))
  /\ (forall data,
        set collab this (SetData data (Some (mkSetOptions true)))
        = Misstime.ret (with_props (setSilently collab data (props this)) this))
  /\ (forall args options,
        setOptions args = Some options -> silent options = true ->
        trace (set collab this args) = []
        /\ exists this',
             outcome (set collab this args) = inr this'
             /\ props this' = setSilently collab (setData args) (props this)
             /\ cid this' = cid this
             /\ _lastInput this' = _lastInput this
             /\ _inited this' = _inited this
             /\ _rendered this' = _rendered this
             /\ _mounted this' = _mounted this
             /\ _unmounted this' = _unmounted this
             /\ hooks this' = hooks this
             /\ forall args',
                  (setOptions args' = None
                   \/ setOptions args' = Some (mkSetOptions false)) ->
                  set collab this' args' = setProps collab this' (setData args')).
Proof.
  split; [reflexivity|]. split; [reflexivity|].
  intros args options Hopt Hsilent. unfold set. rewrite Hopt, Hsilent.
  split; [reflexivity|].
  eexists. split; [reflexivity|].
  destruct (with_props_frame (setSilently collab (setData args) (props this)) this)
    as (H1 & H2 & H3 & H4 & H5 & H6 & H7 & H8).
  repeat (split; [assumption|]).
  intros args' [Hnone|Hloud]; [rewrite Hnone | rewrite Hloud]; reflexivity.
Qed.









(** ** What [unmount] passes over, and where it stops *)

(** X10. [unmount] has a branch for elements and one for class components.
    Every other virtual node (a text, a comment, a fragment, a function
    component) is returned as it is: no call is made and nothing is thrown,
    whatever its children are. *)
Theorem unmount_ignores_other_types (collab : Collab) (vNode : VNode) :
  truthy (Z.land (type vNode) Types.Element) = false ->
  truthy (Z.land (type vNode) Types.ComponentClass) = false ->
  unmount collab vNode = Misstime.ret vNode.
Proof.
  destruct vNode as [d t ct p c r]. cbn [type]. intros Helement Hclass.
  rewrite unmount_unfold, Helement, Hclass.
  destruct (truthyChildren c); reflexivity.
Qed.

(** A fragment over an element that listens. *)
Lemma unmount_ignores_other_types_witness :
  unmount (sampleCollab "development") fragmentOfListener
  = Misstime.ret fragmentOfListener.
Proof.
  apply (unmount_ignores_other_types (sampleCollab "development") fragmentOfListener);
    reflexivity.
Defined.

(** X11. A class component that was never rendered has a null [$lastInput].
    Unmounting its virtual node calls [beforeUnmount], if defined, and then
    throws the [TypeError] of [unmount(null)]: [off] and [unmounted] are not
    called, [unmountRef] is not called for the virtual node, and in a list
    of children the siblings behind it are not unmounted. *)
Theorem unmount_unrendered_component (collab : Collab) (vNode : VNode)
  (c : Component) (rest : list VNode) :
  truthy (Z.land (type vNode) Types.Element) = false ->
  truthy (Z.land (type vNode) Types.ComponentClass) = true ->
  children vNode = ChComponent c ->
  _lastInput c = None ->
  let thrown :=
    mkRes (if has_beforeUnmount (hooks c) then [CallHook (cid c) "beforeUnmount"] else [])
      (inl (TypeError "Cannot read properties of null (reading 'type')")) in
  unmount collab vNode = thrown
  /\ unmountAllChildren collab (vNode :: rest)
     = mkRes (trace (A := VNode) thrown)
         (inl (TypeError "Cannot read properties of null (reading 'type')")).
Proof.
  destruct vNode as [d t ct p ch r]. cbn [type children].
  intros Helement Hclass -> Hlast.
  assert (H : unmount collab (mkVNode d t ct p (ChComponent c) r)
              = mkRes (if has_beforeUnmount (hooks c)
                       then [CallHook (cid c) "beforeUnmount"] else [])
                  (inl (TypeError "Cannot read properties of null (reading 'type')"))).
  { rewrite unmount_unfold, Helement, Hclass. cbn [truthyChildren].
    destruct c as [i pr l a b m u h]. cbn [_lastInput] in Hlast. subst l.
    cbn [_unmount hooks cid].
    destruct (has_beforeUnmount h); reflexivity. }
  cbv zeta. split; [exact H|].
  cbn [unmountAllChildren]. rewrite H. reflexivity.
Qed.

(** A component created and not rendered, in front of an element that
    listens. *)
Lemma unmount_unrendered_component_witness :
  unmountAllChildren (sampleCollab "development")
    [mkVNode None Types.ComponentClass ChildrenTypes.UnknownChildren None
       (ChComponent (mkComponent 7 ∅ None true false false false
                       (mkHooks None false true false))) None;
     listeningElement]
  = mkRes [CallHook 7 "beforeUnmount"]
      (inl (TypeError "Cannot read properties of null (reading 'type')")).
Proof.
  refine (proj2 (unmount_unrendered_component (sampleCollab "development")
                   (mkVNode None Types.ComponentClass ChildrenTypes.UnknownChildren None
                      (ChComponent (mkComponent 7 ∅ None true false false false
                                      (mkHooks None false true false))) None)
                   (mkComponent 7 ∅ None true false false false
                      (mkHooks None false true false))
                   [listeningElement] _ _ _ _));
    reflexivity.
Defined.

End MisstimeProperties.

(* ================================================================== *)
(** * Form elements                                                    *)
(* ================================================================== *)

Module ProcessElement.

Import Misstime.

(** The calls of [processElement] to the wrappers of [./input], [./select]
    and [./textarea], whose source is not part of the development. *)
Inductive Applied :=
| ApplyValueInput (nextProps : list (string * Value)) (d : Dom)
| ApplyValueSelect (nextProps : list (string * Value)) (d : Dom) (mounting : bool)
    (vNode : VNode) (isControlled : bool)
| ApplyValueTextArea (nextProps : list (string * Value)) (d : Dom) (mounting : bool).

(** [processElement(type, vNode, dom, nextProps, mounting, isControlled)]:
    the calls it makes. *)
Definition processElement (type : Z) (vNode : VNode) (d : Dom)
  (nextProps : list (string * Value)) (mounting isControlled : bool) : list Applied :=
  if truthy (Z.land type Types.InputElement) then
    [ApplyValueInput nextProps d]
  else if truthy (Z.land type Types.SelectElement) then
    [ApplyValueSelect nextProps d mounting vNode isControlled]
  else if truthy (Z.land type Types.TextareaElement) then
    [ApplyValueTextArea nextProps d mounting]
  else [].

Lemma truthy_lor (a b : Z) : truthy (Z.lor a b) = truthy a || truthy b.
Proof.
  unfold truthy.
  destruct (a =? 0) eqn:Ea; destruct (b =? 0) eqn:Eb; simpl;
    [apply negb_false_iff | apply negb_true_iff ..]; rewrite ?Z.eqb_eq, ?Z.eqb_neq in *;
    rewrite Z.lor_eq_0_iff; tauto.
Qed.

Lemma truthy_FormElement (type : Z) :
  truthy (Z.land type Types.FormElement)
  = truthy (Z.land type Types.InputElement)
    || truthy (Z.land type Types.SelectElement)
    || truthy (Z.land type Types.TextareaElement).
Proof.
  unfold Types.FormElement.
  rewrite !Z.land_lor_distr_r, !truthy_lor. reflexivity.
Qed.

(** X12. [processElement] applies the value of a form element through
    exactly one wrapper, the first in the order input, select, textarea
    whose bit is set in [type]; for a type without a form-element bit it
    calls nothing. *)
Theorem processElement_applies_once (type : Z) (vNode : VNode) (d : Dom)
  (nextProps : list (string * Value)) (mounting isControlled : bool) :
  let calls := processElement type vNode d nextProps mounting isControlled in
  Z.of_nat (length calls) = (if truthy (Z.land type Types.FormElement) then 1 else 0)
  /\ (truthy (Z.land type Types.InputElement) = true ->
      calls = [ApplyValueInput nextProps d])
  /\ (truthy (Z.land type Types.InputElement) = false ->
      truthy (Z.land type Types.SelectElement) = true ->
      calls = [ApplyValueSelect nextProps d mounting vNode isControlled])
  /\ (truthy (Z.land type Types.InputElement) = false ->
      truthy (Z.land type Types.SelectElement) = false ->
      truthy (Z.land type Types.TextareaElement) = true ->
      calls = [ApplyValueTextArea nextProps d mounting]).
Proof.
  cbv zeta. unfold processElement. rewrite truthy_FormElement.
  destruct (truthy (Z.land type Types.InputElement));
    destruct (truthy (Z.land type Types.SelectElement));
    destruct (truthy (Z.land type Types.TextareaElement));
    repeat split; intros; try reflexivity; discriminate.
Qed.

End ProcessElement.
